(** * Adaptive traffic-light controller: the arbitration engine

    A shallow embedding of the two controllers of the repository,
    [run_simulation_binary.py] (binary ultrasonic sensors with persistence)
    and [run_simulation_queue_based.py] (multi-zone queue counting), and the
    properties of their per-tick state machine.

    Modelling conventions.
    - Python [int] is [Z]; Python [float] is modelled by exact rationals [Q]
      (no rounding error, no NaN, no infinity).  The only explicit rounding
      of the source, [round(x, 1)], is modelled as round-half-even on tenths.
    - A Python exception is a [Raise] result; a bare [try: ... except:] is
      [try_except].  A raise that is not caught aborts the tick and the run.
    - The TraCI client is an environment of queries, fixed during one tick
      ([traci.simulationStep()] is called between ticks only).  The program
      string of the SUMO traffic light 'center' is carried along with the
      controller, as the field [tl_center].
    - [print] calls and the CSV logs ([cycle_data], [sensor_data]) are left
      out: they read the state and never write it. *)

From Stdlib Require Import ZArith QArith Qround String Ascii List Lia Lqa.
From stdpp Require Import base option gmap strings list fin_maps.
Import ListNotations.

Local Open Scope Z_scope.

(* ===================================================================== *)
(** ** Exceptions *)
(* ===================================================================== *)

Inductive exn : Type :=
| KeyError        (* a dict lookup on a missing key *)
| TraCIException. (* a TraCI query failed *)

Inductive result (A : Type) : Type :=
| Ok (a : A)
| Raise (e : exn).
Arguments Ok {A} a.
Arguments Raise {A} e.

Definition rbind {A B} (m : result A) (k : A -> result B) : result B :=
  match m with
  | Ok a => k a
  | Raise e => Raise e
  end.

Notation "'let?' x := m 'in' k" := (rbind m (fun x => k))
  (at level 10, x pattern, m at level 100, k at level 200).

(** [try: m except: h] with a bare [except]. *)
Definition try_except {A} (m : result A) (h : A) : A :=
  match m with
  | Ok a => a
  | Raise _ => h
  end.

(** A [for] loop whose body may raise. *)
Fixpoint for_each {A S} (xs : list A) (body : A -> S -> result S) (s : S)
  : result S :=
  match xs with
  | [] => Ok s
  | x :: xs' => let? s' := body x s in for_each xs' body s'
  end.

Definition is_ok {A} (r : result A) : bool :=
  match r with Ok _ => true | Raise _ => false end.

(* ===================================================================== *)
(** ** Numbers the way Python compares them *)
(* ===================================================================== *)

Definition Qltb (a b : Q) : bool :=
  match (a ?= b)%Q with Lt => true | _ => false end.

Definition Qleb (a b : Q) : bool :=
  match (a ?= b)%Q with Gt => false | _ => true end.

(** Python's [min(a, b)] returns [a] unless [b < a]; [max(a, b)] returns
    [a] unless [b > a]. *)
Definition py_min (a b : Q) : Q := if Qltb b a then b else a.
Definition py_max (a b : Q) : Q := if Qltb a b then b else a.

(** [round(x)] to the nearest integer, ties to the even one. *)
Definition round_half_even (x : Q) : Z :=
  let f := Qfloor x in
  match ((x - inject_Z f) ?= (1 # 2))%Q with
  | Lt => f
  | Gt => f + 1
  | Eq => if Z.even f then f else f + 1
  end.

(** [round(x, 1)]. *)
Definition round1 (x : Q) : Q := (round_half_even (x * 10)%Q # 10)%Q.

(** [state.upper()] on the one-letter signal codes. *)
Definition upper (c : ascii) : ascii :=
  let n := nat_of_ascii c in
  if ((97 <=? n)%nat && (n <=? 122)%nat)%bool then ascii_of_nat (n - 32) else c.

(* ===================================================================== *)
(** ** The TraCI client and the intersection table *)
(* ===================================================================== *)

Record Traci : Type := {
  edge_getLastStepVehicleIDs : string -> result (list string);
  vehicle_getLanePosition    : string -> result Q;
  vehicle_getLaneID          : string -> result string;
  lane_getLength             : string -> result Q;
  vehicle_getSpeed           : string -> result Q;
  simulation_getArrivedIDList : result (list string)
}.

(** One entry of [INTERSECTIONS] (the ANSI colour is only printed). *)
Record Approach : Type := {
  name     : string;
  tl_id    : string;
  tl_links : list nat;
  edge     : string
}.

Definition INTERSECTIONS : list (Z * Approach) :=
  [ (0, {| name := "R1"; tl_id := "center"; tl_links := [0; 1]%nat; edge := "r1_in" |});
    (1, {| name := "R2"; tl_id := "center"; tl_links := [2; 3]%nat; edge := "r2_in" |});
    (2, {| name := "R3"; tl_id := "center"; tl_links := [4; 5]%nat; edge := "r3_in" |}) ].

(** [INTERSECTIONS[idx]]. *)
Definition INTERSECTIONS_at (idx : Z) : result Approach :=
  match List.find (fun p => fst p =? idx) INTERSECTIONS with
  | Some p => Ok (snd p)
  | None => Raise KeyError
  end.

(** [range(3)]. *)
Definition range3 : list Z := [0; 1; 2].

(** The body of the per-vehicle [try] block shared by both sensing
    functions: the four queries and the distance to the stop line. *)
Definition read_vehicle (env : Traci) (veh_id : string) : result (Q * Q) :=
  let? pos := vehicle_getLanePosition env veh_id in
  let? lane_id := vehicle_getLaneID env veh_id in
  let? lane_length := lane_getLength env lane_id in
  let dist_to_intersection := (lane_length - pos)%Q in
  let? speed := vehicle_getSpeed env veh_id in
  Ok (dist_to_intersection, speed).

(** The vehicle list of an edge under [try: ... except: vehicle_ids = []]. *)
Definition vehicle_ids_of (env : Traci) (edge : string) : list string :=
  try_except (edge_getLastStepVehicleIDs env edge) [].

(* ===================================================================== *)
(** ** Configuration: the module-level constants *)
(* ===================================================================== *)

Record Timing : Type := {
  G_MIN : Q;
  G_MAX : Q;
  YELLOW_TIME : Q;
  ALL_RED_TIME : Q
}.

(** The values both scripts declare. *)
Definition timing : Timing :=
  {| G_MIN := 10; G_MAX := 40; YELLOW_TIME := 3; ALL_RED_TIME := 1 |}.

(* ===================================================================== *)
(** ** State *)
(* ===================================================================== *)

(** [IntersectionState].  The two scripts declare the same fields apart from
    the detection fields, which are gathered in [det]. *)
Record IntersectionState (D : Type) : Type := mkInter {
  id : Z;
  det : D;
  current_light : string;
  last_green_end : Z;
  state_start : Z;
  planned_duration : Q;
  consecutive_greens : Z
}.
Arguments mkInter {D}.
Arguments id {D}.
Arguments det {D}.
Arguments current_light {D}.
Arguments last_green_end {D}.
Arguments state_start {D}.
Arguments planned_duration {D}.
Arguments consecutive_greens {D}.

Section InterSetters.
Context {D : Type}.
Implicit Type st : IntersectionState D.

Definition set_det (v : D) st :=
  mkInter (id st) v (current_light st) (last_green_end st) (state_start st)
          (planned_duration st) (consecutive_greens st).
Definition set_current_light (v : string) st :=
  mkInter (id st) (det st) v (last_green_end st) (state_start st)
          (planned_duration st) (consecutive_greens st).
Definition set_last_green_end (v : Z) st :=
  mkInter (id st) (det st) (current_light st) v (state_start st)
          (planned_duration st) (consecutive_greens st).
Definition set_state_start (v : Z) st :=
  mkInter (id st) (det st) (current_light st) (last_green_end st) v
          (planned_duration st) (consecutive_greens st).
Definition set_planned_duration (v : Q) st :=
  mkInter (id st) (det st) (current_light st) (last_green_end st)
          (state_start st) v (consecutive_greens st).
Definition set_consecutive_greens (v : Z) st :=
  mkInter (id st) (det st) (current_light st) (last_green_end st)
          (state_start st) (planned_duration st) v.
End InterSetters.

(** [IntersectionState.__init__(idx)], given the initial detection fields. *)
Definition new_intersection {D} (d0 : D) (idx : Z) : IntersectionState D :=
  mkInter idx d0 "RED" 0 0 0%Q 0.

(** [SimulationController], with the traffic-light program it drives. *)
Record SimulationController (D : Type) : Type := mkCtl {
  intersections : gmap Z (IntersectionState D);
  active_idx : Z;
  is_all_red : bool;
  all_red_start : Z;
  cycle_count : Z;
  total_waiting_time : Z;
  vehicles_processed : Z;
  tl_center : list ascii
}.
Arguments mkCtl {D}.
Arguments intersections {D}.
Arguments active_idx {D}.
Arguments is_all_red {D}.
Arguments all_red_start {D}.
Arguments cycle_count {D}.
Arguments total_waiting_time {D}.
Arguments vehicles_processed {D}.
Arguments tl_center {D}.

Section CtlSetters.
Context {D : Type}.
Implicit Type c : SimulationController D.

Definition set_intersections (v : gmap Z (IntersectionState D)) c :=
  mkCtl v (active_idx c) (is_all_red c) (all_red_start c) (cycle_count c)
        (total_waiting_time c) (vehicles_processed c) (tl_center c).
Definition set_active_idx (v : Z) c :=
  mkCtl (intersections c) v (is_all_red c) (all_red_start c) (cycle_count c)
        (total_waiting_time c) (vehicles_processed c) (tl_center c).
Definition set_is_all_red (v : bool) c :=
  mkCtl (intersections c) (active_idx c) v (all_red_start c) (cycle_count c)
        (total_waiting_time c) (vehicles_processed c) (tl_center c).
Definition set_all_red_start (v : Z) c :=
  mkCtl (intersections c) (active_idx c) (is_all_red c) v (cycle_count c)
        (total_waiting_time c) (vehicles_processed c) (tl_center c).
Definition set_cycle_count (v : Z) c :=
  mkCtl (intersections c) (active_idx c) (is_all_red c) (all_red_start c) v
        (total_waiting_time c) (vehicles_processed c) (tl_center c).
Definition set_total_waiting_time (v : Z) c :=
  mkCtl (intersections c) (active_idx c) (is_all_red c) (all_red_start c)
        (cycle_count c) v (vehicles_processed c) (tl_center c).
Definition set_vehicles_processed (v : Z) c :=
  mkCtl (intersections c) (active_idx c) (is_all_red c) (all_red_start c)
        (cycle_count c) (total_waiting_time c) v (tl_center c).
Definition set_tl_center (v : list ascii) c :=
  mkCtl (intersections c) (active_idx c) (is_all_red c) (all_red_start c)
        (cycle_count c) (total_waiting_time c) (vehicles_processed c) v.

(** [self.intersections[idx]]. *)
Definition get_inter c (idx : Z) : result (IntersectionState D) :=
  match intersections c !! idx with
  | Some st => Ok st
  | None => Raise KeyError
  end.

(** [self.intersections[idx].field = v]: the object held by the dict is
    updated in place. *)
Definition with_inter (idx : Z)
    (f : IntersectionState D -> IntersectionState D) c
  : result (SimulationController D) :=
  let? st := get_inter c idx in
  Ok (set_intersections (<[idx := f st]> (intersections c)) c).
End CtlSetters.

(** [SimulationController.__init__()]: three approaches, all RED, in the
    all-red gap.  The initial program string is the one of the SUMO network
    (not part of the scripts), taken as a parameter. *)
Definition new_controller {D} (d0 : D) (tl0 : list ascii) : SimulationController D :=
  mkCtl (list_to_map (List.map (fun i => (i, new_intersection d0 i)) range3))
        (-1) true 0 0 0 0 tl0.

(* ===================================================================== *)
(** ** The arbitration state machine

    [set_traffic_light], the winner scan, [run_step] and the driver loop of
    [main] are the same text in both scripts, up to the sensing function,
    the scoring function and the green-time scaling factor. *)
(* ===================================================================== *)

Module Arbiter.
Section Controller.
Context {D : Type}.
Variable cfg : Timing.
(** [update_sensors] / [measure_queue_length]. *)
Variable sense :
  Traci -> Z -> SimulationController D -> result (SimulationController D).
(** The body of [get_priority], on the approach's record. *)
Variable priority_of : IntersectionState D -> Z -> Q.
(** The factor of [G_MIN + priority * factor]. *)
Variable scaling_factor : Q.

Implicit Type c : SimulationController D.

Definition get_priority c (idx step : Z) : result Q :=
  let? inter := get_inter c idx in
  Ok (priority_of inter step).

(** The loop [for link in links: if link < len(current_state):
    current_state[link] = state]. *)
Definition paint (links : list nat) (state : ascii) (current_state : list ascii)
  : list ascii :=
  fold_left (fun cs link =>
               if (link <? length cs)%nat then <[link := state]> cs else cs)
            links current_state.

Definition set_traffic_light (idx : Z) (state : ascii) c
  : result (SimulationController D) :=
  let? data := INTERSECTIONS_at idx in
  let links := tl_links data in
  let current_state := tl_center c in
  let current_state := paint links state current_state in
  let c := set_tl_center current_state c in
  with_inter idx (set_current_light (String (upper state) EmptyString)) c.

(** [green_time = G_MIN + priority * factor], clamped and rounded. *)
Definition calculate_green_time (priority : Q) : Q :=
  let green_time := (G_MIN cfg + priority * scaling_factor)%Q in
  let green_time := py_min (py_max green_time (G_MIN cfg)) (G_MAX cfg) in
  round1 green_time.

(** The scan [for i in range(3): p = get_priority(i); if p > top: ...]
    from [winner = -1], [top_priority = -1.0]. *)
Definition find_winner c (step : Z) : result (Z * Q) :=
  for_each range3
    (fun i '(winner, top_priority) =>
       let? p := get_priority c i step in
       if Qltb top_priority p then Ok (i, p) else Ok (winner, top_priority))
    (-1, (-1)%Q).

Definition track_waiting_time (env : Traci) c
  : result (SimulationController D) :=
  for_each INTERSECTIONS
    (fun '(idx, data) c =>
       let? ids := edge_getLastStepVehicleIDs env (edge data) in
       for_each ids
         (fun veh_id c =>
            let? speed := vehicle_getSpeed env veh_id in
            if Qltb speed (1 # 10)
            then Ok (set_total_waiting_time (total_waiting_time c + 1) c)
            else Ok c)
         c)
    c.

Definition count_processed (env : Traci) c : result (SimulationController D) :=
  let? ids := simulation_getArrivedIDList env in
  Ok (List.fold_left
        (fun c _ => set_vehicles_processed (vehicles_processed c + 1) c) ids c).

(** The branch taken when the all-red gap has lasted [ALL_RED_TIME]. *)
Definition select_winner (step : Z) c : result (SimulationController D) :=
  let c := set_is_all_red false c in
  let? (winner, top_priority) := find_winner c step in
  let? c := for_each range3
              (fun i c => if i =? winner then Ok c
                          else set_traffic_light i "r" c) c in
  if winner =? -1 then Ok c
  else
    let c := set_active_idx winner c in
    let? c := with_inter winner (set_state_start step) c in
    let? c := with_inter winner
                (fun inter =>
                   set_consecutive_greens (consecutive_greens inter + 1) inter) c in
    let? c := for_each range3
                (fun i c => if i =? winner then Ok c
                            else with_inter i (set_consecutive_greens 0) c) c in
    let? priority := get_priority c winner step in
    let? c := with_inter winner
                (set_planned_duration (calculate_green_time priority)) c in
    set_traffic_light winner "G" c.

(** The branch taken outside the gap while an approach is active. *)
Definition advance_active (step : Z) c : result (SimulationController D) :=
  let? inter := get_inter c (active_idx c) in
  let elapsed := step - state_start inter in
  if String.eqb (current_light inter) "G" then
    if Qleb (planned_duration inter) (inject_Z elapsed) then
      let? c := set_traffic_light (active_idx c) "y" c in
      with_inter (active_idx c) (set_state_start step) c
    else Ok c
  else if String.eqb (current_light inter) "Y" then
    if Qleb (YELLOW_TIME cfg) (inject_Z elapsed) then
      let? c := set_traffic_light (active_idx c) "r" c in
      let? c := with_inter (active_idx c) (set_last_green_end step) c in
      let c := set_active_idx (-1) c in
      let c := set_is_all_red true c in
      let c := set_all_red_start step c in
      Ok (set_cycle_count (cycle_count c + 1) c)
    else Ok c
  else Ok c.

(** The traffic-light part of [run_step]. *)
Definition control (step : Z) c : result (SimulationController D) :=
  if is_all_red c then
    if Qleb (ALL_RED_TIME cfg) (inject_Z (step - all_red_start c))
    then select_winner step c
    else Ok c
  else if negb (active_idx c =? -1) then advance_active step c
  else Ok (set_all_red_start step (set_is_all_red true c)).

Definition run_step (env : Traci) (step : Z) c
  : result (SimulationController D) :=
  let? c := sense env step c in
  let? c := track_waiting_time env c in
  let? c := count_processed env c in
  control step c.

(** The loop of [main]: [envs] lists the TraCI state after each
    [traci.simulationStep()]; the loop stops at step 3600 or when the
    driver stops calling. *)
Fixpoint main_loop (envs : list Traci) (step : Z) c
  : result (SimulationController D) :=
  match envs with
  | [] => Ok c
  | env :: envs' =>
      if step <? 3600 then
        let? c := run_step env step c in
        main_loop envs' (step + 1) c
      else Ok c
  end.
End Controller.
End Arbiter.

(* ===================================================================== *)
(** ** Binary ultrasonic sensors ([run_simulation_binary.py]) *)
(* ===================================================================== *)

Module Binary.

Record SensorConfig : Type := {
  NEAR_SENSOR_DISTANCE : Q;
  FAR_SENSOR_DISTANCE : Q;
  SENSOR_DELAY : Z
}.

Definition sensors : SensorConfig :=
  {| NEAR_SENSOR_DISTANCE := 20; FAR_SENSOR_DISTANCE := 50; SENSOR_DELAY := 10 |}.

(** The detection fields of [IntersectionState]. *)
Record Detection : Type := {
  near_sensor_occupied : bool;
  far_sensor_occupied : bool;
  near_detect_time : Z;
  far_detect_time : Z
}.

Definition no_detection : Detection :=
  {| near_sensor_occupied := false; far_sensor_occupied := false;
     near_detect_time := 0; far_detect_time := 0 |}.

Section Sensing.
Variable sc : SensorConfig.

(** One vehicle of the loop over [vehicle_ids]: both candidates are
    updated, or neither when a query raises. *)
Definition detect_vehicle (env : Traci) (now : bool * bool) (veh_id : string)
  : bool * bool :=
  try_except
    (let? (dist_to_intersection, speed) := read_vehicle env veh_id in
     let near_detected_now :=
       if (Qleb dist_to_intersection (NEAR_SENSOR_DISTANCE sc)
           && Qltb speed (1 # 2))%bool then true else fst now in
     let far_detected_now :=
       if (Qleb dist_to_intersection (FAR_SENSOR_DISTANCE sc)
           && Qltb speed (1 # 2))%bool then true else snd now in
     Ok (near_detected_now, far_detected_now))
    now.

(** [(near_detected_now, far_detected_now)] after the loop. *)
Definition candidates (env : Traci) (vehicle_ids : list string) : bool * bool :=
  List.fold_left (detect_vehicle env) vehicle_ids (false, false).

(** The persistence block, written twice in the source (near, far):
    from the candidate and the timer origin to the new origin and the
    occupancy flag. *)
Definition persistence (detected_now : bool) (step detect_time : Z)
  : Z * bool :=
  if detected_now then
    let detect_time := if detect_time =? 0 then step else detect_time in
    if SENSOR_DELAY sc <=? step - detect_time
    then (detect_time, true)
    else (detect_time, false)
  else (0, false).

Definition sense_approach (now : bool * bool) (step : Z) (d : Detection)
  : Detection :=
  let near := persistence (fst now) step (near_detect_time d) in
  let far := persistence (snd now) step (far_detect_time d) in
  {| near_sensor_occupied := snd near; far_sensor_occupied := snd far;
     near_detect_time := fst near; far_detect_time := fst far |}.

Definition update_sensors (env : Traci) (step : Z)
    (c : SimulationController Detection)
  : result (SimulationController Detection) :=
  for_each INTERSECTIONS
    (fun '(idx, data) c =>
       let vehicle_ids := vehicle_ids_of env (edge data) in
       let now := candidates env vehicle_ids in
       with_inter idx
         (fun inter => set_det (sense_approach now step (det inter)) inter) c)
    c.
End Sensing.

(** The body of [get_priority]. *)
Definition priority_of (inter : IntersectionState Detection) (step : Z) : Q :=
  let priority := 0%Q in
  let priority :=
    if near_sensor_occupied (det inter) then (priority + 1)%Q else priority in
  let priority :=
    if far_sensor_occupied (det inter) then (priority + 2)%Q else priority in
  let priority :=
    (priority + py_min (inject_Z (step - last_green_end inter) / 120) 1)%Q in
  let monopoly_penalty := (inject_Z (consecutive_greens inter) * 3)%Q in
  let priority := (priority - monopoly_penalty)%Q in
  py_max priority (1 # 10).

Definition get_priority := Arbiter.get_priority priority_of.
Definition find_winner := Arbiter.find_winner priority_of.
Definition calculate_green_time (cfg : Timing) :=
  Arbiter.calculate_green_time cfg (75 # 10).
Definition control (cfg : Timing) :=
  Arbiter.control (D := Detection) cfg priority_of (75 # 10).
Definition run_step (cfg : Timing) (sc : SensorConfig) :=
  Arbiter.run_step cfg (update_sensors sc) priority_of (75 # 10).
Definition main_loop (cfg : Timing) (sc : SensorConfig) :=
  Arbiter.main_loop cfg (update_sensors sc) priority_of (75 # 10).

(** [SimulationController()]: the constructor reads no constant. *)
Definition init (cfg : Timing) (sc : SensorConfig) (tl0 : list ascii)
  : result (SimulationController Detection) :=
  Ok (new_controller no_detection tl0).

(** [main], up to its reports: construct the controller, then tick from
    step 0. *)
Definition main (cfg : Timing) (sc : SensorConfig) (tl0 : list ascii)
    (envs : list Traci) : result (SimulationController Detection) :=
  let? controller := init cfg sc tl0 in
  main_loop cfg sc envs 0 controller.

End Binary.

(* ===================================================================== *)
(** ** Queue-length detection ([run_simulation_queue_based.py]) *)
(* ===================================================================== *)

Module QueueBased.

Record ZoneConfig : Type := {
  ZONE_NEAR : Q;
  ZONE_MEDIUM : Q;
  ZONE_FAR : Q;
  WEIGHT_NEAR : Q;
  WEIGHT_MEDIUM : Q;
  WEIGHT_FAR : Q
}.

Definition zones : ZoneConfig :=
  {| ZONE_NEAR := 25; ZONE_MEDIUM := 60; ZONE_FAR := 100;
     WEIGHT_NEAR := 3; WEIGHT_MEDIUM := 2; WEIGHT_FAR := 1 |}.

(** The queue measurements of [IntersectionState]. *)
Record Detection : Type := {
  vehicles_near : Z;
  vehicles_medium : Z;
  vehicles_far : Z;
  total_queue_length : Z
}.

Definition no_detection : Detection :=
  {| vehicles_near := 0; vehicles_medium := 0; vehicles_far := 0;
     total_queue_length := 0 |}.

Section Sensing.
Variable zc : ZoneConfig.

(** One vehicle of the counting loop: [(near, medium, far)] counts. *)
Definition count_vehicle (env : Traci) (counts : Z * Z * Z) (veh_id : string)
  : Z * Z * Z :=
  let '(near_count, medium_count, far_count) := counts in
  try_except
    (let? (dist_to_intersection, speed) := read_vehicle env veh_id in
     if Qltb speed 2 then
       if Qleb dist_to_intersection (ZONE_NEAR zc)
       then Ok (near_count + 1, medium_count, far_count)
       else if Qleb dist_to_intersection (ZONE_MEDIUM zc)
       then Ok (near_count, medium_count + 1, far_count)
       else if Qleb dist_to_intersection (ZONE_FAR zc)
       then Ok (near_count, medium_count, far_count + 1)
       else Ok counts
     else Ok counts)
    counts.

Definition zone_counts (env : Traci) (vehicle_ids : list string) : Z * Z * Z :=
  List.fold_left (count_vehicle env) vehicle_ids (0, 0, 0).

Definition measured (counts : Z * Z * Z) : Detection :=
  let '(near_count, medium_count, far_count) := counts in
  {| vehicles_near := near_count; vehicles_medium := medium_count;
     vehicles_far := far_count;
     total_queue_length := near_count + medium_count + far_count |}.

Definition measure_queue_length (env : Traci) (step : Z)
    (c : SimulationController Detection)
  : result (SimulationController Detection) :=
  for_each INTERSECTIONS
    (fun '(idx, data) c =>
       let vehicle_ids := vehicle_ids_of env (edge data) in
       let counts := zone_counts env vehicle_ids in
       with_inter idx (fun inter => set_det (measured counts) inter) c)
    c.

(** The body of [get_priority]. *)
Definition priority_of (inter : IntersectionState Detection) (step : Z) : Q :=
  let queue_priority :=
    (inject_Z (vehicles_near (det inter)) * WEIGHT_NEAR zc
     + inject_Z (vehicles_medium (det inter)) * WEIGHT_MEDIUM zc
     + inject_Z (vehicles_far (det inter)) * WEIGHT_FAR zc)%Q in
  let wait_bonus :=
    py_min (inject_Z (step - last_green_end inter) / 60) 2 in
  let monopoly_penalty := (inject_Z (consecutive_greens inter) * 17)%Q in
  let total_priority := (queue_priority + wait_bonus - monopoly_penalty)%Q in
  let total_priority := py_max total_priority (1 # 10) in
  total_priority.
End Sensing.

Definition get_priority (zc : ZoneConfig) := Arbiter.get_priority (priority_of zc).
Definition find_winner (zc : ZoneConfig) := Arbiter.find_winner (priority_of zc).
Definition calculate_green_time (cfg : Timing) :=
  Arbiter.calculate_green_time cfg (15 # 10).
Definition control (cfg : Timing) (zc : ZoneConfig) :=
  Arbiter.control (D := Detection) cfg (priority_of zc) (15 # 10).
Definition run_step (cfg : Timing) (zc : ZoneConfig) :=
  Arbiter.run_step cfg (measure_queue_length zc) (priority_of zc) (15 # 10).
Definition main_loop (cfg : Timing) (zc : ZoneConfig) :=
  Arbiter.main_loop cfg (measure_queue_length zc) (priority_of zc) (15 # 10).

(** [SimulationController()]: the constructor reads no constant. *)
Definition init (cfg : Timing) (zc : ZoneConfig) (tl0 : list ascii)
  : result (SimulationController Detection) :=
  Ok (new_controller no_detection tl0).

(** [main], up to its reports: construct the controller, then tick from
    step 0. *)
Definition main (cfg : Timing) (zc : ZoneConfig) (tl0 : list ascii)
    (envs : list Traci) : result (SimulationController Detection) :=
  let? controller := init cfg zc tl0 in
  main_loop cfg zc envs 0 controller.

End QueueBased.

(* ===================================================================== *)
(** ** Vocabulary of the properties *)
(* ===================================================================== *)

(** The dict [intersections] holds the three approaches of [range(3)]. *)
Definition well_formed {D} (c : SimulationController D) : Prop :=
  forall i : Z, 0 <= i <= 2 -> is_Some (intersections c !! i).

(** The values [current_light] takes: ['RED'] at construction, then the
    upper-cased command letter. *)
Definition is_red (light : string) : bool :=
  (String.eqb light "RED" || String.eqb light "R")%bool.
Definition is_green (light : string) : bool := String.eqb light "G".
Definition is_yellow (light : string) : bool := String.eqb light "Y".
Definition has_right_of_way (light : string) : bool :=
  (is_green light || is_yellow light)%bool.

(** What winner selection writes into the winner's record and into the
    records of the other approaches. *)
Definition granted {D} (cfg : Timing) (priority_of : IntersectionState D -> Z -> Q)
    (scaling_factor : Q) (step : Z) (st : IntersectionState D)
  : IntersectionState D :=
  let st := set_state_start step st in
  let st := set_consecutive_greens (consecutive_greens st + 1) st in
  let st :=
    set_planned_duration
      (Arbiter.calculate_green_time cfg scaling_factor (priority_of st step)) st in
  set_current_light "G" st.

Definition denied {D} (st : IntersectionState D) : IntersectionState D :=
  set_consecutive_greens 0 (set_current_light "R" st).

(** What the end of GREEN and the end of YELLOW write into the active
    approach's record. *)
Definition to_yellow {D} (step : Z) (st : IntersectionState D) : IntersectionState D :=
  set_state_start step (set_current_light "Y" st).

Definition to_red {D} (step : Z) (st : IntersectionState D) : IntersectionState D :=
  set_last_green_end step (set_current_light "R" st).

(** An approach's record without its detection fields. *)
Definition control_view {D} (st : IntersectionState D) : IntersectionState unit :=
  mkInter (id st) tt (current_light st) (last_green_end st) (state_start st)
          (planned_duration st) (consecutive_greens st).

(** Two controllers that differ at most in detection fields and metrics. *)
Definition same_control {D} (c c' : SimulationController D) : Prop :=
  active_idx c' = active_idx c /\
  is_all_red c' = is_all_red c /\
  all_red_start c' = all_red_start c /\
  cycle_count c' = cycle_count c /\
  tl_center c' = tl_center c /\
  forall i, control_view <$> intersections c' !! i
            = control_view <$> intersections c !! i.

(** Two controllers that differ at most in the two metrics counters. *)
Definition same_but_metrics {D} (c c' : SimulationController D) : Prop :=
  intersections c' = intersections c /\ same_control c c'.

(** The invariant of the state machine, for any timing constants: three
    approaches; in the gap exactly when no approach is active; every
    approach but the active one shows RED; the active one shows GREEN or
    YELLOW; the planned duration of a GREEN approach is a value of
    [calculate_green_time]. *)
Definition arbitration_invariant {D} (cfg : Timing) (scaling_factor : Q)
    (c : SimulationController D) : Prop :=
  (forall i, is_Some (intersections c !! i) <-> 0 <= i <= 2) /\
  (is_all_red c = true <-> active_idx c = -1) /\
  (active_idx c = -1 \/ 0 <= active_idx c <= 2) /\
  (forall i st, intersections c !! i = Some st -> i <> active_idx c ->
                is_red (current_light st) = true) /\
  (forall st, intersections c !! active_idx c = Some st ->
              has_right_of_way (current_light st) = true) /\
  (forall i st, intersections c !! i = Some st ->
                is_green (current_light st) = true ->
                exists priority,
                  planned_duration st
                  = Arbiter.calculate_green_time cfg scaling_factor priority).

(** The three signals, in index order. *)
Definition signals {D} (c : SimulationController D) : list string :=
  omap (fun i => current_light <$> intersections c !! i) range3.

(** At most one signal is GREEN or YELLOW and every other one is RED. *)
Definition mutual_exclusion (lights : list string) : bool :=
  ((length (List.filter has_right_of_way lights) <=? 1)%nat
   && forallb (fun l => is_red l || has_right_of_way l) lights)%bool.

(** The planned duration of every approach that is GREEN before and after. *)
Definition green_frozen {D} (c c' : SimulationController D) : Prop :=
  forall i st st',
    intersections c !! i = Some st ->
    intersections c' !! i = Some st' ->
    is_green (current_light st) = true ->
    is_green (current_light st') = true ->
    planned_duration st' = planned_duration st.

(* ===================================================================== *)
(** ** Sample inputs *)
(* ===================================================================== *)

(** A six-head program string, all red. *)
Definition all_red_program : list ascii := list_ascii_of_string "rrrrrr".

(** A TraCI state with the given vehicles [(id, edge, distance to the stop
    line, speed)] on lanes of 200 m; every query succeeds. *)
Definition traffic (vehicles : list (string * string * Q * Q)) : Traci :=
  let lookup veh_id :=
    List.find (fun v => String.eqb (fst (fst (fst v))) veh_id) vehicles in
  {| edge_getLastStepVehicleIDs := fun e =>
       Ok (List.map (fun v => fst (fst (fst v)))
             (List.filter (fun v => String.eqb (snd (fst (fst v))) e) vehicles));
     vehicle_getLanePosition := fun veh_id =>
       match lookup veh_id with
       | Some v => Ok (200 - snd (fst v))%Q
       | None => Raise TraCIException
       end;
     vehicle_getLaneID := fun veh_id =>
       match lookup veh_id with
       | Some v => Ok (String.append (snd (fst (fst v))) "_0")
       | None => Raise TraCIException
       end;
     lane_getLength := fun _ => Ok 200%Q;
     vehicle_getSpeed := fun veh_id =>
       match lookup veh_id with
       | Some v => Ok (snd v)
       | None => Raise TraCIException
       end;
     simulation_getArrivedIDList := Ok [] |}.

(** No vehicle anywhere. *)
Definition empty_roads : Traci := traffic [].

(** One vehicle standing 10 m before the stop line of R1. *)
Definition waiting_at_r1 : Traci := traffic [("veh0", "r1_in", 10, 0)%Q].

(** The TraCI state [env] with one more vehicle listed on [edge_id], standing,
    whose position and lane queries fail. *)
Definition with_unreadable (veh_id edge_id : string) (env : Traci) : Traci :=
  {| edge_getLastStepVehicleIDs := fun e =>
       if String.eqb e edge_id
       then let? ids := edge_getLastStepVehicleIDs env e in Ok (veh_id :: ids)
       else edge_getLastStepVehicleIDs env e;
     vehicle_getLanePosition := fun v =>
       if String.eqb v veh_id then Raise TraCIException
       else vehicle_getLanePosition env v;
     vehicle_getLaneID := fun v =>
       if String.eqb v veh_id then Raise TraCIException
       else vehicle_getLaneID env v;
     lane_getLength := lane_getLength env;
     vehicle_getSpeed := fun v =>
       if String.eqb v veh_id then Ok 0%Q else vehicle_getSpeed env v;
     simulation_getArrivedIDList := simulation_getArrivedIDList env |}.

(** The TraCI state [env] with the vehicle-list query of [edge_id] failing. *)
Definition with_edge_down (edge_id : string) (env : Traci) : Traci :=
  {| edge_getLastStepVehicleIDs := fun e =>
       if String.eqb e edge_id then Raise TraCIException
       else edge_getLastStepVehicleIDs env e;
     vehicle_getLanePosition := vehicle_getLanePosition env;
     vehicle_getLaneID := vehicle_getLaneID env;
     lane_getLength := lane_getLength env;
     vehicle_getSpeed := vehicle_getSpeed env;
     simulation_getArrivedIDList := simulation_getArrivedIDList env |}.

(** One vehicle standing 150 m before the stop line of R1. *)
Definition waiting_far_from_r1 : Traci := traffic [("veh0", "r1_in", 150, 0)%Q].

(** The detection fields of approach [idx] at the end of a run. *)
Definition detection_of {D} (r : result (SimulationController D)) (idx : Z)
  : option D :=
  match r with
  | Ok c => det <$> intersections c !! idx
  | Raise _ => None
  end.

(* ===================================================================== *)
(** ** Vocabulary of the binary sensing *)
(* ===================================================================== *)

(** The persistence block replayed on a sequence of candidates, one per
    tick from [step] on. *)
Fixpoint persistence_run (sc : Binary.SensorConfig) (candidates : list bool)
    (step detect_time : Z) (occupied : bool) : Z * bool :=
  match candidates with
  | [] => (detect_time, occupied)
  | detected_now :: rest =>
      let r := Binary.persistence sc detected_now step detect_time in
      persistence_run sc rest (step + 1) (fst r) (snd r)
  end.

(** Near implies far, for the candidates of a tick and for the timers and
    flags of an approach; [step] bounds the far timer's origin. *)
Definition near_within_far (step : Z) (d : Binary.Detection) : Prop :=
  Binary.far_detect_time d <= step /\
  (Binary.near_detect_time d <> 0 ->
   Binary.far_detect_time d <> 0 /\
   Binary.far_detect_time d <= Binary.near_detect_time d) /\
  (Binary.near_sensor_occupied d = true -> Binary.far_sensor_occupied d = true).

(* ===================================================================== *)
(** ** Vocabulary of the queue measurement *)
(* ===================================================================== *)

(** A vehicle whose readings succeed, slower than 2.0 m/s, at a distance in
    the interval (lo, hi] (or up to [hi] when there is no lower bound). *)
Definition queued_between (env : Traci) (lo : option Q) (hi : Q) (veh_id : string)
  : bool :=
  match read_vehicle env veh_id with
  | Ok (dist, speed) =>
      (Qltb speed 2
       && match lo with Some l => Qltb l dist | None => true end
       && Qleb dist hi)%bool
  | Raise _ => false
  end.

(** How many elements of a list pass a test. *)
Definition count_of {A} (test : A -> bool) (xs : list A) : Z :=
  Z.of_nat (length (List.filter test xs)).

(** The vehicles of a list whose readings succeed. *)
Definition readable (env : Traci) (vehicle_ids : list string) : list string :=
  List.filter (fun v => is_ok (read_vehicle env v)) vehicle_ids.

(* ===================================================================== *)
(** ** Vocabulary of configuration validity *)
(* ===================================================================== *)

(** From the spec's words (error taxonomy, ConfigurationError): a
    configuration is invalid when [G_MIN > G_MAX] or a radius is negative. *)
Definition valid_timing (cfg : Timing) : bool := Qleb (G_MIN cfg) (G_MAX cfg).

Definition valid_radii (sc : Binary.SensorConfig) : bool :=
  (Qleb 0 (Binary.NEAR_SENSOR_DISTANCE sc)
   && Qleb 0 (Binary.FAR_SENSOR_DISTANCE sc))%bool.

Definition valid_zones (zc : QueueBased.ZoneConfig) : bool :=
  (Qleb 0 (QueueBased.ZONE_NEAR zc) && Qleb 0 (QueueBased.ZONE_MEDIUM zc)
   && Qleb 0 (QueueBased.ZONE_FAR zc))%bool.

(** Constants with [G_MIN > G_MAX], and negative radii. *)
Definition inverted_timing : Timing :=
  {| G_MIN := 50; G_MAX := 40; YELLOW_TIME := 3; ALL_RED_TIME := 1 |}.

Definition negative_radii : Binary.SensorConfig :=
  {| Binary.NEAR_SENSOR_DISTANCE := -20; Binary.FAR_SENSOR_DISTANCE := 50;
     Binary.SENSOR_DELAY := 10 |}.

Definition negative_zones : QueueBased.ZoneConfig :=
  {| QueueBased.ZONE_NEAR := -25; QueueBased.ZONE_MEDIUM := 60;
     QueueBased.ZONE_FAR := 100; QueueBased.WEIGHT_NEAR := 3;
     QueueBased.WEIGHT_MEDIUM := 2; QueueBased.WEIGHT_FAR := 1 |}.

(** The planned duration of approach [idx] at the end of a run. *)
Definition planned_of {D} (r : result (SimulationController D)) (idx : Z)
  : option Q :=
  match r with
  | Ok c => planned_duration <$> intersections c !! idx
  | Raise _ => None
  end.

(** Five vehicles on R1: three queued in the three zones, one queued beyond
    100 m, one close but moving at 3 m/s. *)
Definition queue_at_r1 : Traci :=
  traffic [("a", "r1_in", 10, 0)%Q; ("b", "r1_in", 40, 1)%Q;
           ("c", "r1_in", 80, 0)%Q; ("d", "r1_in", 150, 0)%Q;
           ("e", "r1_in", 5, 3)%Q].

(** R1 with the standing vehicle and one more vehicle whose position cannot
    be read. *)
Definition ghost_at_r1 : Traci := with_unreadable "ghost" "r1_in" waiting_at_r1.

(** R1 with the standing vehicle, the vehicle list of R1 failing. *)
Definition r1_feed_down : Traci := with_edge_down "r1_in" waiting_at_r1.

(** The queries of the two metrics loops of [run_step] all succeed. *)
Definition metrics_available (env : Traci) : Prop :=
  is_ok (simulation_getArrivedIDList env) = true /\
  forall idx data, In (idx, data) INTERSECTIONS ->
    exists ids, edge_getLastStepVehicleIDs env (edge data) = Ok ids /\
                forall v, In v ids -> is_ok (vehicle_getSpeed env v) = true.

(* ===================================================================== *)
(** ** Vocabulary of the actuation *)
(* ===================================================================== *)

(** The letter [set_traffic_light] writes into the program string for the
    value it then records in [current_light]; ['RED'], the value at
    construction, corresponds to no command. *)
Definition command_letter (light : string) : option ascii :=
  if String.eqb light "R" then Some "r"%char
  else if String.eqb light "G" then Some "G"%char
  else if String.eqb light "Y" then Some "y"%char
  else None.

(** The signal heads of every approach that has received a command show the
    letter of its recorded light. *)
Definition heads_follow {D} (c : SimulationController D) : Prop :=
  forall i data st link letter,
    INTERSECTIONS_at i = Ok data ->
    intersections c !! i = Some st ->
    In link (tl_links data) ->
    command_letter (current_light st) = Some letter ->
    tl_center c !! link = Some letter.

(** The signal heads of an approach that never received a command, and the
    heads that belong to no approach, are those of the program [tl0]. *)
Definition heads_untouched {D} (tl0 : list ascii) (c : SimulationController D)
  : Prop :=
  (forall i data st link,
      INTERSECTIONS_at i = Ok data ->
      intersections c !! i = Some st ->
      In link (tl_links data) ->
      current_light st = "RED"%string ->
      tl_center c !! link = tl0 !! link) /\
  (forall link, (6 <= link)%nat -> tl_center c !! link = tl0 !! link).

(** A property of the controller kept by a step that returns. *)
Definition preserved_by {D} (P : SimulationController D -> Prop)
    (m : SimulationController D -> result (SimulationController D)) : Prop :=
  forall c c', m c = Ok c' -> P c -> P c'.

(** The program string keeps its length and agrees with the controller. *)
Definition actuated {D} (tl0 : list ascii) (c : SimulationController D) : Prop :=
  length (tl_center c) = length tl0 /\ heads_follow c /\ heads_untouched tl0 c.

(* ===================================================================== *)
(** ** Vocabulary of the metrics *)
(* ===================================================================== *)

(** The vehicles listed on an edge whose speed reads below 0.1 m/s. *)
Definition standing (env : Traci) (edge_id : string) : Z :=
  count_of (fun veh_id =>
              match vehicle_getSpeed env veh_id with
              | Ok speed => Qltb speed (1 # 10)
              | Raise _ => false
              end)
           (vehicle_ids_of env edge_id).

(** The vehicles that arrived during the last simulation step. *)
Definition arrived (env : Traci) : Z :=
  Z.of_nat (length (try_except (simulation_getArrivedIDList env) [])).

(** The two metrics counters hold the given values. *)
Definition metrics_are {D} (waiting processed : Z) (c : SimulationController D)
  : Prop :=
  total_waiting_time c = waiting /\ vehicles_processed c = processed.

(* ===================================================================== *)
(** ** Vocabulary of the bookkeeping *)
(* ===================================================================== *)

(** The consecutive-green counts: never negative, at most one of them
    non-zero, and at least one for the active approach. *)
Definition greens_accounted {D} (c : SimulationController D) : Prop :=
  (forall i st, intersections c !! i = Some st -> 0 <= consecutive_greens st) /\
  (forall i j si sj,
      intersections c !! i = Some si -> intersections c !! j = Some sj ->
      i <> j -> consecutive_greens si = 0 \/ consecutive_greens sj = 0) /\
  (forall st, intersections c !! active_idx c = Some st ->
              1 <= consecutive_greens st).

(** No approach holds a planned duration above [cap]. *)
Definition planned_at_most {D} (cap : Q) (c : SimulationController D) : Prop :=
  forall i st, intersections c !! i = Some st -> (planned_duration st <= cap)%Q.

(* ===================================================================== *)
(** ** Vocabulary of the service order *)
(* ===================================================================== *)

(** The timing facts the binary controller keeps before tick [step]: an
    approach is served at most once in a row, the approach served last ended
    its green when the gap started, and every other approach ended its own
    at least a minimum green and a yellow earlier. *)
Definition served_in_turn (step : Z) (c : SimulationController Binary.Detection)
  : Prop :=
  (forall i st, intersections c !! i = Some st ->
     consecutive_greens st = 0 \/ consecutive_greens st = 1) /\
  (is_all_red c = true ->
   step <= all_red_start c + 1 /\
   (forall i st, intersections c !! i = Some st ->
      last_green_end st <= all_red_start c) /\
   (forall i j si sj,
      intersections c !! i = Some si -> intersections c !! j = Some sj ->
      i <> j -> consecutive_greens si = 1 ->
      consecutive_greens sj = 0 /\
      last_green_end si = all_red_start c /\
      last_green_end sj + 14 <= all_red_start c)) /\
  (is_all_red c = false ->
   forall sa, intersections c !! active_idx c = Some sa ->
     consecutive_greens sa = 1 /\
     forall i st, intersections c !! i = Some st -> i <> active_idx c ->
       consecutive_greens st = 0 /\
       last_green_end st + (if is_green (current_light sa) then 1 else 11)
       <= state_start sa).

(** Six vehicles standing within 25 m of the stop line of R1. *)
Definition platoon_at_r1 : Traci :=
  traffic [("veh0", "r1_in", 5, 0)%Q; ("veh1", "r1_in", 8, 0)%Q;
           ("veh2", "r1_in", 11, 0)%Q; ("veh3", "r1_in", 14, 0)%Q;
           ("veh4", "r1_in", 17, 0)%Q; ("veh5", "r1_in", 20, 0)%Q].

(** What a persistence timer of the binary sensing records after the ticks
    of [envs]: a running timer started at a tick from 1 on and the candidate
    [cand] has held at every tick since; a set flag means the timer has run
    for the whole [delay]. *)
Definition timer_sound (delay : Z) (cand : Traci -> bool) (envs : list Traci)
    (detect_time : Z) (occupied : bool) : Prop :=
  let last := Z.of_nat (length envs) - 1 in
  (detect_time = 0 \/
   (1 <= detect_time <= last /\
    forall t env, detect_time <= t <= last ->
                  envs !! Z.to_nat t = Some env -> cand env = true)) /\
  (occupied = true -> detect_time <> 0 /\ detect_time + delay <= last).

(** Where the controller stands in its cycle before tick [step], with the
    script's constants: a cycle takes at least 14 ticks (gap, minimum green,
    yellow) and at most 44 (gap, maximum green, yellow), and the phase in
    progress has not outlasted its length. *)
Definition on_schedule {D} (step : Z) (c : SimulationController D) : Prop :=
  (is_all_red c = true ->
   14 * cycle_count c <= all_red_start c <= 44 * cycle_count c /\
   all_red_start c <= step <= all_red_start c + 1) /\
  (is_all_red c = false ->
   forall sa, intersections c !! active_idx c = Some sa ->
     (is_green (current_light sa) = true ->
      14 * cycle_count c + 1 <= state_start sa <= 44 * cycle_count c + 1 /\
      state_start sa < step /\
      (inject_Z (step - 1 - state_start sa) < planned_duration sa)%Q) /\
     (is_yellow (current_light sa) = true ->
      14 * cycle_count c + 11 <= state_start sa <= 44 * cycle_count c + 41 /\
      state_start sa < step <= state_start sa + 3)).

(** The changes of an approach's recorded light that one tick may make:
    none, RED to GREEN, GREEN to YELLOW, YELLOW to RED, and the first
    command of an approach that loses the first selection. *)
Definition next_light (light light' : string) : Prop :=
  light' = light \/
  (is_red light = true /\ light' = "G"%string) \/
  (light = "G"%string /\ light' = "Y"%string) \/
  (light = "Y"%string /\ light' = "R"%string) \/
  (light = "RED"%string /\ light' = "R"%string).

(** Every approach has received a command: none still shows the ['RED'] of
    the constructor. *)
Definition commanded {D} (c : SimulationController D) : Prop :=
  forall i st, intersections c !! i = Some st ->
               current_light st <> "RED"%string.

(* ===================================================================== *)
(** * Properties *)
(* ===================================================================== *)

(** ** Comparisons, [min], [max] and rounding *)

Lemma Qltb_lt (a b : Q) : Qltb a b = true <-> (a < b)%Q.
Proof.
  unfold Qltb. rewrite Qlt_alt. destruct (a ?= b)%Q; split; congruence.
Qed.

Lemma Qltb_ge (a b : Q) : Qltb a b = false <-> (b <= a)%Q.
Proof.
  split.
  - intros H. apply Qnot_lt_le. intros Hlt. apply Qltb_lt in Hlt. congruence.
  - intros H. destruct (Qltb a b) eqn:E; [|reflexivity].
    apply Qltb_lt in E. exfalso. exact (Qle_not_lt _ _ H E).
Qed.

Lemma Qleb_le (a b : Q) : Qleb a b = true <-> (a <= b)%Q.
Proof.
  unfold Qleb. rewrite Qle_alt. destruct (a ?= b)%Q; split; congruence.
Qed.

Lemma py_max_floor (a b : Q) : (b <= py_max a b)%Q.
Proof.
  unfold py_max. destruct (Qltb a b) eqn:E.
  - apply Qle_refl.
  - now apply Qltb_ge.
Qed.

Lemma py_max_left (a b : Q) : (a <= py_max a b)%Q.
Proof.
  unfold py_max. destruct (Qltb a b) eqn:E.
  - apply Qlt_le_weak. now apply Qltb_lt.
  - apply Qle_refl.
Qed.

Lemma py_min_cap (a b : Q) : (py_min a b <= b)%Q.
Proof.
  unfold py_min. destruct (Qltb b a) eqn:E.
  - apply Qle_refl.
  - now apply Qltb_ge.
Qed.

Lemma py_min_left (a b : Q) : (py_min a b <= a)%Q.
Proof.
  unfold py_min. destruct (Qltb b a) eqn:E.
  - apply Qlt_le_weak. now apply Qltb_lt.
  - apply Qle_refl.
Qed.

Lemma py_min_glb (a b x : Q) : (x <= a)%Q -> (x <= b)%Q -> (x <= py_min a b)%Q.
Proof. intros Ha Hb. unfold py_min. now destruct (Qltb b a). Qed.

Lemma py_max_lub (a b x : Q) : (a <= x)%Q -> (b <= x)%Q -> (py_max a b <= x)%Q.
Proof. intros Ha Hb. unfold py_max. now destruct (Qltb a b). Qed.

Lemma py_min_mono (a a' b : Q) : (a <= a')%Q -> (py_min a b <= py_min a' b)%Q.
Proof.
  intros H. apply py_min_glb.
  - eapply Qle_trans; [apply py_min_left | exact H].
  - apply py_min_cap.
Qed.

Lemma py_max_mono (a a' b : Q) : (a <= a')%Q -> (py_max a b <= py_max a' b)%Q.
Proof.
  intros H. apply py_max_lub.
  - eapply Qle_trans; [exact H | apply py_max_left].
  - apply py_max_floor.
Qed.

(** Clamping lands in the interval as soon as the interval is not empty. *)
Lemma clamp_bounds (x lo hi : Q) :
  (lo <= hi)%Q -> (lo <= py_min (py_max x lo) hi <= hi)%Q.
Proof.
  intros H. split.
  - apply py_min_glb; [apply py_max_floor | exact H].
  - apply py_min_cap.
Qed.

Lemma round_half_even_bounds (x : Q) (lo hi : Z) :
  (inject_Z lo <= x)%Q -> (x <= inject_Z hi)%Q ->
  lo <= round_half_even x <= hi.
Proof.
  intros Hlo Hhi.
  assert (Hf : lo <= Qfloor x).
  { rewrite <- (Qfloor_Z lo). now apply Qfloor_resp_le. }
  assert (Hc : Qfloor x <= hi).
  { rewrite <- (Qfloor_Z hi). now apply Qfloor_resp_le. }
  assert (Hstrict : (inject_Z (Qfloor x) < x)%Q -> Qfloor x + 1 <= hi).
  { intros Hlt.
    assert (Hfh : (inject_Z (Qfloor x) < inject_Z hi)%Q)
      by (eapply Qlt_le_trans; eauto).
    rewrite <- Zlt_Qlt in Hfh. lia. }
  assert (Hpos : forall d : Q, (0 < d)%Q ->
            ((x - inject_Z (Qfloor x)) == d \/ d < x - inject_Z (Qfloor x))%Q ->
            (inject_Z (Qfloor x) < x)%Q).
  { intros d Hd Hx. apply (Qplus_lt_l _ _ (- inject_Z (Qfloor x))).
    rewrite Qplus_opp_r. destruct Hx as [Hx | Hx].
    - unfold Qminus in Hx. rewrite Hx. exact Hd.
    - eapply Qlt_trans; [exact Hd | exact Hx]. }
  unfold round_half_even.
  destruct (x - inject_Z (Qfloor x) ?= 1 # 2)%Q eqn:E.
  - apply Qeq_alt in E. destruct (Z.even (Qfloor x)); [lia|].
    split; [lia|]. apply Hstrict, (Hpos (1 # 2)); [reflexivity | now left].
  - lia.
  - apply Qgt_alt in E.
    split; [lia|]. apply Hstrict, (Hpos (1 # 2)); [reflexivity | now right].
Qed.

Lemma round1_bounds (x : Q) (lo hi : Z) :
  (inject_Z lo <= x)%Q -> (x <= inject_Z hi)%Q ->
  (inject_Z lo <= round1 x <= inject_Z hi)%Q.
Proof.
  intros Hlo Hhi.
  assert (H : lo * 10 <= round_half_even (x * 10) <= hi * 10).
  { apply round_half_even_bounds.
    - rewrite inject_Z_mult. apply Qmult_le_compat_r; [exact Hlo | discriminate].
    - rewrite inject_Z_mult. apply Qmult_le_compat_r; [exact Hhi | discriminate]. }
  unfold round1, Qle, inject_Z. simpl. lia.
Qed.

(** ** The priority score *)

Lemma wait_bonus_mono (last t1 t2 : Z) (d cap : Q) :
  (0 < d)%Q -> t1 <= t2 ->
  (py_min (inject_Z (t1 - last) / d) cap <= py_min (inject_Z (t2 - last) / d) cap)%Q.
Proof.
  intros Hd Ht. apply py_min_mono. unfold Qdiv.
  apply Qmult_le_compat_r.
  - rewrite <- Zle_Qle. lia.
  - apply Qlt_le_weak, Qinv_lt_0_compat, Hd.
Qed.

Lemma binary_priority_floor (inter : IntersectionState Binary.Detection) (step : Z) :
  (1 # 10 <= Binary.priority_of inter step)%Q.
Proof. unfold Binary.priority_of. apply py_max_floor. Qed.

Lemma queue_priority_floor zc (inter : IntersectionState QueueBased.Detection)
    (step : Z) :
  (1 # 10 <= QueueBased.priority_of zc inter step)%Q.
Proof. unfold QueueBased.priority_of. apply py_max_floor. Qed.

Lemma binary_priority_mono (inter : IntersectionState Binary.Detection) (t1 t2 : Z) :
  t1 <= t2 ->
  (Binary.priority_of inter t1 <= Binary.priority_of inter t2)%Q.
Proof.
  intros Ht. unfold Binary.priority_of.
  apply py_max_mono. unfold Qminus.
  apply Qplus_le_compat; [|apply Qle_refl].
  apply Qplus_le_compat; [apply Qle_refl|].
  apply wait_bonus_mono; [reflexivity | exact Ht].
Qed.

Lemma queue_priority_mono zc (inter : IntersectionState QueueBased.Detection)
    (t1 t2 : Z) :
  t1 <= t2 ->
  (QueueBased.priority_of zc inter t1 <= QueueBased.priority_of zc inter t2)%Q.
Proof.
  intros Ht. unfold QueueBased.priority_of.
  apply py_max_mono. unfold Qminus.
  apply Qplus_le_compat; [|apply Qle_refl].
  apply Qplus_le_compat; [apply Qle_refl|].
  apply wait_bonus_mono; [reflexivity | exact Ht].
Qed.

Lemma get_priority_spec {D} (priority_of : IntersectionState D -> Z -> Q)
    (c : SimulationController D) (idx step : Z) :
  Arbiter.get_priority priority_of c idx step =
  match intersections c !! idx with
  | Some inter => Ok (priority_of inter step)
  | None => Raise KeyError
  end.
Proof.
  unfold Arbiter.get_priority, get_inter.
  now destruct (intersections c !! idx).
Qed.

(** C2 (score floor).  In both variants [get_priority] returns a score of at
    least 0.1 for every approach of the controller, at every tick and
    whatever the detection fields, the last-green-end tick and the
    consecutive-green count hold; it raises only for an index that is not an
    approach of the controller. *)
Theorem score_floor :
  (forall (c : SimulationController Binary.Detection) (idx step : Z),
      match Binary.get_priority c idx step with
      | Ok p => (1 # 10 <= p)%Q
      | Raise _ => intersections c !! idx = None
      end) /\
  (forall zc (c : SimulationController QueueBased.Detection) (idx step : Z),
      match QueueBased.get_priority zc c idx step with
      | Ok p => (1 # 10 <= p)%Q
      | Raise _ => intersections c !! idx = None
      end).
Proof.
  split; intros.
  - unfold Binary.get_priority. rewrite get_priority_spec.
    destruct (intersections c !! idx); [apply binary_priority_floor | reflexivity].
  - unfold QueueBased.get_priority. rewrite get_priority_spec.
    destruct (intersections c !! idx); [apply queue_priority_floor | reflexivity].
Qed.

(** C7 (starvation monotonicity).  With the approach's record unchanged
    (same detection fields, same consecutive-green count, same last-green-end
    tick), the score at a later tick is at least the score at an earlier
    tick, in both variants. *)
Theorem starvation_monotone
    (cb : SimulationController Binary.Detection)
    (zc : QueueBased.ZoneConfig)
    (cq : SimulationController QueueBased.Detection)
    (idx t1 t2 : Z) :
  t1 < t2 ->
  match Binary.get_priority cb idx t1, Binary.get_priority cb idx t2 with
  | Ok p1, Ok p2 => (p1 <= p2)%Q
  | Raise _, Raise _ => intersections cb !! idx = None
  | _, _ => False
  end /\
  match QueueBased.get_priority zc cq idx t1, QueueBased.get_priority zc cq idx t2 with
  | Ok p1, Ok p2 => (p1 <= p2)%Q
  | Raise _, Raise _ => intersections cq !! idx = None
  | _, _ => False
  end.
Proof.
  intros Ht. split.
  - unfold Binary.get_priority. rewrite !get_priority_spec.
    destruct (intersections cb !! idx); [|reflexivity].
    apply binary_priority_mono. lia.
  - unfold QueueBased.get_priority. rewrite !get_priority_spec.
    destruct (intersections cq !! idx); [|reflexivity].
    apply queue_priority_mono. lia.
Qed.

(** ** Winner selection *)

Section WinnerScan.
Context {D : Type}.
Variable priority_of : IntersectionState D -> Z -> Q.
Hypothesis priority_floor :
  forall inter step, (1 # 10 <= priority_of inter step)%Q.

Local Abbreviation find_winner := (Arbiter.find_winner priority_of).
Local Abbreviation get_priority := (Arbiter.get_priority priority_of).

(** The scan on a well-formed controller, unfolded: three comparisons. *)
Lemma find_winner_unfold (c : SimulationController D) (step : Z) s0 s1 s2 :
  intersections c !! 0 = Some s0 ->
  intersections c !! 1 = Some s1 ->
  intersections c !! 2 = Some s2 ->
  find_winner c step =
  Ok (let p0 := priority_of s0 step in
      let p1 := priority_of s1 step in
      let p2 := priority_of s2 step in
      let b0 := if Qltb (-1) p0 then (0, p0) else (-1, (-1)%Q) in
      let b1 := if Qltb (snd b0) p1 then (1, p1) else b0 in
      if Qltb (snd b1) p2 then (2, p2) else b1).
Proof.
  intros H0 H1 H2. unfold Arbiter.find_winner, range3. cbn [for_each].
  rewrite !get_priority_spec, H0, H1, H2. cbn [rbind].
  destruct (Qltb (-1) (priority_of s0 step)); cbn [rbind snd];
    destruct (Qltb _ (priority_of s1 step)); cbn [rbind snd];
    destruct (Qltb _ (priority_of s2 step)); reflexivity.
Qed.

Lemma find_winner_total (c : SimulationController D) (step : Z) :
  well_formed c ->
  exists w top,
    find_winner c step = Ok (w, top) /\
    0 <= w <= 2 /\
    get_priority c w step = Ok top /\
    forall j p, 0 <= j <= 2 -> get_priority c j step = Ok p ->
                (p <= top)%Q /\ ((p == top)%Q -> w <= j).
Proof.
  intros Hwf.
  destruct (Hwf 0 ltac:(lia)) as [s0 H0].
  destruct (Hwf 1 ltac:(lia)) as [s1 H1].
  destruct (Hwf 2 ltac:(lia)) as [s2 H2].
  rewrite (find_winner_unfold c step s0 s1 s2 H0 H1 H2).
  pose proof (priority_floor s0 step) as F0.
  pose proof (priority_floor s1 step) as F1.
  pose proof (priority_floor s2 step) as F2.
  assert (Hcases : forall j p, 0 <= j <= 2 -> get_priority c j step = Ok p ->
            (j = 0 /\ p = priority_of s0 step) \/
            (j = 1 /\ p = priority_of s1 step) \/
            (j = 2 /\ p = priority_of s2 step)).
  { intros j p Hj Hp. rewrite get_priority_spec in Hp.
    assert (j = 0 \/ j = 1 \/ j = 2) as [-> | [-> | ->]] by lia.
    - rewrite H0 in Hp. left. split; congruence.
    - rewrite H1 in Hp. right; left. split; congruence.
    - rewrite H2 in Hp. right; right. split; congruence. }
  cbv zeta.
  destruct (Qltb (-1) (priority_of s0 step)) eqn:E0.
  2:{ apply Qltb_ge in E0. exfalso.
      apply (Qle_not_lt _ _ (Qle_trans _ _ _ F0 E0)). reflexivity. }
  cbn [snd].
  destruct (Qltb (priority_of s0 step) (priority_of s1 step)) eqn:E1; cbn [snd];
    [ destruct (Qltb (priority_of s1 step) (priority_of s2 step)) eqn:E2
    | destruct (Qltb (priority_of s0 step) (priority_of s2 step)) eqn:E2 ];
    repeat match goal with
           | H : Qltb _ _ = true |- _ => apply Qltb_lt in H
           | H : Qltb _ _ = false |- _ => apply Qltb_ge in H
           end;
    eexists _, _; (split; [reflexivity|]); (split; [lia|]);
    rewrite get_priority_spec, ?H0, ?H1, ?H2; (split; [reflexivity|]);
    intros j p Hj Hp;
    destruct (Hcases j p Hj Hp) as [[-> ->] | [[-> ->] | [-> ->]]];
    (split; [lra | intros Heq; first [lia | exfalso; lra]]).
Qed.
End WinnerScan.

(** ** One tick of the state machine *)

Lemma INTERSECTIONS_at_range (idx : Z) :
  0 <= idx <= 2 -> exists data, INTERSECTIONS_at idx = Ok data.
Proof.
  intros H. assert (idx = 0 \/ idx = 1 \/ idx = 2) as [-> | [-> | ->]] by lia;
    eexists; reflexivity.
Qed.

Section Primitives.
Context {D : Type}.
Implicit Type c : SimulationController D.

Lemma with_inter_eq idx f c st :
  intersections c !! idx = Some st ->
  with_inter idx f c = Ok (set_intersections (<[idx := f st]> (intersections c)) c).
Proof. intros H. unfold with_inter, get_inter. now rewrite H. Qed.

Lemma with_inter_raise idx f c :
  intersections c !! idx = None -> with_inter idx f c = Raise KeyError.
Proof. intros H. unfold with_inter, get_inter. now rewrite H. Qed.

Lemma set_traffic_light_eq idx state c st :
  0 <= idx <= 2 ->
  intersections c !! idx = Some st ->
  exists tl,
    Arbiter.set_traffic_light idx state c =
    Ok (set_intersections
          (<[idx := set_current_light (String (upper state) EmptyString) st]>
             (intersections c))
          (set_tl_center tl c)).
Proof.
  intros Hidx H. unfold Arbiter.set_traffic_light.
  destruct (INTERSECTIONS_at_range idx Hidx) as [data ->]. cbn [rbind].
  eexists. rewrite (with_inter_eq _ _ _ st) by exact H. reflexivity.
Qed.
End Primitives.

(** Projections of a controller after a chain of field updates. *)
Ltac ctl_simpl :=
  cbn [intersections active_idx is_all_red all_red_start cycle_count
       total_waiting_time vehicles_processed tl_center
       set_intersections set_active_idx set_is_all_red set_all_red_start
       set_cycle_count set_total_waiting_time set_vehicles_processed
       set_tl_center] in *.

(** A lookup in the dict after a chain of in-place updates. *)
Ltac dict_lookup :=
  ctl_simpl;
  repeat first [ rewrite lookup_insert_eq
               | rewrite lookup_insert_ne by (clear; intros ?; lia) ];
  first [ eassumption | reflexivity ].

(** Run the next [with_inter] or [set_traffic_light] of the goal. *)
Ltac run_primitive :=
  lazymatch goal with
  | |- context [with_inter ?i ?f ?c] =>
      erewrite (with_inter_eq i f c) by dict_lookup; cbn [rbind]
  | |- context [Arbiter.set_traffic_light ?i ?s ?c] =>
      let tl := fresh "tl" in
      let E := fresh "E" in
      edestruct (set_traffic_light_eq i s c) as [tl E];
      [ | | rewrite E; clear E; cbn [rbind] ];
      [ ctl_simpl; lia | dict_lookup | ]
  end.

Section ControlFacts.
Context {D : Type}.
Variable cfg : Timing.
Variable priority_of : IntersectionState D -> Z -> Q.
Variable scaling_factor : Q.
Hypothesis priority_floor :
  forall inter step, (1 # 10 <= priority_of inter step)%Q.

Implicit Type c : SimulationController D.

Local Abbreviation select_winner :=
  (Arbiter.select_winner cfg priority_of scaling_factor).
Local Abbreviation advance_active := (Arbiter.advance_active (D := D) cfg).
Local Abbreviation control := (Arbiter.control cfg priority_of scaling_factor).

(** Winner selection never fails on a well-formed controller: it grants
    GREEN to the winner of the scan and writes RED to the two others. *)
Lemma select_winner_spec step c :
  well_formed c ->
  exists w top c',
    Arbiter.find_winner priority_of (set_is_all_red false c) step = Ok (w, top) /\
    0 <= w <= 2 /\
    select_winner step c = Ok c' /\
    active_idx c' = w /\
    is_all_red c' = false /\
    all_red_start c' = all_red_start c /\
    cycle_count c' = cycle_count c /\
    (forall i, 0 <= i <= 2 ->
       intersections c' !! i =
       (fun st => if i =? w
                  then granted cfg priority_of scaling_factor step st
                  else denied st) <$> intersections c !! i) /\
    (forall i, ~ 0 <= i <= 2 -> intersections c' !! i = intersections c !! i).
Proof.
  intros Hwf.
  destruct (Hwf 0 ltac:(lia)) as [s0 H0].
  destruct (Hwf 1 ltac:(lia)) as [s1 H1].
  destruct (Hwf 2 ltac:(lia)) as [s2 H2].
  destruct (find_winner_total priority_of priority_floor
              (set_is_all_red false c) step Hwf)
    as (w & top & Hfw & Hw & _).
  exists w, top. unfold Arbiter.select_winner. rewrite Hfw. cbn [rbind].
  assert (w = 0 \/ w = 1 \/ w = 2) as [-> | [-> | ->]] by lia;
    unfold range3; cbn [for_each Z.eqb Pos.eqb rbind];
    repeat run_primitive;
    rewrite get_priority_spec;
    match goal with |- context [intersections ?c !! ?i] =>
      let E := fresh in
      eassert (E : intersections c !! i = Some _) by dict_lookup;
      rewrite E; clear E; cbn [rbind]
    end;
    repeat run_primitive;
    eexists; (split; [reflexivity|]); (split; [lia|]);
    (split; [reflexivity|]); ctl_simpl; repeat (split; [reflexivity|]);
    (split;
     [ intros i Hi;
       assert (i = 0 \/ i = 1 \/ i = 2) as [-> | [-> | ->]] by lia;
       repeat first [ rewrite lookup_insert_eq
                    | rewrite lookup_insert_ne by (clear; intros ?; lia) ];
       rewrite ?H0, ?H1, ?H2; reflexivity
     | intros i Hi;
       repeat rewrite lookup_insert_ne by (clear - Hi; intros ?; lia);
       reflexivity ]).
Qed.
End ControlFacts.

Section AdvanceFacts.
Context {D : Type}.
Variable cfg : Timing.
Implicit Type c : SimulationController D.

(** Outside the gap the tick either leaves the controller as it is, or
    ends GREEN, or ends YELLOW; it touches the active approach only. *)
Lemma advance_active_spec step c st :
  0 <= active_idx c <= 2 ->
  intersections c !! active_idx c = Some st ->
  exists c',
    Arbiter.advance_active cfg step c = Ok c' /\
    (c' = c \/
     (is_green (current_light st) = true /\
      Qleb (planned_duration st) (inject_Z (step - state_start st)) = true /\
      active_idx c' = active_idx c /\
      is_all_red c' = is_all_red c /\
      all_red_start c' = all_red_start c /\
      cycle_count c' = cycle_count c /\
      intersections c' = <[active_idx c := to_yellow step st]> (intersections c)) \/
     (is_yellow (current_light st) = true /\
      Qleb (YELLOW_TIME cfg) (inject_Z (step - state_start st)) = true /\
      active_idx c' = -1 /\
      is_all_red c' = true /\
      all_red_start c' = step /\
      cycle_count c' = cycle_count c + 1 /\
      intersections c' = <[active_idx c := to_red step st]> (intersections c))).
Proof.
  intros Ha Hst. unfold Arbiter.advance_active, get_inter.
  rewrite Hst. cbn [rbind].
  destruct (String.eqb (current_light st) "G") eqn:EG.
  { destruct (Qleb (planned_duration st) _) eqn:EQ; [|eauto].
    repeat run_primitive. eexists. split; [reflexivity|].
    right; left. ctl_simpl. rewrite insert_insert_eq.
    repeat (split; [first [reflexivity | assumption]|]). reflexivity. }
  destruct (String.eqb (current_light st) "Y") eqn:EY; [|eauto].
  destruct (Qleb (YELLOW_TIME cfg) _) eqn:EQ; [|eauto].
  repeat run_primitive. eexists. split; [reflexivity|].
  right; right. ctl_simpl. rewrite insert_insert_eq.
  repeat (split; [first [reflexivity | assumption]|]). reflexivity.
Qed.
End AdvanceFacts.

(** ** The invariant of the state machine *)

Lemma is_red_not_active (l : string) :
  is_red l = true -> has_right_of_way l = false.
Proof.
  unfold is_red, has_right_of_way, is_green, is_yellow. intros H.
  apply orb_true_iff in H as [H | H]; apply String.eqb_eq in H; subst; reflexivity.
Qed.

Lemma is_green_active (l : string) :
  is_green l = true -> has_right_of_way l = true.
Proof. unfold has_right_of_way. now intros ->. Qed.

Lemma calculate_green_time_bounds (scaling_factor priority : Q) :
  (G_MIN timing
   <= Arbiter.calculate_green_time timing scaling_factor priority
   <= G_MAX timing)%Q.
Proof.
  unfold Arbiter.calculate_green_time.
  apply (round1_bounds _ 10 40); apply clamp_bounds; discriminate.
Qed.

Section InvariantFacts.
Context {D : Type}.
Variable cfg : Timing.
Variable priority_of : IntersectionState D -> Z -> Q.
Variable scaling_factor : Q.
Hypothesis priority_floor :
  forall inter step, (1 # 10 <= priority_of inter step)%Q.

Implicit Type c : SimulationController D.

Local Abbreviation control := (Arbiter.control cfg priority_of scaling_factor).
Local Abbreviation invariant := (arbitration_invariant cfg scaling_factor).

Lemma invariant_well_formed c : invariant c -> well_formed c.
Proof. intros H j Hj. destruct H as [Hk _]. now apply Hk. Qed.

(** The traffic-light part of a tick always returns on a state that
    satisfies the invariant; it keeps the invariant, keeps every detection
    field, and keeps the planned duration of an approach that stays GREEN. *)
Lemma control_spec step c :
  invariant c ->
  exists c',
    control step c = Ok c' /\
    invariant c' /\
    (forall i, det <$> intersections c' !! i = det <$> intersections c !! i) /\
    (forall i st st',
        intersections c !! i = Some st ->
        intersections c' !! i = Some st' ->
        is_green (current_light st) = true ->
        is_green (current_light st') = true ->
        planned_duration st' = planned_duration st).
Proof.
  intros Hinv.
  pose proof Hinv as (Hk & Hgap & Hact & Hred & Hrow & Hplan).
  assert (Hstay : exists c', Ok c = Ok c' /\ invariant c' /\
            (forall i, det <$> intersections c' !! i = det <$> intersections c !! i) /\
            (forall i st st',
                intersections c !! i = Some st ->
                intersections c' !! i = Some st' ->
                is_green (current_light st) = true ->
                is_green (current_light st') = true ->
                planned_duration st' = planned_duration st)).
  { exists c. split; [reflexivity|]. split; [exact Hinv|].
    split; [reflexivity|]. intros i st st' H1 H2 _ _. congruence. }
  unfold Arbiter.control.
  destruct (is_all_red c) eqn:Egap.
  - (* in the gap *)
    destruct (Qleb _ _); [|exact Hstay].
    destruct (select_winner_spec cfg priority_of scaling_factor
                priority_floor step c (invariant_well_formed c Hinv))
      as (w & top & c' & _ & Hw & Hsel & Ha' & Hg' & _ & _ & Hin & Hout).
    assert (Hidle : active_idx c = -1) by now apply Hgap.
    exists c'. split; [exact Hsel|].
    assert (Hk' : forall i, is_Some (intersections c' !! i) <-> 0 <= i <= 2).
    { intros i. destruct (decide (0 <= i <= 2)) as [Hi | Hi].
      - rewrite (Hin i Hi), fmap_is_Some. apply Hk.
      - rewrite (Hout i Hi). apply Hk. }
    assert (Hlook : forall i st', intersections c' !! i = Some st' ->
              0 <= i <= 2 /\ exists st, intersections c !! i = Some st /\
                st' = if i =? w
                      then granted cfg priority_of scaling_factor step st
                      else denied st).
    { intros i st' H'. assert (Hi : 0 <= i <= 2) by (apply Hk'; eauto).
      split; [exact Hi|]. rewrite (Hin i Hi) in H'.
      destruct (intersections c !! i) as [st|]; [|discriminate].
      exists st. split; [reflexivity|]. now inversion H'. }
    split; [|split].
    + split; [exact Hk'|]. split; [rewrite Hg', Ha'; split; [discriminate | lia]|].
      split; [rewrite Ha'; right; exact Hw|].
      split; [|split].
      * intros i st' H' Hne. destruct (Hlook i st' H') as (Hi & st & _ & ->).
        rewrite Ha' in Hne. destruct (Z.eqb_spec i w); [contradiction|reflexivity].
      * intros st' H'. destruct (Hlook _ st' H') as (Hi & st & _ & ->).
        rewrite Ha', Z.eqb_refl. reflexivity.
      * intros i st' H' Hgreen. destruct (Hlook i st' H') as (Hi & st & _ & ->).
        destruct (i =? w); [|discriminate].
        eexists. reflexivity.
    + intros i. destruct (decide (0 <= i <= 2)) as [Hi | Hi].
      * rewrite (Hin i Hi). destruct (intersections c !! i); [|reflexivity].
        cbn. now destruct (i =? w).
      * now rewrite (Hout i Hi).
    + intros i st st' H1 H2 Hgreen _. exfalso.
      assert (Hne : i <> active_idx c).
      { rewrite Hidle. intros ->.
        assert (0 <= -1 <= 2) by (apply Hk; eauto). lia. }
      pose proof (is_red_not_active _ (Hred i st H1 Hne)) as Hoff.
      rewrite (is_green_active _ Hgreen) in Hoff. discriminate.
  - (* outside the gap *)
    assert (Hbusy : active_idx c <> -1).
    { intros E. apply Hgap in E. congruence. }
    assert (Hrange : 0 <= active_idx c <= 2) by lia.
    destruct (Z.eqb_spec (active_idx c) (-1)) as [|_]; [contradiction|].
    cbn [negb].
    destruct (proj2 (Hk _) Hrange) as [st Hst].
    destruct (advance_active_spec cfg step c st Hrange Hst)
      as (c' & Hadv & [-> | [Hy | Hr]]).
    + rewrite Hadv. exact Hstay.
    + destruct Hy as (Hgreen & _ & Ha' & Hg' & _ & _ & Hm).
      exists c'. split; [exact Hadv|].
      assert (Hlook : forall i st', intersections c' !! i = Some st' ->
                (i = active_idx c /\ st' = to_yellow step st) \/
                (i <> active_idx c /\ intersections c !! i = Some st')).
      { intros i st' H'. rewrite Hm in H'.
        destruct (decide (active_idx c = i)) as [<- | Hne].
        - rewrite lookup_insert_eq in H'. left. split; congruence.
        - rewrite lookup_insert_ne in H' by exact Hne. right. split; congruence. }
      split; [|split].
      * split.
        { intros i. rewrite Hm, lookup_insert_is_Some'. rewrite Hk. lia. }
        split; [rewrite Hg', Ha', Egap; exact Hgap|].
        split; [rewrite Ha'; exact Hact|].
        split; [|split].
        -- intros i st' H' Hne. rewrite Ha' in Hne.
           destruct (Hlook i st' H') as [[? _] | [_ H]]; [contradiction|eauto].
        -- intros st' H'. rewrite Ha' in H'.
           destruct (Hlook _ st' H') as [[_ ->] | [? _]]; [reflexivity|contradiction].
        -- intros i st' H' Hg.
           destruct (Hlook i st' H') as [[_ ->] | [_ H]]; [discriminate|eauto].
      * intros i. rewrite Hm.
        destruct (decide (active_idx c = i)) as [<- | Hne].
        -- now rewrite lookup_insert_eq, Hst.
        -- now rewrite lookup_insert_ne.
      * intros i st1 st' H1 H' _ Hg.
        destruct (Hlook i st' H') as [[_ ->] | [_ H]]; [discriminate|congruence].
    + destruct Hr as (Hyellow & _ & Ha' & Hg' & _ & _ & Hm).
      exists c'. split; [exact Hadv|].
      assert (Hlook : forall i st', intersections c' !! i = Some st' ->
                (i = active_idx c /\ st' = to_red step st) \/
                (i <> active_idx c /\ intersections c !! i = Some st')).
      { intros i st' H'. rewrite Hm in H'.
        destruct (decide (active_idx c = i)) as [<- | Hne].
        - rewrite lookup_insert_eq in H'. left. split; congruence.
        - rewrite lookup_insert_ne in H' by exact Hne. right. split; congruence. }
      split; [|split].
      * split.
        { intros i. rewrite Hm, lookup_insert_is_Some'. rewrite Hk. lia. }
        split; [rewrite Hg', Ha'; split; reflexivity|].
        split; [rewrite Ha'; now left|].
        split; [|split].
        -- intros i st' H' _.
           destruct (Hlook i st' H') as [[_ ->] | [? H]]; [reflexivity|eauto].
        -- intros st' H'. rewrite Ha' in H'. exfalso.
           assert (Hs : is_Some (intersections c' !! (-1))) by eauto.
           rewrite Hm, lookup_insert_is_Some', Hk in Hs. lia.
        -- intros i st' H' Hg.
           destruct (Hlook i st' H') as [[_ ->] | [_ H]]; [discriminate|eauto].
      * intros i. rewrite Hm.
        destruct (decide (active_idx c = i)) as [<- | Hne].
        -- now rewrite lookup_insert_eq, Hst.
        -- now rewrite lookup_insert_ne.
      * intros i st1 st' H1 H' _ Hg.
        destruct (Hlook i st' H') as [[_ ->] | [_ H]]; [discriminate|congruence].
Qed.
End InvariantFacts.

(** ** Sensing and metrics leave the control state alone *)

Lemma rbind_ok {A B} (m : result A) (k : A -> result B) (b : B) :
  rbind m k = Ok b -> exists a, m = Ok a /\ k a = Ok b.
Proof. destruct m; cbn; [eauto | discriminate]. Qed.

Lemma for_each_preserves {A S} (R : S -> S -> Prop) (body : A -> S -> result S) :
  (forall s, R s s) ->
  (forall s1 s2 s3, R s1 s2 -> R s2 s3 -> R s1 s3) ->
  (forall x s s', body x s = Ok s' -> R s s') ->
  forall xs s s', for_each xs body s = Ok s' -> R s s'.
Proof.
  intros Hrefl Htrans Hbody xs.
  induction xs as [|x xs IH]; intros s s' H; cbn in H.
  - inversion H. apply Hrefl.
  - apply rbind_ok in H as (s1 & H1 & H2). eauto.
Qed.

Lemma for_each_total {A S} (P : S -> Prop) (body : A -> S -> result S) :
  (forall x s, P s -> exists s', body x s = Ok s' /\ P s') ->
  forall xs s, P s -> exists s', for_each xs body s = Ok s' /\ P s'.
Proof.
  intros Hbody xs.
  induction xs as [|x xs IH]; intros s Hs; cbn.
  - eauto.
  - destruct (Hbody x s Hs) as (s1 & -> & H1). cbn. now apply IH.
Qed.

Section FrameFacts.
Context {D : Type}.
Implicit Type c : SimulationController D.

Lemma same_control_refl c : same_control c c.
Proof. repeat split. Qed.

Lemma same_control_trans c1 c2 c3 :
  same_control c1 c2 -> same_control c2 c3 -> same_control c1 c3.
Proof.
  intros (A1 & B1 & C1 & D1 & E1 & F1) (A2 & B2 & C2 & D2 & E2 & F2).
  repeat split; congruence.
Qed.

(** Writing detection fields of one approach. *)
Lemma with_inter_set_det idx (g : IntersectionState D -> D) c c' :
  with_inter idx (fun inter => set_det (g inter) inter) c = Ok c' ->
  same_control c c' /\
  forall i, intersections c' !! i
            = if decide (idx = i)
              then (fun inter => set_det (g inter) inter) <$> intersections c !! i
              else intersections c !! i.
Proof.
  unfold with_inter, get_inter. intros H.
  destruct (intersections c !! idx) as [st|] eqn:E; [|discriminate].
  cbn in H. inversion H; subst c'; clear H. ctl_simpl. split.
  - repeat split. intros i. cbn.
    destruct (decide (idx = i)) as [<- | Hne].
    + now rewrite lookup_insert_eq, E.
    + now rewrite lookup_insert_ne.
  - intros i. destruct (decide (idx = i)) as [<- | Hne].
    + now rewrite lookup_insert_eq, E.
    + now rewrite lookup_insert_ne.
Qed.

Lemma with_inter_set_det_total idx (g : IntersectionState D -> D) c :
  well_formed c -> 0 <= idx <= 2 ->
  exists c', with_inter idx (fun inter => set_det (g inter) inter) c = Ok c'
             /\ well_formed c'.
Proof.
  intros Hwf Hidx. destruct (Hwf idx Hidx) as [st Hst].
  rewrite (with_inter_eq _ _ _ st Hst). eexists. split; [reflexivity|].
  intros i Hi. ctl_simpl. rewrite lookup_insert_is_Some'. right. now apply Hwf.
Qed.

Lemma same_but_metrics_trans c1 c2 c3 :
  same_but_metrics c1 c2 -> same_but_metrics c2 c3 -> same_but_metrics c1 c3.
Proof.
  intros [A1 B1] [A2 B2]. split; [congruence|].
  eapply same_control_trans; eassumption.
Qed.

Lemma track_waiting_time_frame env c c' :
  Arbiter.track_waiting_time env c = Ok c' -> same_but_metrics c c'.
Proof.
  unfold Arbiter.track_waiting_time.
  apply (for_each_preserves same_but_metrics).
  - intros s. split; [reflexivity | apply same_control_refl].
  - apply same_but_metrics_trans.
  - intros [idx data] s s' H.
    apply rbind_ok in H as (ids & _ & H). revert H.
    apply (for_each_preserves same_but_metrics).
    + intros s0. split; [reflexivity | apply same_control_refl].
    + apply same_but_metrics_trans.
    + intros veh_id s0 s0' H.
      apply rbind_ok in H as (speed & _ & H).
      destruct (Qltb speed (1 # 10)); inversion H;
        (split; [reflexivity | repeat split]).
Qed.

Lemma count_processed_frame env c c' :
  Arbiter.count_processed env c = Ok c' -> same_but_metrics c c'.
Proof.
  unfold Arbiter.count_processed. intros H.
  apply rbind_ok in H as (ids & _ & H). inversion H; clear H.
  clear. revert c. induction ids as [|x ids IH]; intros c; cbn.
  - split; [reflexivity | apply same_control_refl].
  - eapply same_but_metrics_trans; [|apply IH].
    split; [reflexivity | repeat split].
Qed.

Lemma same_control_lookup c c' i st' :
  same_control c c' ->
  intersections c' !! i = Some st' ->
  exists st, intersections c !! i = Some st /\ control_view st' = control_view st.
Proof.
  intros (_ & _ & _ & _ & _ & H) H'. specialize (H i). rewrite H' in H.
  destruct (intersections c !! i) as [st|]; [|discriminate].
  exists st. split; [reflexivity|]. cbn in H. congruence.
Qed.

Lemma control_view_light (st st' : IntersectionState D) :
  control_view st' = control_view st -> current_light st' = current_light st.
Proof. intros H. exact (f_equal current_light H). Qed.

Lemma control_view_planned (st st' : IntersectionState D) :
  control_view st' = control_view st -> planned_duration st' = planned_duration st.
Proof. intros H. exact (f_equal planned_duration H). Qed.

Lemma invariant_same_control cfg scaling_factor c c' :
  same_control c c' ->
  arbitration_invariant cfg scaling_factor c ->
  arbitration_invariant cfg scaling_factor c'.
Proof.
  intros Hsame (Hk & Hgap & Hact & Hred & Hrow & Hplan).
  pose proof Hsame as (Ha & Hg & _ & _ & _ & Hv).
  split; [|split; [|split; [|split; [|split]]]].
  - intros i. rewrite <- Hk.
    rewrite <- (fmap_is_Some control_view (intersections c' !! i)).
    rewrite <- (fmap_is_Some control_view (intersections c !! i)).
    now rewrite Hv.
  - now rewrite Hg, Ha.
  - now rewrite Ha.
  - intros i st' H' Hne. rewrite Ha in Hne.
    destruct (same_control_lookup c c' i st' Hsame H') as (st & H & Hview).
    rewrite (control_view_light _ _ Hview). eauto.
  - intros st' H'. rewrite Ha in H'.
    destruct (same_control_lookup c c' _ st' Hsame H') as (st & H & Hview).
    rewrite (control_view_light _ _ Hview). eauto.
  - intros i st' H' Hgreen.
    destruct (same_control_lookup c c' i st' Hsame H') as (st & H & Hview).
    rewrite (control_view_planned _ _ Hview).
    rewrite (control_view_light _ _ Hview) in Hgreen. eauto.
Qed.
End FrameFacts.

(** ** Ticks and runs *)

Lemma new_controller_lookup {D} (d0 : D) (tl0 : list ascii) (i : Z) :
  intersections (new_controller d0 tl0) !! i =
  if decide (0 <= i <= 2) then Some (new_intersection d0 i) else None.
Proof.
  unfold new_controller, range3. cbn [intersections List.map list_to_map foldr].
  cbn [fst snd uncurry].
  destruct (decide (i = 0)) as [-> | H0]; [now rewrite lookup_insert_eq|].
  rewrite lookup_insert_ne by congruence.
  destruct (decide (i = 1)) as [-> | H1]; [now rewrite lookup_insert_eq|].
  rewrite lookup_insert_ne by congruence.
  destruct (decide (i = 2)) as [-> | H2]; [now rewrite lookup_insert_eq|].
  rewrite lookup_insert_ne by congruence.
  rewrite lookup_empty. destruct (decide (0 <= i <= 2)); [lia | reflexivity].
Qed.

Lemma new_controller_invariant {D} cfg scaling_factor (d0 : D) (tl0 : list ascii) :
  arbitration_invariant cfg scaling_factor (new_controller d0 tl0).
Proof.
  split; [|split; [|split; [|split; [|split]]]].
  - intros i. rewrite new_controller_lookup.
    destruct (decide (0 <= i <= 2)); split; intros H; eauto; try lia.
    destruct H; discriminate.
  - split; reflexivity.
  - now left.
  - intros i st H _. rewrite new_controller_lookup in H.
    destruct (decide (0 <= i <= 2)); inversion H. reflexivity.
  - intros st H. rewrite new_controller_lookup in H. cbn in H.
    destruct (decide (0 <= -1 <= 2)); [lia | discriminate].
  - intros i st H Hg. rewrite new_controller_lookup in H.
    destruct (decide (0 <= i <= 2)); inversion H; subst. discriminate.
Qed.

Lemma invariant_mutual_exclusion {D} cfg scaling_factor (c : SimulationController D) :
  arbitration_invariant cfg scaling_factor c -> mutual_exclusion (signals c) = true.
Proof.
  intros (Hk & _ & Hact & Hred & Hrow & _).
  destruct (proj2 (Hk 0) ltac:(lia)) as [s0 H0].
  destruct (proj2 (Hk 1) ltac:(lia)) as [s1 H1].
  destruct (proj2 (Hk 2) ltac:(lia)) as [s2 H2].
  unfold signals, range3. cbn [omap list_omap]. rewrite H0, H1, H2. cbn [fmap option_fmap option_map].
  assert (Hone : forall i st, intersections c !! i = Some st ->
            (i <> active_idx c /\ is_red (current_light st) = true
             /\ has_right_of_way (current_light st) = false) \/
            (i = active_idx c /\ has_right_of_way (current_light st) = true)).
  { intros i st H. destruct (decide (i = active_idx c)) as [-> | Hne].
    - right. eauto.
    - left. pose proof (Hred i st H Hne). auto using is_red_not_active. }
  unfold mutual_exclusion. cbn [List.filter forallb].
  destruct (Hone 0 s0 H0) as [(N0 & R0 & F0) | (A0 & T0)];
    destruct (Hone 1 s1 H1) as [(N1 & R1 & F1) | (A1 & T1)];
    destruct (Hone 2 s2 H2) as [(N2 & R2 & F2) | (A2 & T2)];
    try lia;
    rewrite ?F0, ?F1, ?F2, ?T0, ?T1, ?T2, ?R0, ?R1, ?R2, ?orb_true_r;
    reflexivity.
Qed.

Section RunFacts.
Context {D : Type}.
Variable cfg : Timing.
Variable sense :
  Traci -> Z -> SimulationController D -> result (SimulationController D).
Variable priority_of : IntersectionState D -> Z -> Q.
Variable scaling_factor : Q.
Hypothesis sense_frame :
  forall env step c c', sense env step c = Ok c' -> same_control c c'.
Hypothesis priority_floor :
  forall inter step, (1 # 10 <= priority_of inter step)%Q.

Implicit Type c : SimulationController D.

Local Abbreviation invariant := (arbitration_invariant cfg scaling_factor).
Local Abbreviation run_step :=
  (Arbiter.run_step cfg sense priority_of scaling_factor).
Local Abbreviation main_loop :=
  (Arbiter.main_loop cfg sense priority_of scaling_factor).

(** A tick that returns: the detection fields are those written by the
    sensing, the rest is the work of the state machine. *)
Lemma run_step_spec env step c c' :
  invariant c ->
  run_step env step c = Ok c' ->
  invariant c' /\
  green_frozen c c' /\
  exists c1, sense env step c = Ok c1 /\
             forall i, det <$> intersections c' !! i = det <$> intersections c1 !! i.
Proof.
  intros Hinv H. unfold Arbiter.run_step in H.
  apply rbind_ok in H as (c1 & Hs & H).
  apply rbind_ok in H as (c2 & Hw & H).
  apply rbind_ok in H as (c3 & Hp & H).
  apply sense_frame in Hs as Hf1.
  apply track_waiting_time_frame in Hw as [Hi2 Hf2].
  apply count_processed_frame in Hp as [Hi3 Hf3].
  assert (Hsame : same_control c c3).
  { eapply same_control_trans; [exact Hf1|].
    eapply same_control_trans; [exact Hf2 | exact Hf3]. }
  destruct (control_spec cfg priority_of scaling_factor priority_floor step c3
              (invariant_same_control cfg scaling_factor c c3 Hsame Hinv))
    as (c'' & Hc & Hinv' & Hdet & Hfrozen).
  rewrite Hc in H. inversion H; subst c''; clear H.
  split; [exact Hinv'|]. split.
  - intros i st st' H1 H' Hg Hg'.
    destruct (proj1 (invariant_same_control cfg scaling_factor c c3 Hsame Hinv) i) as [Hsome _].
    destruct (intersections c3 !! i) as [st3|] eqn:E3.
    + destruct (same_control_lookup c c3 i st3 Hsame E3) as (st0 & E0 & Hview).
      assert (st0 = st) by congruence. subst st0.
      rewrite <- (control_view_planned _ _ Hview).
      apply (Hfrozen i st3 st' E3 H'); [|exact Hg'].
      now rewrite (control_view_light _ _ Hview).
    + exfalso. pose proof (Hdet i) as Hd. rewrite H', E3 in Hd. discriminate.
  - exists c1. split; [exact Hs|]. intros i.
    rewrite Hdet, Hi3, Hi2. reflexivity.
Qed.

Lemma main_loop_invariant envs : forall step c c',
  invariant c ->
  main_loop envs step c = Ok c' ->
  invariant c'.
Proof.
  induction envs as [|env envs IH]; intros step c c' Hinv H; cbn in H.
  - inversion H; subst; exact Hinv.
  - destruct (step <? 3600); [|inversion H; subst; exact Hinv].
    apply rbind_ok in H as (c1 & H1 & H).
    apply (IH (step + 1) c1 c'); [|exact H].
    now apply (run_step_spec env step c c1).
Qed.
End RunFacts.

(** ** The sensing loops *)

Section SensingLoop.
Context {D : Type}.
(** What one pass writes into the detection fields of an approach. *)
Variable measure : Approach -> D -> D.
Implicit Type c : SimulationController D.

Local Abbreviation loop :=
  (for_each INTERSECTIONS
     (fun '(idx, data) c =>
        with_inter idx (fun inter => set_det (measure data (det inter)) inter) c)).

Lemma sensing_loop_frame c c' : loop c = Ok c' -> same_control c c'.
Proof.
  apply (for_each_preserves same_control).
  - apply same_control_refl.
  - apply same_control_trans.
  - intros [idx data] s s' H.
    now apply (with_inter_set_det idx (fun inter => measure data (det inter))).
Qed.

(** On a well-formed controller the loop never raises, and the detection
    fields of each approach are computed from that approach alone. *)
Lemma sensing_loop_spec c :
  well_formed c ->
  exists c',
    loop c = Ok c' /\
    same_control c c' /\
    (forall i data, INTERSECTIONS_at i = Ok data ->
       intersections c' !! i
       = (fun inter => set_det (measure data (det inter)) inter)
           <$> intersections c !! i) /\
    (forall i, ~ 0 <= i <= 2 -> intersections c' !! i = intersections c !! i).
Proof.
  intros Hwf.
  destruct (Hwf 0 ltac:(lia)) as [s0 H0].
  destruct (Hwf 1 ltac:(lia)) as [s1 H1].
  destruct (Hwf 2 ltac:(lia)) as [s2 H2].
  assert (Hrun : exists c', loop c = Ok c' /\
            intersections c' =
            <[2 := set_det (measure (snd (2, {| name := "R3"; tl_id := "center";
                       tl_links := [4; 5]%nat; edge := "r3_in" |})) (det s2)) s2]>
            (<[1 := set_det (measure (snd (1, {| name := "R2"; tl_id := "center";
                       tl_links := [2; 3]%nat; edge := "r2_in" |})) (det s1)) s1]>
            (<[0 := set_det (measure (snd (0, {| name := "R1"; tl_id := "center";
                       tl_links := [0; 1]%nat; edge := "r1_in" |})) (det s0)) s0]>
               (intersections c)))).
  { unfold INTERSECTIONS. cbn [for_each].
    repeat run_primitive. eexists. split; reflexivity. }
  destruct Hrun as (c' & Hloop & Hm).
  exists c'. split; [exact Hloop|]. split; [now apply sensing_loop_frame|].
  rewrite Hm. cbn [snd]. split.
  - intros i data Hi. unfold INTERSECTIONS_at, INTERSECTIONS in Hi.
    cbn [List.find fst snd] in Hi.
    destruct (Z.eqb_spec 0 i) as [<-|_];
      [| destruct (Z.eqb_spec 1 i) as [<-|_];
         [| destruct (Z.eqb_spec 2 i) as [<-|_]; [|discriminate]]];
      inversion Hi; subst data;
      repeat first [ rewrite lookup_insert_eq
                   | rewrite lookup_insert_ne by lia ];
      rewrite ?H0, ?H1, ?H2; reflexivity.
  - intros i Hi. repeat rewrite lookup_insert_ne by lia. reflexivity.
Qed.
End SensingLoop.

Lemma binary_sense_frame sc env step c c' :
  Binary.update_sensors sc env step c = Ok c' -> same_control c c'.
Proof.
  apply (sensing_loop_frame
           (fun data d =>
              Binary.sense_approach sc
                (Binary.candidates sc env (vehicle_ids_of env (edge data))) step d)).
Qed.

Lemma queue_sense_frame zc env step c c' :
  QueueBased.measure_queue_length zc env step c = Ok c' -> same_control c c'.
Proof.
  apply (sensing_loop_frame
           (fun data _ =>
              QueueBased.measured
                (QueueBased.zone_counts zc env (vehicle_ids_of env (edge data))))).
Qed.

(** ** Mutual exclusion, green time and winner selection *)

Lemma binary_main_invariant cfg sc tl0 envs c :
  Binary.main cfg sc tl0 envs = Ok c -> arbitration_invariant cfg (75 # 10) c.
Proof.
  unfold Binary.main, Binary.init. cbn [rbind].
  apply (main_loop_invariant cfg (Binary.update_sensors sc) Binary.priority_of
           (75 # 10) (binary_sense_frame sc) binary_priority_floor).
  apply new_controller_invariant.
Qed.

Lemma queue_main_invariant cfg zc tl0 envs c :
  QueueBased.main cfg zc tl0 envs = Ok c -> arbitration_invariant cfg (15 # 10) c.
Proof.
  unfold QueueBased.main, QueueBased.init. cbn [rbind].
  apply (main_loop_invariant cfg (QueueBased.measure_queue_length zc)
           (QueueBased.priority_of zc) (15 # 10)
           (queue_sense_frame zc) (queue_priority_floor zc)).
  apply new_controller_invariant.
Qed.

(** Under the constants of the scripts a GREEN approach holds a planned
    duration within [G_MIN, G_MAX]. *)
Lemma invariant_planned_bounds {D} scaling_factor (c : SimulationController D) :
  arbitration_invariant timing scaling_factor c ->
  forall i st, intersections c !! i = Some st ->
               is_green (current_light st) = true ->
               (G_MIN timing <= planned_duration st <= G_MAX timing)%Q.
Proof.
  intros (_ & _ & _ & _ & _ & Hplan) i st Hst Hgreen.
  destruct (Hplan i st Hst Hgreen) as [priority ->].
  apply calculate_green_time_bounds.
Qed.

(** C1 (mutual exclusion).  From the initial state, where every signal is
    RED, after every tick of a run of either controller at most one approach
    shows GREEN or YELLOW and every other approach shows RED. *)
Theorem mutual_exclusion_every_tick (tl0 : list ascii) (envs : list Traci) :
  signals (new_controller Binary.no_detection tl0) = ["RED"; "RED"; "RED"]%string /\
  signals (new_controller QueueBased.no_detection tl0) = ["RED"; "RED"; "RED"]%string /\
  (forall sc c, Binary.main timing sc tl0 envs = Ok c ->
                mutual_exclusion (signals c) = true) /\
  (forall zc c, QueueBased.main timing zc tl0 envs = Ok c ->
                mutual_exclusion (signals c) = true).
Proof.
  split; [reflexivity|]. split; [reflexivity|]. split.
  - intros sc c H.
    exact (invariant_mutual_exclusion _ _ c (binary_main_invariant _ _ _ _ _ H)).
  - intros zc c H.
    exact (invariant_mutual_exclusion _ _ c (queue_main_invariant _ _ _ _ _ H)).
Qed.

Lemma mutual_exclusion_every_tick_witness :
  exists cb cq,
    Binary.main timing Binary.sensors all_red_program (repeat waiting_at_r1 20) = Ok cb /\
    QueueBased.main timing QueueBased.zones all_red_program (repeat waiting_at_r1 20) = Ok cq /\
    mutual_exclusion (signals cb) = true /\
    mutual_exclusion (signals cq) = true.
Proof.
  eexists _, _.
  split; [vm_compute; reflexivity|]. split; [vm_compute; reflexivity|].
  destruct (mutual_exclusion_every_tick all_red_program (repeat waiting_at_r1 20))
    as (_ & _ & Hb & Hq).
  split.
  - apply (Hb Binary.sensors). vm_compute; reflexivity.
  - apply (Hq QueueBased.zones). vm_compute; reflexivity.
Defined.

(** C3 (green-time allocation).  After every tick of a run of either
    controller, an approach that shows GREEN holds a planned duration within
    [G_MIN, G_MAX]; and whatever the next tick reads from the sensors, the
    approach that is GREEN before and after it keeps its planned duration,
    while an approach that has just entered GREEN holds one within
    [G_MIN, G_MAX]. *)
Theorem green_time_allocation (tl0 : list ascii) (envs : list Traci) :
  (forall sc c,
      Binary.main timing sc tl0 envs = Ok c ->
      (forall i st, intersections c !! i = Some st ->
                    is_green (current_light st) = true ->
                    (G_MIN timing <= planned_duration st <= G_MAX timing)%Q) /\
      (forall env step c',
          Binary.run_step timing sc env step c = Ok c' ->
          green_frozen c c' /\
          (forall i st', intersections c' !! i = Some st' ->
                         is_green (current_light st') = true ->
                         (G_MIN timing <= planned_duration st' <= G_MAX timing)%Q))) /\
  (forall zc c,
      QueueBased.main timing zc tl0 envs = Ok c ->
      (forall i st, intersections c !! i = Some st ->
                    is_green (current_light st) = true ->
                    (G_MIN timing <= planned_duration st <= G_MAX timing)%Q) /\
      (forall env step c',
          QueueBased.run_step timing zc env step c = Ok c' ->
          green_frozen c c' /\
          (forall i st', intersections c' !! i = Some st' ->
                         is_green (current_light st') = true ->
                         (G_MIN timing <= planned_duration st' <= G_MAX timing)%Q))).
Proof.
  split.
  - intros sc c Hrun. pose proof (binary_main_invariant _ _ _ _ _ Hrun) as Hinv.
    split; [exact (invariant_planned_bounds _ c Hinv)|]. intros env step c' Hstep.
    destruct (run_step_spec timing (Binary.update_sensors sc) Binary.priority_of
                (75 # 10) (binary_sense_frame sc) binary_priority_floor
                env step c c' Hinv Hstep)
      as (Hinv' & Hfrozen & _).
    split; [exact Hfrozen | exact (invariant_planned_bounds _ c' Hinv')].
  - intros zc c Hrun. pose proof (queue_main_invariant _ _ _ _ _ Hrun) as Hinv.
    split; [exact (invariant_planned_bounds _ c Hinv)|]. intros env step c' Hstep.
    destruct (run_step_spec timing (QueueBased.measure_queue_length zc)
                (QueueBased.priority_of zc) (15 # 10)
                (queue_sense_frame zc) (queue_priority_floor zc)
                env step c c' Hinv Hstep)
      as (Hinv' & Hfrozen & _).
    split; [exact Hfrozen | exact (invariant_planned_bounds _ c' Hinv')].
Qed.

(** After two ticks R1 is GREEN in both controllers; the next tick sees the
    vehicle gone and R1 stays GREEN with the same planned duration. *)
Lemma green_time_allocation_witness :
  exists cb cb' cq cq' sb sb' sq sq',
    Binary.main timing Binary.sensors all_red_program (repeat waiting_at_r1 2) = Ok cb /\
    Binary.run_step timing Binary.sensors empty_roads 2 cb = Ok cb' /\
    QueueBased.main timing QueueBased.zones all_red_program (repeat waiting_at_r1 2) = Ok cq /\
    QueueBased.run_step timing QueueBased.zones empty_roads 2 cq = Ok cq' /\
    intersections cb !! 0 = Some sb /\ intersections cb' !! 0 = Some sb' /\
    intersections cq !! 0 = Some sq /\ intersections cq' !! 0 = Some sq' /\
    is_green (current_light sb) = true /\ is_green (current_light sb') = true /\
    is_green (current_light sq) = true /\ is_green (current_light sq') = true /\
    planned_duration sb' = planned_duration sb /\
    planned_duration sq' = planned_duration sq /\
    (G_MIN timing <= planned_duration sb <= G_MAX timing)%Q /\
    (G_MIN timing <= planned_duration sq <= G_MAX timing)%Q.
Proof.
  eexists _, _, _, _, _, _, _, _.
  split; [vm_compute; reflexivity|]. split; [vm_compute; reflexivity|].
  split; [vm_compute; reflexivity|]. split; [vm_compute; reflexivity|].
  split; [vm_compute; reflexivity|]. split; [vm_compute; reflexivity|].
  split; [vm_compute; reflexivity|]. split; [vm_compute; reflexivity|].
  split; [vm_compute; reflexivity|]. split; [vm_compute; reflexivity|].
  split; [vm_compute; reflexivity|]. split; [vm_compute; reflexivity|].
  destruct (green_time_allocation all_red_program (repeat waiting_at_r1 2))
    as (Hb & Hq).
  destruct (Hb Binary.sensors _ ltac:(vm_compute; reflexivity)) as (Hb1 & Hb2).
  destruct (Hq QueueBased.zones _ ltac:(vm_compute; reflexivity)) as (Hq1 & Hq2).
  destruct (Hb2 empty_roads 2 _ ltac:(vm_compute; reflexivity)) as (Fb & _).
  destruct (Hq2 empty_roads 2 _ ltac:(vm_compute; reflexivity)) as (Fq & _).
  split; [apply (Fb 0); vm_compute; reflexivity|].
  split; [apply (Fq 0); vm_compute; reflexivity|].
  split; [apply (Hb1 0); vm_compute; reflexivity|].
  apply (Hq1 0); vm_compute; reflexivity.
Defined.

(** C5 (winner selection).  On a controller holding the three approaches the
    scan always selects an approach (never the initial [-1]); the winner has
    the maximal score, and every approach with the same score has an index at
    least the winner's. *)
Theorem winner_selection_total
    (cb : SimulationController Binary.Detection)
    (zc : QueueBased.ZoneConfig)
    (cq : SimulationController QueueBased.Detection)
    (step : Z) :
  well_formed cb -> well_formed cq ->
  (exists w top,
      Binary.find_winner cb step = Ok (w, top) /\
      w <> -1 /\ 0 <= w <= 2 /\
      Binary.get_priority cb w step = Ok top /\
      forall j p, 0 <= j <= 2 -> Binary.get_priority cb j step = Ok p ->
                  (p <= top)%Q /\ ((p == top)%Q -> w <= j)) /\
  (exists w top,
      QueueBased.find_winner zc cq step = Ok (w, top) /\
      w <> -1 /\ 0 <= w <= 2 /\
      QueueBased.get_priority zc cq w step = Ok top /\
      forall j p, 0 <= j <= 2 -> QueueBased.get_priority zc cq j step = Ok p ->
                  (p <= top)%Q /\ ((p == top)%Q -> w <= j)).
Proof.
  intros Hb Hq. split.
  - destruct (find_winner_total Binary.priority_of binary_priority_floor cb step Hb)
      as (w & top & H1 & H2 & H3 & H4).
    exists w, top. repeat (split; [first [assumption | lia]|]). exact H4.
  - destruct (find_winner_total (QueueBased.priority_of zc)
                (queue_priority_floor zc) cq step Hq)
      as (w & top & H1 & H2 & H3 & H4).
    exists w, top. repeat (split; [first [assumption | lia]|]). exact H4.
Qed.

(** ** Binary sensing: candidates and persistence *)

Lemma detect_vehicle_unreadable sc env now veh_id e :
  read_vehicle env veh_id = Raise e ->
  Binary.detect_vehicle sc env now veh_id = now.
Proof. intros H. unfold Binary.detect_vehicle. now rewrite H. Qed.

Lemma detect_vehicle_near_far env now veh_id :
  (fst now = true -> snd now = true) ->
  fst (Binary.detect_vehicle Binary.sensors env now veh_id) = true ->
  snd (Binary.detect_vehicle Binary.sensors env now veh_id) = true.
Proof.
  intros Hnow. unfold Binary.detect_vehicle.
  destruct (read_vehicle env veh_id) as [[dist speed]|]; cbn [rbind try_except];
    [|exact Hnow].
  cbn [fst snd Binary.NEAR_SENSOR_DISTANCE Binary.FAR_SENSOR_DISTANCE Binary.sensors].
  destruct (Qleb dist 20) eqn:En; cbn [andb].
  - destruct (Qltb speed (1 # 2)) eqn:Es.
    + intros _. apply Qleb_le in En.
      assert (E : Qleb dist 50 = true) by (apply Qleb_le; lra).
      now rewrite E.
    + rewrite andb_false_r. exact Hnow.
  - intros H. rewrite (Hnow H). now destruct (_ && _)%bool.
Qed.

Lemma candidates_near_far env vehicle_ids :
  fst (Binary.candidates Binary.sensors env vehicle_ids) = true ->
  snd (Binary.candidates Binary.sensors env vehicle_ids) = true.
Proof.
  unfold Binary.candidates.
  assert (H : forall now, (fst now = true -> snd now = true) ->
            fst (List.fold_left (Binary.detect_vehicle Binary.sensors env)
                   vehicle_ids now) = true ->
            snd (List.fold_left (Binary.detect_vehicle Binary.sensors env)
                   vehicle_ids now) = true).
  { induction vehicle_ids as [|v vs IH]; intros now Hnow; cbn [List.fold_left].
    - exact Hnow.
    - apply IH. now apply detect_vehicle_near_far. }
  apply H. discriminate.
Qed.

Lemma persistence_origin sc detected_now step detect_time :
  fst (Binary.persistence sc detected_now step detect_time) =
  if detected_now then (if detect_time =? 0 then step else detect_time) else 0.
Proof.
  unfold Binary.persistence. destruct detected_now; [|reflexivity].
  now destruct (Binary.SENSOR_DELAY sc <=? _).
Qed.

Lemma persistence_flag sc detected_now step detect_time :
  snd (Binary.persistence sc detected_now step detect_time) =
  (detected_now &&
   (Binary.SENSOR_DELAY sc
    <=? step - fst (Binary.persistence sc detected_now step detect_time)))%bool.
Proof.
  unfold Binary.persistence. destruct detected_now; [|reflexivity].
  now destruct (Binary.SENSOR_DELAY sc <=? _) eqn:E; cbn [fst snd andb]; rewrite E.
Qed.

(** One tick keeps "near implies far" when the step counter advances. *)
Lemma sense_approach_near_within_far now step d :
  0 <= step ->
  (fst now = true -> snd now = true) ->
  near_within_far step d ->
  near_within_far (step + 1) (Binary.sense_approach Binary.sensors now step d).
Proof.
  intros Hstep Hnow (Hb & Ht & Ho).
  unfold near_within_far, Binary.sense_approach.
  cbn [Binary.near_detect_time Binary.far_detect_time
       Binary.near_sensor_occupied Binary.far_sensor_occupied].
  rewrite !persistence_flag, !persistence_origin.
  cbn [Binary.SENSOR_DELAY Binary.sensors].
  destruct now as [[|] far_now]; cbn [fst snd andb] in *.
  - rewrite (Hnow eq_refl). cbn [andb].
    destruct (Z.eqb_spec (Binary.near_detect_time d) 0) as [En | En];
      destruct (Z.eqb_spec (Binary.far_detect_time d) 0) as [Ef | Ef];
      (split; [lia|]); (split; [intros; try lia; try (destruct (Ht En); lia)|]);
      intros H; apply Z.leb_le in H; apply Z.leb_le;
      try lia; try (destruct (Ht En); lia).
  - split; [destruct far_now; [destruct (_ =? 0)|]; lia|].
    split; [congruence | discriminate].
Qed.

Lemma near_within_far_weaken n m d :
  n <= m -> near_within_far n d -> near_within_far m d.
Proof. intros Hnm (Hb & Ht & Ho). repeat split; try tauto; try lia; apply Ht; tauto. Qed.

(** ** What a tick writes into the detection fields *)

Section TickDetection.
Context {D : Type}.
Variable cfg : Timing.
Variable measure : Traci -> Z -> Approach -> D -> D.
Variable priority_of : IntersectionState D -> Z -> Q.
Variable scaling_factor : Q.
Hypothesis priority_floor :
  forall inter step, (1 # 10 <= priority_of inter step)%Q.

Local Abbreviation sense :=
  (fun env step =>
     for_each INTERSECTIONS
       (fun '(idx, data) (c : SimulationController D) =>
          with_inter idx
            (fun inter => set_det (measure env step data (det inter)) inter) c)).

(** After a tick that returns, the detection fields of each approach are
    the measurement of this tick on that approach's own data. *)
Lemma run_step_detection env step (c c' : SimulationController D) :
  arbitration_invariant cfg scaling_factor c ->
  Arbiter.run_step cfg sense priority_of scaling_factor env step c = Ok c' ->
  forall i data, INTERSECTIONS_at i = Ok data ->
    det <$> intersections c' !! i
    = measure env step data <$> (det <$> intersections c !! i).
Proof.
  intros Hinv Hstep i data Hi.
  destruct (run_step_spec cfg sense priority_of scaling_factor
              (fun env step c c' => sensing_loop_frame (measure env step) c c')
              priority_floor env step c c' Hinv Hstep)
    as (_ & _ & c1 & Hs & Hdet).
  destruct (sensing_loop_spec (measure env step) c (invariant_well_formed cfg scaling_factor c Hinv))
    as (c1' & Hs' & _ & Hin & _).
  assert (c1' = c1) by congruence. subst c1'.
  rewrite Hdet, (Hin i data Hi).
  now destruct (intersections c !! i).
Qed.
End TickDetection.

Lemma binary_run_step_detection cfg sc env step c c' :
  arbitration_invariant cfg (75 # 10) c ->
  Binary.run_step cfg sc env step c = Ok c' ->
  forall i data, INTERSECTIONS_at i = Ok data ->
    det <$> intersections c' !! i
    = Binary.sense_approach sc
        (Binary.candidates sc env (vehicle_ids_of env (edge data))) step
      <$> (det <$> intersections c !! i).
Proof.
  apply (run_step_detection cfg
           (fun env step data d =>
              Binary.sense_approach sc
                (Binary.candidates sc env (vehicle_ids_of env (edge data))) step d)
           Binary.priority_of (75 # 10) binary_priority_floor).
Qed.

Lemma queue_run_step_detection cfg zc env step c c' :
  arbitration_invariant cfg (15 # 10) c ->
  QueueBased.run_step cfg zc env step c = Ok c' ->
  forall i data, INTERSECTIONS_at i = Ok data ->
    det <$> intersections c' !! i
    = (fun _ => QueueBased.measured
                  (QueueBased.zone_counts zc env (vehicle_ids_of env (edge data))))
      <$> (det <$> intersections c !! i).
Proof.
  apply (run_step_detection cfg
           (fun env step data _ =>
              QueueBased.measured
                (QueueBased.zone_counts zc env (vehicle_ids_of env (edge data))))
           (QueueBased.priority_of zc) (15 # 10) (queue_priority_floor zc)).
Qed.

Lemma binary_main_loop_near_within_far envs : forall step c c',
  0 <= step ->
  arbitration_invariant timing (75 # 10) c ->
  (forall i st, intersections c !! i = Some st -> near_within_far step (det st)) ->
  Binary.main_loop timing Binary.sensors envs step c = Ok c' ->
  forall i st', intersections c' !! i = Some st' ->
                near_within_far (step + Z.of_nat (length envs)) (det st').
Proof.
  induction envs as [|env envs IH]; intros step c c' Hstep Hinv Hdet H i st' H';
    cbn in H.
  - inversion H; subst c'. cbn [length Z.of_nat].
    rewrite Z.add_0_r. exact (Hdet i st' H').
  - destruct (step <? 3600).
    2:{ inversion H; subst c'.
        apply (near_within_far_weaken step); [lia | exact (Hdet i st' H')]. }
    apply rbind_ok in H as (c1 & H1 & H).
    assert (Hinv1 : arbitration_invariant timing (75 # 10) c1).
    { apply (run_step_spec timing (Binary.update_sensors Binary.sensors) Binary.priority_of
               (75 # 10) (binary_sense_frame Binary.sensors) binary_priority_floor
               env step c c1 Hinv H1). }
    replace (step + Z.of_nat (length (env :: envs)))
      with ((step + 1) + Z.of_nat (length envs)) by (cbn [length]; lia).
    refine (IH (step + 1) c1 c' _ Hinv1 _ H i st' H'); [lia|].
    intros j st1 Hj.
    assert (Hrange : 0 <= j <= 2) by (apply Hinv1; eauto).
    destruct (INTERSECTIONS_at_range j Hrange) as [data Hdata].
    pose proof (binary_run_step_detection _ _ _ _ _ _ Hinv H1 j data Hdata) as Hd.
    rewrite Hj in Hd. destruct (intersections c !! j) as [st0|] eqn:E0; [|discriminate].
    cbn in Hd. inversion Hd as [Hd']. rewrite Hd'.
    apply sense_approach_near_within_far;
      [exact Hstep | apply candidates_near_far | exact (Hdet j st0 E0)].
Qed.

(** C10 (near implies far, binary mode).  With the radii of the script, the
    near candidate of a tick implies its far candidate; and after every tick
    of a run, for every approach, a running near timer comes with a running
    far timer that started no later, and an occupied near sensor comes with
    an occupied far sensor. *)
Theorem near_occupied_implies_far (tl0 : list ascii) (envs : list Traci) :
  (forall env vehicle_ids,
      fst (Binary.candidates Binary.sensors env vehicle_ids) = true ->
      snd (Binary.candidates Binary.sensors env vehicle_ids) = true) /\
  (forall c i st,
      Binary.main timing Binary.sensors tl0 envs = Ok c ->
      intersections c !! i = Some st ->
      (Binary.near_detect_time (det st) <> 0 ->
       Binary.far_detect_time (det st) <> 0 /\
       Binary.far_detect_time (det st) <= Binary.near_detect_time (det st)) /\
      (Binary.near_sensor_occupied (det st) = true ->
       Binary.far_sensor_occupied (det st) = true) /\
      ~ (Binary.near_sensor_occupied (det st) = true /\
         Binary.far_sensor_occupied (det st) = false)).
Proof.
  split; [apply candidates_near_far|].
  intros c i st Hrun Hst.
  unfold Binary.main, Binary.init in Hrun. cbn [rbind] in Hrun.
  assert (H : near_within_far (0 + Z.of_nat (length envs)) (det st)).
  { refine (binary_main_loop_near_within_far envs 0
              (new_controller Binary.no_detection tl0) c _
              (new_controller_invariant _ _ _ _) _ Hrun i st Hst); [lia|].
    intros j st0 Hj. rewrite new_controller_lookup in Hj.
    destruct (decide (0 <= j <= 2)); inversion Hj; subst.
    split; [cbn; lia|]. split; cbn; [intros E; now contradiction E | discriminate]. }
  destruct H as (_ & Ht & Ho). split; [exact Ht|]. split; [exact Ho|].
  intros [Hn Hf]. rewrite (Ho Hn) in Hf. discriminate.
Qed.

Lemma near_occupied_implies_far_witness :
  exists c st,
    Binary.main timing Binary.sensors all_red_program (repeat waiting_at_r1 12) = Ok c /\
    intersections c !! 0 = Some st /\
    Binary.near_sensor_occupied (det st) = true /\
    Binary.far_sensor_occupied (det st) = true /\
    Binary.far_detect_time (det st) <= Binary.near_detect_time (det st).
Proof.
  eexists _, _.
  split; [vm_compute; reflexivity|]. split; [vm_compute; reflexivity|].
  destruct (near_occupied_implies_far all_red_program (repeat waiting_at_r1 12))
    as (_ & H).
  edestruct (H _ 0 _ ltac:(vm_compute; reflexivity) ltac:(vm_compute; reflexivity))
    as (Ht & Ho & _).
  split; [vm_compute; reflexivity|].
  split; [apply Ho; vm_compute; reflexivity|].
  apply Ht. vm_compute. discriminate.
Defined.

(** ** The persistence window *)

Lemma persistence_false sc step detect_time :
  Binary.persistence sc false step detect_time = (0, false).
Proof. reflexivity. Qed.

(** A running timer keeps its origin while the candidate stays true, and the
    flag tells whether the window has elapsed since that origin. *)
Lemma persistence_run_running sc n : forall step detect_time occupied,
  detect_time <> 0 ->
  persistence_run sc (repeat true (S n)) step detect_time occupied
  = (detect_time, Binary.SENSOR_DELAY sc <=? step + Z.of_nat n - detect_time).
Proof.
  induction n as [|n IH]; intros step t occ Ht.
  - cbn [repeat persistence_run]. rewrite persistence_flag, persistence_origin.
    destruct (Z.eqb_spec t 0); [contradiction|].
    cbn [andb Z.of_nat]. now rewrite Z.add_0_r.
  - change (repeat true (S (S n))) with (true :: repeat true (S n)).
    cbn [persistence_run]. rewrite persistence_origin.
    destruct (Z.eqb_spec t 0); [contradiction|].
    rewrite IH by exact Ht. f_equal. f_equal. lia.
Qed.

(** From a timer at rest, a candidate that turns true at tick [start >= 1]
    and stays true through tick [start + k] sets the flag exactly when
    [k >= SENSOR_DELAY]: never while it has lasted [SENSOR_DELAY - 1] ticks
    or less, and on the tick it has lasted [SENSOR_DELAY] ticks. *)
Lemma persistence_window_from sc (start : Z) (k : nat) (occupied : bool) :
  start <> 0 ->
  persistence_run sc (repeat true (S k)) start 0 occupied
  = (start, Binary.SENSOR_DELAY sc <=? Z.of_nat k).
Proof.
  intros Hstart. destruct k as [|k].
  - cbn [repeat persistence_run]. rewrite persistence_flag, persistence_origin.
    cbn [Z.eqb andb Z.of_nat]. now rewrite Z.sub_diag.
  - change (repeat true (S (S k))) with (true :: repeat true (S k)).
    cbn [persistence_run]. rewrite persistence_origin. cbn [Z.eqb].
    rewrite persistence_run_running by exact Hstart. f_equal. f_equal. lia.
Qed.

(** When the candidate turns true at tick 0, the origin written at tick 0
    is the value that means "timer at rest", and the timer restarts at
    tick 1: the flag is one tick late. *)
Lemma persistence_window_from_zero sc (k : nat) (occupied : bool) :
  persistence_run sc (repeat true (S (S k))) 0 0 occupied
  = (1, Binary.SENSOR_DELAY sc <=? Z.of_nat k).
Proof.
  change (repeat true (S (S k))) with (true :: repeat true (S k)).
  cbn [persistence_run]. rewrite persistence_origin. cbn [Z.eqb Z.add].
  now apply persistence_window_from.
Qed.

(** C4 (debounce), at the input that breaks it.  A vehicle stands at R1
    from tick 0 on.  After tick 10 the candidate has lasted the persistence
    window of 10 ticks, yet the occupancy flags are still false and the
    timer origin is 1; the flags turn true at tick 11.  The same vehicle
    arriving at tick 1 sets the flags at tick 11, after 10 ticks. *)
Theorem debounce_from_tick_zero :
  detection_of (Binary.main timing Binary.sensors all_red_program
                  (repeat waiting_at_r1 11)) 0
  = Some {| Binary.near_sensor_occupied := false;
            Binary.far_sensor_occupied := false;
            Binary.near_detect_time := 1; Binary.far_detect_time := 1 |} /\
  detection_of (Binary.main timing Binary.sensors all_red_program
                  (repeat waiting_at_r1 12)) 0
  = Some {| Binary.near_sensor_occupied := true;
            Binary.far_sensor_occupied := true;
            Binary.near_detect_time := 1; Binary.far_detect_time := 1 |} /\
  detection_of (Binary.main timing Binary.sensors all_red_program
                  (empty_roads :: repeat waiting_at_r1 11)) 0
  = Some {| Binary.near_sensor_occupied := true;
            Binary.far_sensor_occupied := true;
            Binary.near_detect_time := 1; Binary.far_detect_time := 1 |} /\
  persistence_run Binary.sensors (repeat true 11) 0 0 false = (1, false) /\
  persistence_run Binary.sensors (repeat true 11) 1 0 false = (1, true).
Proof. repeat split; vm_compute; reflexivity. Qed.

(** ** Queue measurement *)

Lemma count_vehicle_unreadable zc env counts veh_id e :
  read_vehicle env veh_id = Raise e ->
  QueueBased.count_vehicle zc env counts veh_id = counts.
Proof.
  intros H. unfold QueueBased.count_vehicle.
  destruct counts as [[n m] f]. now rewrite H.
Qed.

(** One vehicle of the counting loop, by cases on its readings. *)
Lemma count_vehicle_cases env (n m f : Z) veh_id dist speed :
  read_vehicle env veh_id = Ok (dist, speed) ->
  ((speed < 2)%Q /\ (dist <= 25)%Q ->
   QueueBased.count_vehicle QueueBased.zones env (n, m, f) veh_id = (n + 1, m, f)) /\
  ((speed < 2)%Q /\ (25 < dist)%Q /\ (dist <= 60)%Q ->
   QueueBased.count_vehicle QueueBased.zones env (n, m, f) veh_id = (n, m + 1, f)) /\
  ((speed < 2)%Q /\ (60 < dist)%Q /\ (dist <= 100)%Q ->
   QueueBased.count_vehicle QueueBased.zones env (n, m, f) veh_id = (n, m, f + 1)) /\
  ((2 <= speed)%Q \/ (100 < dist)%Q ->
   QueueBased.count_vehicle QueueBased.zones env (n, m, f) veh_id = (n, m, f)).
Proof.
  intros Hread. unfold QueueBased.count_vehicle. rewrite Hread.
  cbn [rbind try_except QueueBased.ZONE_NEAR QueueBased.ZONE_MEDIUM
       QueueBased.ZONE_FAR QueueBased.zones].
  destruct (Qltb speed 2) eqn:Es;
    [apply Qltb_lt in Es | apply Qltb_ge in Es];
    destruct (Qleb dist 25) eqn:E1; try apply Qleb_le in E1;
    destruct (Qleb dist 60) eqn:E2; try apply Qleb_le in E2;
    destruct (Qleb dist 100) eqn:E3; try apply Qleb_le in E3;
    cbn [try_except];
    repeat split; intros H; try reflexivity; exfalso;
    repeat match goal with
           | H : Qleb ?a ?b = false |- _ =>
               assert (~ (a <= b)%Q)
                 by (let C := fresh in intros C; apply Qleb_le in C; congruence);
               clear H
           end;
    lra.
Qed.

Lemma queued_between_cases env veh_id (n m f : Z) :
  QueueBased.count_vehicle QueueBased.zones env (n, m, f) veh_id =
  (n + (if queued_between env None 25 veh_id then 1 else 0),
   m + (if queued_between env (Some 25%Q) 60 veh_id then 1 else 0),
   f + (if queued_between env (Some 60%Q) 100 veh_id then 1 else 0)).
Proof.
  unfold queued_between.
  destruct (read_vehicle env veh_id) as [[dist speed]|e] eqn:Hread.
  2:{ rewrite (count_vehicle_unreadable _ _ _ _ e Hread).
      now rewrite !Z.add_0_r. }
  destruct (count_vehicle_cases env n m f veh_id dist speed Hread)
    as (Hn & Hm & Hf & Hnone).
  destruct (Qltb speed 2) eqn:Es; cbn [andb].
  2:{ rewrite Hnone by (left; now apply Qltb_ge). now rewrite !Z.add_0_r. }
  apply Qltb_lt in Es.
  destruct (Qleb dist 25) eqn:E1.
  { apply Qleb_le in E1. rewrite Hn by (split; assumption).
    assert (Qltb 25 dist = false) as -> by (apply Qltb_ge; exact E1).
    assert (Qltb 60 dist = false) as -> by (apply Qltb_ge; lra).
    cbn [andb]. now rewrite !Z.add_0_r. }
  assert (H25 : (25 < dist)%Q).
  { apply Qnot_le_lt. intros C. apply Qleb_le in C. congruence. }
  assert (Qltb 25 dist = true) as -> by (now apply Qltb_lt).
  destruct (Qleb dist 60) eqn:E2.
  { apply Qleb_le in E2. rewrite Hm by (repeat split; assumption).
    assert (Qltb 60 dist = false) as -> by (apply Qltb_ge; exact E2).
    cbn [andb]. now rewrite !Z.add_0_r. }
  assert (H60 : (60 < dist)%Q).
  { apply Qnot_le_lt. intros C. apply Qleb_le in C. congruence. }
  assert (Qltb 60 dist = true) as -> by (now apply Qltb_lt).
  destruct (Qleb dist 100) eqn:E3.
  { apply Qleb_le in E3. rewrite Hf by (repeat split; assumption).
    cbn [andb]. now rewrite !Z.add_0_r. }
  assert (H100 : (100 < dist)%Q).
  { apply Qnot_le_lt. intros C. apply Qleb_le in C. congruence. }
  rewrite Hnone by (now right). cbn [andb]. now rewrite !Z.add_0_r.
Qed.

(** The three counts of a pass are the numbers of queued vehicles in the
    three zones. *)
Lemma zone_counts_count env vehicle_ids :
  QueueBased.zone_counts QueueBased.zones env vehicle_ids =
  (count_of (queued_between env None 25) vehicle_ids,
   count_of (queued_between env (Some 25%Q) 60) vehicle_ids,
   count_of (queued_between env (Some 60%Q) 100) vehicle_ids).
Proof.
  unfold QueueBased.zone_counts.
  assert (H : forall n m f,
            List.fold_left (QueueBased.count_vehicle QueueBased.zones env)
              vehicle_ids (n, m, f) =
            (n + count_of (queued_between env None 25) vehicle_ids,
             m + count_of (queued_between env (Some 25%Q) 60) vehicle_ids,
             f + count_of (queued_between env (Some 60%Q) 100) vehicle_ids)).
  { induction vehicle_ids as [|v vs IH]; intros n m f; cbn [List.fold_left].
    - unfold count_of. cbn. now rewrite !Z.add_0_r.
    - rewrite queued_between_cases, IH. unfold count_of. cbn [List.filter].
      destruct (queued_between env None 25 v),
               (queued_between env (Some 25%Q) 60 v),
               (queued_between env (Some 60%Q) 100 v);
        cbn [length]; (apply f_equal2; [apply f_equal2|]; lia). }
  apply (H 0 0 0).
Qed.

(** C6 (zone counting), as the code has it.  A vehicle whose readings
    succeed and which is slower than 2.0 m/s is counted in NEAR when its
    distance is at most 25 m, in MEDIUM when in (25, 60], in FAR when in
    (60, 100], and in no bucket beyond 100 m; a vehicle at 2.0 m/s or more,
    or whose readings fail, is counted in no bucket; so the three counts are
    the numbers of queued vehicles of the three zones.  Each pass writes
    these counts over the fields of the approach, whatever they held. *)
Theorem zone_counting (env : Traci) :
  (forall n m f veh_id dist speed,
      read_vehicle env veh_id = Ok (dist, speed) ->
      ((speed < 2)%Q /\ (dist <= 25)%Q ->
       QueueBased.count_vehicle QueueBased.zones env (n, m, f) veh_id
       = (n + 1, m, f)) /\
      ((speed < 2)%Q /\ (25 < dist)%Q /\ (dist <= 60)%Q ->
       QueueBased.count_vehicle QueueBased.zones env (n, m, f) veh_id
       = (n, m + 1, f)) /\
      ((speed < 2)%Q /\ (60 < dist)%Q /\ (dist <= 100)%Q ->
       QueueBased.count_vehicle QueueBased.zones env (n, m, f) veh_id
       = (n, m, f + 1)) /\
      ((2 <= speed)%Q \/ (100 < dist)%Q ->
       QueueBased.count_vehicle QueueBased.zones env (n, m, f) veh_id
       = (n, m, f))) /\
  (forall counts veh_id e,
      read_vehicle env veh_id = Raise e ->
      QueueBased.count_vehicle QueueBased.zones env counts veh_id = counts) /\
  (forall vehicle_ids,
      QueueBased.zone_counts QueueBased.zones env vehicle_ids =
      (count_of (queued_between env None 25) vehicle_ids,
       count_of (queued_between env (Some 25%Q) 60) vehicle_ids,
       count_of (queued_between env (Some 60%Q) 100) vehicle_ids)) /\
  (forall step c,
      well_formed c ->
      exists c',
        QueueBased.measure_queue_length QueueBased.zones env step c = Ok c' /\
        forall i data inter',
          INTERSECTIONS_at i = Ok data ->
          intersections c' !! i = Some inter' ->
          det inter' =
          QueueBased.measured
            (QueueBased.zone_counts QueueBased.zones env
               (vehicle_ids_of env (edge data)))).
Proof.
  split; [intros; now apply count_vehicle_cases|].
  split; [intros; eapply count_vehicle_unreadable; eassumption|].
  split; [apply zone_counts_count|].
  intros step c Hwf.
  destruct (sensing_loop_spec
              (fun data _ =>
                 QueueBased.measured
                   (QueueBased.zone_counts QueueBased.zones env
                      (vehicle_ids_of env (edge data)))) c Hwf)
    as (c' & Hloop & _ & Hin & _).
  exists c'. split; [exact Hloop|].
  intros i data inter' Hi H'. rewrite (Hin i data Hi) in H'.
  destruct (intersections c !! i); inversion H'. reflexivity.
Qed.

(** On R1 with five vehicles, three are counted, one per zone; the counts
    overwrite those of the previous pass. *)
Lemma zone_counting_witness :
  exists c',
    read_vehicle queue_at_r1 "a" = Ok (10, 0)%Q /\
    read_vehicle queue_at_r1 "d" = Ok (150, 0)%Q /\
    QueueBased.count_vehicle QueueBased.zones queue_at_r1 (0, 0, 0) "a" = (1, 0, 0) /\
    QueueBased.count_vehicle QueueBased.zones queue_at_r1 (1, 1, 1) "d" = (1, 1, 1) /\
    QueueBased.zone_counts QueueBased.zones queue_at_r1
      (vehicle_ids_of queue_at_r1 "r1_in") = (1, 1, 1) /\
    well_formed (new_controller QueueBased.no_detection all_red_program) /\
    QueueBased.measure_queue_length QueueBased.zones queue_at_r1 0
      (new_controller QueueBased.no_detection all_red_program) = Ok c' /\
    det <$> intersections c' !! 0 = Some (QueueBased.measured (1, 1, 1)).
Proof.
  destruct (zone_counting queue_at_r1) as (Hcases & _ & Hcount & Hpass).
  assert (Hwf : well_formed (new_controller QueueBased.no_detection all_red_program)).
  { intros i Hi. assert (i = 0 \/ i = 1 \/ i = 2) as [-> | [-> | ->]] by lia;
      vm_compute; eexists; reflexivity. }
  destruct (Hpass 0 _ Hwf) as (c' & Hrun & Hdet).
  exists c'.
  split; [vm_compute; reflexivity|]. split; [vm_compute; reflexivity|].
  split.
  { apply (Hcases 0 0 0 "a"%string 10%Q 0%Q); [vm_compute; reflexivity|].
    split; [reflexivity | discriminate]. }
  split.
  { apply (Hcases 1 1 1 "d"%string 150%Q 0%Q); [vm_compute; reflexivity|].
    right. reflexivity. }
  split; [rewrite Hcount; vm_compute; reflexivity|].
  split; [exact Hwf|]. split; [exact Hrun|].
  destruct (intersections c' !! 0) as [inter'|] eqn:E.
  - cbn. f_equal. rewrite (Hdet 0 _ inter' ltac:(reflexivity) E).
    vm_compute. reflexivity.
  - exfalso. revert E. vm_compute in Hrun. inversion Hrun. vm_compute. discriminate.
Defined.

(** C6 as stated fails: a vehicle standing 150 m before the stop line of R1
    is on the segment and slower than 2.0 m/s, and is counted in no bucket. *)
Lemma zone_counting_counterexample :
  vehicle_ids_of waiting_far_from_r1 "r1_in" = ["veh0"%string] /\
  read_vehicle waiting_far_from_r1 "veh0" = Ok (150, 0)%Q /\
  Qltb 0 2 = true /\
  QueueBased.zone_counts QueueBased.zones waiting_far_from_r1 ["veh0"%string]
  = (0, 0, 0) /\
  detection_of (QueueBased.main timing QueueBased.zones all_red_program
                  [waiting_far_from_r1]) 0
  = Some {| QueueBased.vehicles_near := 0; QueueBased.vehicles_medium := 0;
            QueueBased.vehicles_far := 0; QueueBased.total_queue_length := 0 |}.
Proof. repeat split; vm_compute; reflexivity. Qed.

(** ** Failing queries *)

Lemma fold_left_skip {A S} (f : S -> A -> S) (keep : A -> bool) :
  (forall s x, keep x = false -> f s x = s) ->
  forall xs s, List.fold_left f xs s = List.fold_left f (List.filter keep xs) s.
Proof.
  intros Hskip xs. induction xs as [|x xs IH]; intros s; cbn [List.fold_left List.filter].
  - reflexivity.
  - destruct (keep x) eqn:E; cbn [List.fold_left].
    + apply IH.
    + rewrite (Hskip s x E). apply IH.
Qed.

Lemma is_ok_false {A} (r : result A) : is_ok r = false -> exists e, r = Raise e.
Proof. destruct r; [discriminate | eauto]. Qed.

Lemma candidates_readable sc env vehicle_ids :
  Binary.candidates sc env vehicle_ids
  = Binary.candidates sc env (readable env vehicle_ids).
Proof.
  unfold Binary.candidates, readable. apply fold_left_skip.
  intros now v H. apply is_ok_false in H as [e H].
  exact (detect_vehicle_unreadable sc env now v e H).
Qed.

Lemma zone_counts_readable zc env vehicle_ids :
  QueueBased.zone_counts zc env vehicle_ids
  = QueueBased.zone_counts zc env (readable env vehicle_ids).
Proof.
  unfold QueueBased.zone_counts, readable. apply fold_left_skip.
  intros counts v H. apply is_ok_false in H as [e H].
  exact (count_vehicle_unreadable zc env counts v e H).
Qed.

(** C8 (fail-open sensing), as the code has it.  When the vehicle-list query
    of an approach fails, the approach is sensed as if it had no vehicle:
    both candidates false, the three counts zero.  When the queries of one
    vehicle fail, that vehicle alone is skipped and the others are sensed as
    usual.  Whatever fails, the sensing pass over a controller holding its
    three approaches returns, and the detection fields it writes for an
    approach are computed from the readings of that approach only. *)
Theorem sensing_fail_open (sc : Binary.SensorConfig) (zc : QueueBased.ZoneConfig)
    (env : Traci) (step : Z) :
  (forall edge_id e,
      edge_getLastStepVehicleIDs env edge_id = Raise e ->
      vehicle_ids_of env edge_id = [] /\
      Binary.candidates sc env (vehicle_ids_of env edge_id) = (false, false) /\
      QueueBased.zone_counts zc env (vehicle_ids_of env edge_id) = (0, 0, 0)) /\
  (forall vehicle_ids,
      Binary.candidates sc env vehicle_ids
      = Binary.candidates sc env (readable env vehicle_ids) /\
      QueueBased.zone_counts zc env vehicle_ids
      = QueueBased.zone_counts zc env (readable env vehicle_ids)) /\
  (forall cb,
      well_formed cb ->
      exists cb',
        Binary.update_sensors sc env step cb = Ok cb' /\
        forall i data, INTERSECTIONS_at i = Ok data ->
          det <$> intersections cb' !! i
          = Binary.sense_approach sc
              (Binary.candidates sc env (vehicle_ids_of env (edge data))) step
            <$> (det <$> intersections cb !! i)) /\
  (forall cq,
      well_formed cq ->
      exists cq',
        QueueBased.measure_queue_length zc env step cq = Ok cq' /\
        forall i data, INTERSECTIONS_at i = Ok data ->
          det <$> intersections cq' !! i
          = (fun _ => QueueBased.measured
                        (QueueBased.zone_counts zc env (vehicle_ids_of env (edge data))))
            <$> (det <$> intersections cq !! i)).
Proof.
  split; [|split; [|split]].
  - intros edge_id e H. unfold vehicle_ids_of. rewrite H. repeat split.
  - intros ids. split; [apply candidates_readable | apply zone_counts_readable].
  - intros cb Hwf.
    destruct (sensing_loop_spec
                (fun data d =>
                   Binary.sense_approach sc
                     (Binary.candidates sc env (vehicle_ids_of env (edge data)))
                     step d) cb Hwf)
      as (cb' & Hloop & _ & Hin & _).
    exists cb'. split; [exact Hloop|]. intros i data Hi.
    rewrite (Hin i data Hi). now destruct (intersections cb !! i).
  - intros cq Hwf.
    destruct (sensing_loop_spec
                (fun data _ =>
                   QueueBased.measured
                     (QueueBased.zone_counts zc env (vehicle_ids_of env (edge data))))
                cq Hwf)
      as (cq' & Hloop & _ & Hin & _).
    exists cq'. split; [exact Hloop|]. intros i data Hi.
    rewrite (Hin i data Hi). now destruct (intersections cq !! i).
Qed.

(** With the vehicle list of R1 failing, R1 is sensed as empty and the pass
    returns in both variants. *)
Lemma sensing_fail_open_witness :
  exists cb' cq',
    edge_getLastStepVehicleIDs r1_feed_down "r1_in" = Raise TraCIException /\
    Binary.candidates Binary.sensors r1_feed_down
      (vehicle_ids_of r1_feed_down "r1_in") = (false, false) /\
    QueueBased.zone_counts QueueBased.zones r1_feed_down
      (vehicle_ids_of r1_feed_down "r1_in") = (0, 0, 0) /\
    well_formed (new_controller Binary.no_detection all_red_program) /\
    well_formed (new_controller QueueBased.no_detection all_red_program) /\
    Binary.update_sensors Binary.sensors r1_feed_down 5
      (new_controller Binary.no_detection all_red_program) = Ok cb' /\
    QueueBased.measure_queue_length QueueBased.zones r1_feed_down 5
      (new_controller QueueBased.no_detection all_red_program) = Ok cq'.
Proof.
  destruct (sensing_fail_open Binary.sensors QueueBased.zones r1_feed_down 5)
    as (Hdown & _ & Hb & Hq).
  assert (Hwb : well_formed (new_controller Binary.no_detection all_red_program)).
  { intros i Hi. assert (i = 0 \/ i = 1 \/ i = 2) as [-> | [-> | ->]] by lia;
      vm_compute; eexists; reflexivity. }
  assert (Hwq : well_formed (new_controller QueueBased.no_detection all_red_program)).
  { intros i Hi. assert (i = 0 \/ i = 1 \/ i = 2) as [-> | [-> | ->]] by lia;
      vm_compute; eexists; reflexivity. }
  destruct (Hb _ Hwb) as (cb' & Hrb & _).
  destruct (Hq _ Hwq) as (cq' & Hrq & _).
  destruct (Hdown "r1_in"%string TraCIException ltac:(vm_compute; reflexivity))
    as (_ & Hc & Hz).
  exists cb', cq'.
  split; [vm_compute; reflexivity|].
  repeat (split; [assumption|]). assumption.
Defined.

(** C8 as stated fails: the queries of one vehicle of R1 fail, and R1 is
    not sensed as empty: the other vehicle still raises both candidates and
    is still counted. *)
Lemma sensing_fail_open_counterexample :
  vehicle_ids_of ghost_at_r1 "r1_in" = ["ghost"; "veh0"]%string /\
  read_vehicle ghost_at_r1 "ghost" = Raise TraCIException /\
  Binary.candidates Binary.sensors ghost_at_r1 (vehicle_ids_of ghost_at_r1 "r1_in")
  = (true, true) /\
  QueueBased.zone_counts QueueBased.zones ghost_at_r1
    (vehicle_ids_of ghost_at_r1 "r1_in") = (1, 0, 0) /\
  detection_of (QueueBased.main timing QueueBased.zones all_red_program
                  [ghost_at_r1]) 0
  = Some {| QueueBased.vehicles_near := 1; QueueBased.vehicles_medium := 0;
            QueueBased.vehicles_far := 0; QueueBased.total_queue_length := 1 |}.
Proof. repeat split; vm_compute; reflexivity. Qed.

(** ** When a tick returns *)

Lemma track_waiting_time_total {D} env (c : SimulationController D) :
  metrics_available env ->
  exists c', Arbiter.track_waiting_time env c = Ok c'.
Proof.
  intros [_ Hedges]. unfold Arbiter.track_waiting_time.
  assert (H : forall xs, (forall p, In p xs -> In p INTERSECTIONS) ->
            forall c0 : SimulationController D, exists c',
              for_each xs
                (fun '(idx, data) c =>
                   let? ids := edge_getLastStepVehicleIDs env (edge data) in
                   for_each ids
                     (fun veh_id c =>
                        let? speed := vehicle_getSpeed env veh_id in
                        if Qltb speed (1 # 10)
                        then Ok (set_total_waiting_time (total_waiting_time c + 1) c)
                        else Ok c) c) c0 = Ok c').
  { induction xs as [|[idx data] xs IH]; intros Hin c0; cbn [for_each].
    - eauto.
    - destruct (Hedges idx data (Hin _ (or_introl eq_refl))) as (ids & -> & Hids).
      cbn [rbind].
      assert (Hinner : forall c1 : SimulationController D, exists c2,
                for_each ids
                  (fun veh_id c =>
                     let? speed := vehicle_getSpeed env veh_id in
                     if Qltb speed (1 # 10)
                     then Ok (set_total_waiting_time (total_waiting_time c + 1) c)
                     else Ok c) c1 = Ok c2).
      { clear - Hids. induction ids as [|v ids IHi]; intros c1; cbn [for_each].
        - eauto.
        - pose proof (Hids v (or_introl eq_refl)) as Hv.
          destruct (vehicle_getSpeed env v) as [speed|]; [|discriminate].
          cbn [rbind]. destruct (Qltb speed (1 # 10)); cbn [rbind];
            apply IHi; intros w Hw; apply Hids; now right. }
      destruct (Hinner c0) as (c2 & ->). cbn [rbind].
      apply IH. intros p Hp. apply Hin. now right. }
  apply H. auto.
Qed.

Section TickReturns.
Context {D : Type}.
Variable cfg : Timing.
Variable sense :
  Traci -> Z -> SimulationController D -> result (SimulationController D).
Variable priority_of : IntersectionState D -> Z -> Q.
Variable scaling_factor : Q.
Hypothesis sense_frame :
  forall env step c c', sense env step c = Ok c' -> same_control c c'.
Hypothesis sense_total :
  forall env step c, well_formed c -> exists c', sense env step c = Ok c'.
Hypothesis priority_floor :
  forall inter step, (1 # 10 <= priority_of inter step)%Q.

(** A tick whose metrics queries succeed returns, whatever the sensing
    queries do. *)
Lemma run_step_total env step (c : SimulationController D) :
  arbitration_invariant cfg scaling_factor c ->
  metrics_available env ->
  exists c', Arbiter.run_step cfg sense priority_of scaling_factor env step c
             = Ok c'.
Proof.
  intros Hinv Hm. unfold Arbiter.run_step.
  destruct (sense_total env step c (invariant_well_formed cfg scaling_factor c Hinv)) as (c1 & H1).
  rewrite H1. cbn [rbind].
  destruct (track_waiting_time_total env c1 Hm) as (c2 & H2).
  rewrite H2. cbn [rbind].
  destruct (Arbiter.count_processed env c2) as [c3|] eqn:H3.
  2:{ unfold Arbiter.count_processed in H3. destruct Hm as [Ha _].
      destruct (simulation_getArrivedIDList env); discriminate. }
  cbn [rbind].
  assert (Hsame : same_control c c3).
  { eapply same_control_trans; [exact (sense_frame _ _ _ _ H1)|].
    eapply same_control_trans;
      [exact (proj2 (track_waiting_time_frame _ _ _ H2))
      |exact (proj2 (count_processed_frame _ _ _ H3))]. }
  destruct (control_spec cfg priority_of scaling_factor priority_floor step c3
              (invariant_same_control cfg scaling_factor c c3 Hsame Hinv)) as (c' & Hc & _).
  eauto.
Qed.
End TickReturns.

Lemma binary_run_step_total cfg sc env step c :
  arbitration_invariant cfg (75 # 10) c ->
  metrics_available env ->
  exists c', Binary.run_step cfg sc env step c = Ok c'.
Proof.
  apply (run_step_total cfg (Binary.update_sensors sc) Binary.priority_of (75 # 10)
           (binary_sense_frame sc)); [|apply binary_priority_floor].
  intros env0 step0 c0 Hwf.
  destruct (sensing_loop_spec
              (fun data d =>
                 Binary.sense_approach sc
                   (Binary.candidates sc env0 (vehicle_ids_of env0 (edge data)))
                   step0 d) c0 Hwf) as (c' & H & _).
  eauto.
Qed.

Lemma queue_run_step_total cfg zc env step c :
  arbitration_invariant cfg (15 # 10) c ->
  metrics_available env ->
  exists c', QueueBased.run_step cfg zc env step c = Ok c'.
Proof.
  apply (run_step_total cfg (QueueBased.measure_queue_length zc)
           (QueueBased.priority_of zc) (15 # 10) (queue_sense_frame zc));
    [|apply queue_priority_floor].
  intros env0 step0 c0 Hwf.
  destruct (sensing_loop_spec
              (fun data _ =>
                 QueueBased.measured
                   (QueueBased.zone_counts zc env0 (vehicle_ids_of env0 (edge data))))
              c0 Hwf) as (c' & H & _).
  eauto.
Qed.

(** The waiting-time loop of [run_step] repeats the vehicle-list query
    outside any [try]: with the vehicle list of R1 failing, the sensing pass
    returns and the tick then raises before the traffic-light logic. *)
Lemma tick_aborts_when_feed_down :
  is_ok (Binary.update_sensors Binary.sensors r1_feed_down 0
           (new_controller Binary.no_detection all_red_program)) = true /\
  Binary.run_step timing Binary.sensors r1_feed_down 0
    (new_controller Binary.no_detection all_red_program) = Raise TraCIException /\
  is_ok (QueueBased.measure_queue_length QueueBased.zones r1_feed_down 0
           (new_controller QueueBased.no_detection all_red_program)) = true /\
  QueueBased.run_step timing QueueBased.zones r1_feed_down 0
    (new_controller QueueBased.no_detection all_red_program) = Raise TraCIException.
Proof. repeat split; vm_compute; reflexivity. Qed.

(** ** Construction *)

(** C9 (configuration validation), as the code has it.  The constructor
    takes no parameter and reads no constant: whatever the module constants
    are, construction succeeds and yields the same initial controller, and
    no later tick rejects them either: after any run, a tick whose metrics
    queries succeed returns.  The constants the scripts declare are valid. *)
Theorem construction_never_rejects (cfg : Timing) (sc : Binary.SensorConfig)
    (zc : QueueBased.ZoneConfig) (tl0 : list ascii) :
  Binary.init cfg sc tl0 = Ok (new_controller Binary.no_detection tl0) /\
  QueueBased.init cfg zc tl0 = Ok (new_controller QueueBased.no_detection tl0) /\
  (forall envs c env step,
      Binary.main cfg sc tl0 envs = Ok c ->
      metrics_available env ->
      exists c', Binary.run_step cfg sc env step c = Ok c') /\
  (forall envs c env step,
      QueueBased.main cfg zc tl0 envs = Ok c ->
      metrics_available env ->
      exists c', QueueBased.run_step cfg zc env step c = Ok c') /\
  valid_timing timing = true /\
  valid_radii Binary.sensors = true /\
  valid_zones QueueBased.zones = true.
Proof.
  split; [reflexivity|]. split; [reflexivity|]. split; [|split].
  - intros envs c env step Hrun Hm.
    exact (binary_run_step_total cfg sc env step c
             (binary_main_invariant _ _ _ _ _ Hrun) Hm).
  - intros envs c env step Hrun Hm.
    exact (queue_run_step_total cfg zc env step c
             (queue_main_invariant _ _ _ _ _ Hrun) Hm).
  - repeat split.
Qed.

(** With [G_MIN > G_MAX] and negative radii the controllers are constructed
    and the third tick of the run returns. *)
Lemma construction_never_rejects_witness :
  exists cb cb' cq cq',
    Binary.main inverted_timing negative_radii all_red_program
      (repeat waiting_at_r1 2) = Ok cb /\
    QueueBased.main inverted_timing negative_zones all_red_program
      (repeat waiting_at_r1 2) = Ok cq /\
    metrics_available waiting_at_r1 /\
    Binary.run_step inverted_timing negative_radii waiting_at_r1 2 cb = Ok cb' /\
    QueueBased.run_step inverted_timing negative_zones waiting_at_r1 2 cq = Ok cq'.
Proof.
  assert (Hm : metrics_available waiting_at_r1).
  { split; [reflexivity|]. intros idx data Hin. cbn in Hin.
    destruct Hin as [E | [E | [E | []]]]; inversion E; subst; clear E;
      eexists; (split; [vm_compute; reflexivity|]);
      intros v Hv; cbn in Hv;
      repeat match goal with H : _ \/ _ |- _ => destruct H end;
      try contradiction; subst; vm_compute; reflexivity. }
  destruct (construction_never_rejects inverted_timing negative_radii
              negative_zones all_red_program) as (_ & _ & Hb & Hq & _).
  destruct (Hb (repeat waiting_at_r1 2) _ waiting_at_r1 2
              ltac:(vm_compute; reflexivity) Hm) as (cb' & Hb').
  destruct (Hq (repeat waiting_at_r1 2) _ waiting_at_r1 2
              ltac:(vm_compute; reflexivity) Hm) as (cq' & Hq').
  eexists _, cb', _, cq'.
  split; [vm_compute; reflexivity|]. split; [vm_compute; reflexivity|].
  split; [exact Hm|]. split; [exact Hb' | exact Hq'].
Defined.

(** C9 as stated fails: with [G_MIN = 50 > G_MAX = 40] and a negative
    radius, construction succeeds and the run goes on with these values; the
    first GREEN is planned for 40 s, below [G_MIN]. *)
Lemma configuration_validation_counterexample :
  valid_timing inverted_timing = false /\
  valid_radii negative_radii = false /\
  valid_zones negative_zones = false /\
  is_ok (Binary.init inverted_timing negative_radii all_red_program) = true /\
  is_ok (QueueBased.init inverted_timing negative_zones all_red_program) = true /\
  planned_of (Binary.main inverted_timing negative_radii all_red_program
                (repeat waiting_at_r1 2)) 0 = Some 40.0%Q /\
  planned_of (QueueBased.main inverted_timing negative_zones all_red_program
                (repeat waiting_at_r1 2)) 0 = Some 40.0%Q.
Proof. repeat split; vm_compute; reflexivity. Qed.

Lemma starvation_monotone_witness :
  0 < 120 /\
  match Binary.get_priority (new_controller Binary.no_detection all_red_program) 0 0,
        Binary.get_priority (new_controller Binary.no_detection all_red_program) 0 120
  with
  | Ok p1, Ok p2 => (p1 <= p2)%Q
  | _, _ => False
  end /\
  match QueueBased.get_priority QueueBased.zones
          (new_controller QueueBased.no_detection all_red_program) 0 0,
        QueueBased.get_priority QueueBased.zones
          (new_controller QueueBased.no_detection all_red_program) 0 120
  with
  | Ok p1, Ok p2 => (p1 <= p2)%Q
  | _, _ => False
  end.
Proof.
  split; [lia|].
  pose proof (starvation_monotone
                (new_controller Binary.no_detection all_red_program)
                QueueBased.zones
                (new_controller QueueBased.no_detection all_red_program)
                0 0 120 ltac:(lia)) as [Hb Hq].
  split.
  - revert Hb.
    destruct (Binary.get_priority _ 0 0) eqn:E1;
      destruct (Binary.get_priority _ 0 120) eqn:E2; try tauto.
    vm_compute in E1. discriminate.
  - revert Hq.
    destruct (QueueBased.get_priority _ _ 0 0) eqn:E1;
      destruct (QueueBased.get_priority _ _ 0 120) eqn:E2; try tauto.
    vm_compute in E1. discriminate.
Defined.

Lemma winner_selection_total_witness :
  well_formed (new_controller Binary.no_detection all_red_program) /\
  well_formed (new_controller QueueBased.no_detection all_red_program) /\
  Binary.find_winner (new_controller Binary.no_detection all_red_program) 1
  = Ok (0, (1 # 10)%Q) /\
  QueueBased.find_winner QueueBased.zones
    (new_controller QueueBased.no_detection all_red_program) 1
  = Ok (0, (1 # 10)%Q) /\
  (exists w top,
      Binary.find_winner (new_controller Binary.no_detection all_red_program) 1
      = Ok (w, top) /\ w <> -1) /\
  (exists w top,
      QueueBased.find_winner QueueBased.zones
        (new_controller QueueBased.no_detection all_red_program) 1
      = Ok (w, top) /\ w <> -1).
Proof.
  assert (Hwb : well_formed (new_controller Binary.no_detection all_red_program)).
  { intros i Hi. assert (i = 0 \/ i = 1 \/ i = 2) as [-> | [-> | ->]] by lia;
      vm_compute; eexists; reflexivity. }
  assert (Hwq : well_formed (new_controller QueueBased.no_detection all_red_program)).
  { intros i Hi. assert (i = 0 \/ i = 1 \/ i = 2) as [-> | [-> | ->]] by lia;
      vm_compute; eexists; reflexivity. }
  split; [exact Hwb|]. split; [exact Hwq|].
  split; [vm_compute; reflexivity|]. split; [vm_compute; reflexivity|].
  destruct (winner_selection_total
              (new_controller Binary.no_detection all_red_program)
              QueueBased.zones
              (new_controller QueueBased.no_detection all_red_program)
              1 Hwb Hwq)
    as [(wb & tb & Hb & Hnb & _) (wq & tq & Hq & Hnq & _)].
  split; [exists wb, tb | exists wq, tq]; split; assumption.
Defined.

(* ===================================================================== *)
(** * Further properties of the two controllers *)
(* ===================================================================== *)

(** ** The program string *)

Lemma paint_length links state current_state :
  length (Arbiter.paint links state current_state) = length current_state.
Proof.
  unfold Arbiter.paint. revert current_state.
  induction links as [|l ls IH]; intros cs; cbn [List.fold_left].
  - reflexivity.
  - rewrite IH. destruct (l <? length cs)%nat; [apply length_insert | reflexivity].
Qed.

Lemma paint_lookup links state current_state (k : nat) :
  Arbiter.paint links state current_state !! k =
  if (existsb (Nat.eqb k) links && (k <? length current_state)%nat)%bool
  then Some state else current_state !! k.
Proof.
  unfold Arbiter.paint. revert current_state.
  induction links as [|l ls IH]; intros cs; cbn [List.fold_left existsb].
  - reflexivity.
  - rewrite IH. clear IH.
    destruct (Nat.ltb_spec l (length cs)) as [Hl | Hl].
    + rewrite length_insert.
      destruct (Nat.eqb_spec k l) as [-> | Hne]; cbn [orb].
      * destruct (existsb (Nat.eqb l) ls); cbn [andb];
          destruct (Nat.ltb_spec l (length cs)); try lia; try reflexivity.
        now apply list_lookup_insert_eq.
      * destruct (existsb (Nat.eqb k) ls && (k <? length cs)%nat)%bool;
          [reflexivity|].
        apply list_lookup_insert_ne. congruence.
    + destruct (Nat.eqb_spec k l) as [-> | Hne]; cbn [orb]; [|reflexivity].
      destruct (Nat.ltb_spec l (length cs)); [lia|].
      now rewrite andb_false_r.
Qed.

(** ** Properties kept by every primitive of the traffic-light logic *)

Lemma preserved_for_each {D A} (P : SimulationController D -> Prop)
    (body : A -> SimulationController D -> result (SimulationController D)) xs :
  (forall x, preserved_by P (body x)) ->
  preserved_by P (for_each xs body).
Proof.
  intros Hbody. induction xs as [|x xs IH]; intros c c' H Hc; cbn in H.
  - now inversion H; subst.
  - apply rbind_ok in H as (c1 & H1 & H2).
    exact (IH c1 c' H2 (Hbody x c c1 H1 Hc)).
Qed.

Section ControlClosure.
Context {D : Type}.
Variable P : SimulationController D -> Prop.
Hypothesis P_with_inter :
  forall idx f, (forall st, current_light (f st) = current_light st) ->
                preserved_by P (with_inter idx f).
Hypothesis P_set_traffic_light :
  forall idx state,
    state = "r"%char \/ state = "G"%char \/ state = "y"%char ->
    preserved_by P (Arbiter.set_traffic_light idx state).
Hypothesis P_active_idx : forall v c, P c -> P (set_active_idx v c).
Hypothesis P_is_all_red : forall v c, P c -> P (set_is_all_red v c).
Hypothesis P_all_red_start : forall v c, P c -> P (set_all_red_start v c).
Hypothesis P_cycle_count : forall v c, P c -> P (set_cycle_count v c).

Variable cfg : Timing.
Variable priority_of : IntersectionState D -> Z -> Q.
Variable scaling_factor : Q.

Lemma select_winner_preserves step :
  preserved_by P (Arbiter.select_winner cfg priority_of scaling_factor step).
Proof.
  intros c c' H Hc. unfold Arbiter.select_winner in H.
  apply rbind_ok in H as ([w top] & _ & H).
  apply rbind_ok in H as (c1 & H1 & H).
  assert (P1 : P c1).
  { refine (preserved_for_each P _ _ _ _ _ H1 (P_is_all_red false c Hc)).
    intros i s s' Hs Ps. destruct (i =? w); [now inversion Hs; subst|].
    exact (P_set_traffic_light i "r"%char (or_introl eq_refl) s s' Hs Ps). }
  destruct (w =? -1); [now inversion H; subst|].
  apply rbind_ok in H as (c2 & H2 & H).
  apply rbind_ok in H as (c3 & H3 & H).
  apply rbind_ok in H as (c4 & H4 & H).
  apply rbind_ok in H as (p & _ & H).
  apply rbind_ok in H as (c5 & H5 & H).
  assert (P2 : P c2).
  { refine (P_with_inter _ _ _ _ _ H2 (P_active_idx _ _ P1)). reflexivity. }
  assert (P3 : P c3).
  { refine (P_with_inter _ _ _ _ _ H3 P2). reflexivity. }
  assert (P4 : P c4).
  { refine (preserved_for_each P _ _ _ _ _ H4 P3).
    intros i s s' Hs Ps. destruct (i =? w); [now inversion Hs; subst|].
    refine (P_with_inter _ _ _ _ _ Hs Ps). reflexivity. }
  assert (P5 : P c5).
  { refine (P_with_inter _ _ _ _ _ H5 P4). reflexivity. }
  exact (P_set_traffic_light w "G"%char (or_intror (or_introl eq_refl)) c5 c' H P5).
Qed.

Lemma advance_active_preserves step :
  preserved_by P (Arbiter.advance_active cfg step).
Proof.
  intros c c' H Hc. unfold Arbiter.advance_active in H.
  apply rbind_ok in H as (inter & _ & H).
  destruct (String.eqb (current_light inter) "G").
  { destruct (Qleb _ _); [|now inversion H; subst].
    apply rbind_ok in H as (c1 & H1 & H).
    refine (P_with_inter _ _ _ _ _ H _); [reflexivity|].
    exact (P_set_traffic_light _ "y"%char (or_intror (or_intror eq_refl)) c c1 H1 Hc). }
  destruct (String.eqb (current_light inter) "Y"); [|now inversion H; subst].
  destruct (Qleb _ _); [|now inversion H; subst].
  apply rbind_ok in H as (c1 & H1 & H).
  apply rbind_ok in H as (c2 & H2 & H).
  inversion H; subst c'; clear H.
  apply P_cycle_count, P_all_red_start, P_is_all_red, P_active_idx.
  refine (P_with_inter _ _ _ _ _ H2 _); [reflexivity|].
  exact (P_set_traffic_light _ "r"%char (or_introl eq_refl) c c1 H1 Hc).
Qed.

Lemma control_preserves step :
  preserved_by P (Arbiter.control cfg priority_of scaling_factor step).
Proof.
  intros c c' H Hc. unfold Arbiter.control in H.
  destruct (is_all_red c).
  - destruct (Qleb _ _); [|now inversion H; subst].
    exact (select_winner_preserves step c c' H Hc).
  - destruct (negb _).
    + exact (advance_active_preserves step c c' H Hc).
    + inversion H; subst. now apply P_all_red_start, P_is_all_red.
Qed.
End ControlClosure.

Section RunClosure.
Context {D : Type}.
Variable P : SimulationController D -> Prop.
Variable cfg : Timing.
Variable sense :
  Traci -> Z -> SimulationController D -> result (SimulationController D).
Variable priority_of : IntersectionState D -> Z -> Q.
Variable scaling_factor : Q.
Hypothesis P_sense : forall env step, preserved_by P (sense env step).
Hypothesis P_waiting : forall v c, P c -> P (set_total_waiting_time v c).
Hypothesis P_processed : forall v c, P c -> P (set_vehicles_processed v c).
Hypothesis P_control :
  forall step, preserved_by P (Arbiter.control cfg priority_of scaling_factor step).

Lemma track_waiting_time_preserves env :
  preserved_by P (Arbiter.track_waiting_time env).
Proof.
  unfold Arbiter.track_waiting_time. apply preserved_for_each.
  intros [idx data] c c' H Hc.
  apply rbind_ok in H as (ids & _ & H).
  refine (preserved_for_each P _ _ _ _ _ H Hc).
  intros v s s' Hs Ps. apply rbind_ok in Hs as (speed & _ & Hs).
  destruct (Qltb speed (1 # 10)); inversion Hs; subst; auto.
Qed.

Lemma count_processed_preserves env :
  preserved_by P (Arbiter.count_processed env).
Proof.
  intros c c' H Hc. unfold Arbiter.count_processed in H.
  apply rbind_ok in H as (ids & _ & H). inversion H; subst c'; clear H.
  revert c Hc. induction ids as [|x ids IH]; intros c Hc; cbn [List.fold_left].
  - exact Hc.
  - apply IH. now apply P_processed.
Qed.

Lemma run_step_preserves env step :
  preserved_by P (Arbiter.run_step cfg sense priority_of scaling_factor env step).
Proof.
  intros c c' H Hc. unfold Arbiter.run_step in H.
  apply rbind_ok in H as (c1 & H1 & H).
  apply rbind_ok in H as (c2 & H2 & H).
  apply rbind_ok in H as (c3 & H3 & H).
  apply (P_control step c3 c' H).
  apply (count_processed_preserves env c2 c3 H3).
  apply (track_waiting_time_preserves env c1 c2 H2).
  exact (P_sense env step c c1 H1 Hc).
Qed.

Lemma main_loop_preserves envs : forall step,
  preserved_by P (Arbiter.main_loop cfg sense priority_of scaling_factor envs step).
Proof.
  induction envs as [|env envs IH]; intros step c c' H Hc; cbn in H.
  - now inversion H; subst.
  - destruct (step <? 3600); [|now inversion H; subst].
    apply rbind_ok in H as (c1 & H1 & H).
    exact (IH (step + 1) c1 c' H (run_step_preserves env step c c1 H1 Hc)).
Qed.
End RunClosure.

(** ** The program string follows the recorded lights *)

Lemma INTERSECTIONS_at_inv (idx : Z) (data : Approach) :
  INTERSECTIONS_at idx = Ok data ->
  (idx = 0 /\ tl_links data = [0; 1]%nat /\ edge data = "r1_in"%string) \/
  (idx = 1 /\ tl_links data = [2; 3]%nat /\ edge data = "r2_in"%string) \/
  (idx = 2 /\ tl_links data = [4; 5]%nat /\ edge data = "r3_in"%string).
Proof.
  unfold INTERSECTIONS_at, INTERSECTIONS. cbn [List.find fst snd].
  destruct (Z.eqb_spec 0 idx) as [<-|_];
    [| destruct (Z.eqb_spec 1 idx) as [<-|_];
       [| destruct (Z.eqb_spec 2 idx) as [<-|_]; [|discriminate]]];
    intros H; inversion H; subst; cbn; tauto.
Qed.

Lemma tl_links_disjoint i j di dj link :
  INTERSECTIONS_at i = Ok di -> INTERSECTIONS_at j = Ok dj ->
  In link (tl_links di) -> In link (tl_links dj) -> i = j.
Proof.
  intros Hi Hj Li Lj.
  apply INTERSECTIONS_at_inv in Hi as [(-> & Ei & _) | [(-> & Ei & _) | (-> & Ei & _)]];
    apply INTERSECTIONS_at_inv in Hj as [(-> & Ej & _) | [(-> & Ej & _) | (-> & Ej & _)]];
    try reflexivity; rewrite Ei in Li; rewrite Ej in Lj; cbn in Li, Lj; lia.
Qed.

Lemma tl_links_range i data link :
  INTERSECTIONS_at i = Ok data -> In link (tl_links data) -> (link < 6)%nat.
Proof.
  intros Hi Li.
  apply INTERSECTIONS_at_inv in Hi as [(_ & E & _) | [(_ & E & _) | (_ & E & _)]];
    rewrite E in Li; cbn in Li; lia.
Qed.

Lemma existsb_eqb_In (k : nat) (links : list nat) :
  existsb (Nat.eqb k) links = true <-> In k links.
Proof.
  rewrite existsb_exists. split.
  - intros (x & Hx & E). apply Nat.eqb_eq in E. now subst.
  - intros H. exists k. split; [exact H | apply Nat.eqb_refl].
Qed.

Section SetTrafficLight.
Context {D : Type}.
Implicit Type c : SimulationController D.

(** [set_traffic_light] returns exactly for an approach of the table that the
    dict holds; it paints the heads of that approach and records the
    upper-cased letter. *)
Lemma set_traffic_light_effect idx state c c' :
  Arbiter.set_traffic_light idx state c = Ok c' ->
  exists data st,
    INTERSECTIONS_at idx = Ok data /\
    intersections c !! idx = Some st /\
    c' = set_intersections
           (<[idx := set_current_light (String (upper state) EmptyString) st]>
              (intersections c))
           (set_tl_center (Arbiter.paint (tl_links data) state (tl_center c)) c).
Proof.
  unfold Arbiter.set_traffic_light. intros H.
  apply rbind_ok in H as (data & Hd & H).
  unfold with_inter, get_inter in H. ctl_simpl.
  destruct (intersections c !! idx) as [st|] eqn:E; [|discriminate].
  cbn in H. inversion H. eauto.
Qed.
End SetTrafficLight.

Section Actuation.
Context {D : Type}.
Variable tl0 : list ascii.
Hypothesis six_heads : (6 <= length tl0)%nat.
Implicit Type c : SimulationController D.

Lemma actuated_with_inter idx f :
  (forall st : IntersectionState D, current_light (f st) = current_light st) ->
  preserved_by (actuated tl0) (with_inter idx f).
Proof.
  intros Hf c c' H (Hlen & Hfollow & Hkeep & Hrest).
  unfold with_inter, get_inter in H.
  destruct (intersections c !! idx) as [st0|] eqn:E; [|discriminate].
  cbn in H. inversion H; subst c'; clear H.
  assert (Hlook : forall i st, <[idx := f st0]> (intersections c) !! i = Some st ->
            exists st1, intersections c !! i = Some st1 /\
                        current_light st = current_light st1).
  { intros i st Hi. destruct (decide (idx = i)) as [<- | Hne].
    - rewrite lookup_insert_eq in Hi. inversion Hi; subst. eauto.
    - rewrite lookup_insert_ne in Hi by exact Hne. eauto. }
  split; [exact Hlen|]. split; [|split; [|exact Hrest]].
  - intros i data st link letter Hd Hi Hl Hc. ctl_simpl.
    destruct (Hlook i st Hi) as (st1 & H1 & E1). rewrite E1 in Hc. eauto.
  - intros i data st link Hd Hi Hl Hc. ctl_simpl.
    destruct (Hlook i st Hi) as (st1 & H1 & E1). rewrite E1 in Hc. eauto.
Qed.

Lemma actuated_set_traffic_light idx state :
  state = "r"%char \/ state = "G"%char \/ state = "y"%char ->
  preserved_by (actuated tl0) (Arbiter.set_traffic_light (D := D) idx state).
Proof.
  intros Hstate c c' H (Hlen & Hfollow & Hkeep & Hrest).
  apply set_traffic_light_effect in H as (data0 & st0 & Hd0 & H0 & ->).
  assert (Hletter : command_letter (String (upper state) EmptyString) = Some state)
    by (destruct Hstate as [-> | [-> | ->]]; reflexivity).
  assert (Hother : forall i data link,
            INTERSECTIONS_at i = Ok data -> idx <> i -> In link (tl_links data) ->
            Arbiter.paint (tl_links data0) state (tl_center c) !! link
            = tl_center c !! link).
  { intros i data link Hd Hne Hl. rewrite paint_lookup.
    destruct (existsb (Nat.eqb link) (tl_links data0)) eqn:Ex; [|reflexivity].
    apply existsb_eqb_In in Ex. exfalso. apply Hne.
    exact (tl_links_disjoint idx i data0 data link Hd0 Hd Ex Hl). }
  split; [|split; [|split]]; ctl_simpl.
  - rewrite paint_length. exact Hlen.
  - intros i data st link letter Hd Hi Hl Hc. ctl_simpl.
    destruct (decide (idx = i)) as [<- | Hne].
    + rewrite lookup_insert_eq in Hi. inversion Hi; subst st; clear Hi.
      cbn [current_light set_current_light] in Hc. rewrite Hletter in Hc.
      inversion Hc; subst letter.
      assert (data = data0) by congruence. subst data.
      rewrite paint_lookup.
      assert (Ex : existsb (Nat.eqb link) (tl_links data0) = true)
        by (now apply existsb_eqb_In).
      pose proof (tl_links_range idx data0 link Hd0 Hl) as Hr.
      rewrite Ex. destruct (Nat.ltb_spec link (length (tl_center c))); [reflexivity|lia].
    + rewrite lookup_insert_ne in Hi by exact Hne.
      rewrite (Hother i data link Hd Hne Hl). eauto.
  - intros i data st link Hd Hi Hl Hc. ctl_simpl.
    destruct (decide (idx = i)) as [<- | Hne].
    + rewrite lookup_insert_eq in Hi. inversion Hi; subst st; clear Hi.
      cbn [current_light set_current_light] in Hc.
      destruct Hstate as [-> | [-> | ->]]; discriminate.
    + rewrite lookup_insert_ne in Hi by exact Hne.
      rewrite (Hother i data link Hd Hne Hl). eauto.
  - intros link Hl. rewrite paint_lookup.
    destruct (existsb (Nat.eqb link) (tl_links data0)) eqn:Ex; [|now apply Hrest].
    apply existsb_eqb_In in Ex.
    pose proof (tl_links_range idx data0 link Hd0 Ex). lia.
Qed.

Lemma actuated_same_control c c' :
  same_control c c' -> actuated tl0 c -> actuated tl0 c'.
Proof.
  intros Hsame (Hlen & Hfollow & Hkeep & Hrest).
  pose proof Hsame as (_ & _ & _ & _ & Htl & _).
  unfold actuated, heads_follow, heads_untouched. rewrite Htl.
  split; [exact Hlen|]. split; [|split; [|exact Hrest]].
  - intros i data st link letter Hd Hi Hl Hc.
    destruct (same_control_lookup c c' i st Hsame Hi) as (st1 & H1 & Hview).
    rewrite (control_view_light _ _ Hview) in Hc. eauto.
  - intros i data st link Hd Hi Hl Hc.
    destruct (same_control_lookup c c' i st Hsame Hi) as (st1 & H1 & Hview).
    rewrite (control_view_light _ _ Hview) in Hc. eauto.
Qed.

Lemma actuated_control cfg priority_of scaling_factor step :
  preserved_by (actuated tl0)
    (Arbiter.control (D := D) cfg priority_of scaling_factor step).
Proof.
  apply control_preserves;
    auto using actuated_with_inter, actuated_set_traffic_light.
Qed.

Lemma actuated_new_controller (d0 : D) :
  actuated tl0 (new_controller d0 tl0).
Proof.
  split; [reflexivity|]. split; [|split].
  - intros i data st link letter _ Hi _ Hc.
    rewrite new_controller_lookup in Hi.
    destruct (decide (0 <= i <= 2)); inversion Hi; subst. discriminate.
  - reflexivity.
  - reflexivity.
Qed.
End Actuation.

Lemma binary_main_actuated cfg sc tl0 envs c :
  (6 <= length tl0)%nat ->
  Binary.main cfg sc tl0 envs = Ok c -> actuated tl0 c.
Proof.
  intros Hsix H. unfold Binary.main, Binary.init in H. cbn [rbind] in H.
  refine (main_loop_preserves (actuated tl0) cfg (Binary.update_sensors sc)
            Binary.priority_of (75 # 10) _ _ _ _ envs 0 _ c H
            (actuated_new_controller tl0 _)).
  - intros env step s s' Hs. apply actuated_same_control.
    exact (binary_sense_frame sc env step s s' Hs).
  - intros v s Hs. exact Hs.
  - intros v s Hs. exact Hs.
  - intros step. now apply actuated_control.
Qed.

Lemma queue_main_actuated cfg zc tl0 envs c :
  (6 <= length tl0)%nat ->
  QueueBased.main cfg zc tl0 envs = Ok c -> actuated tl0 c.
Proof.
  intros Hsix H. unfold QueueBased.main, QueueBased.init in H. cbn [rbind] in H.
  refine (main_loop_preserves (actuated tl0) cfg (QueueBased.measure_queue_length zc)
            (QueueBased.priority_of zc) (15 # 10) _ _ _ _ envs 0 _ c H
            (actuated_new_controller tl0 _)).
  - intros env step s s' Hs. apply actuated_same_control.
    exact (queue_sense_frame zc env step s s' Hs).
  - intros v s Hs. exact Hs.
  - intros v s Hs. exact Hs.
  - intros step. now apply actuated_control.
Qed.

(** X1 (the program string follows the lights).  When the traffic light has
    at least six signal heads, after every tick of a run of either
    controller the program string has kept its length; the two heads of an
    approach that has received a command show the letter of its recorded
    light ('r', 'G' or 'y'); the heads of an approach that has not, and the
    heads beyond the sixth, are those of the initial program. *)
Theorem program_follows_lights (cfg : Timing) (sc : Binary.SensorConfig)
    (zc : QueueBased.ZoneConfig) (tl0 : list ascii) (envs : list Traci) :
  (6 <= length tl0)%nat ->
  (forall c, Binary.main cfg sc tl0 envs = Ok c ->
             length (tl_center c) = length tl0 /\
             heads_follow c /\ heads_untouched tl0 c) /\
  (forall c, QueueBased.main cfg zc tl0 envs = Ok c ->
             length (tl_center c) = length tl0 /\
             heads_follow c /\ heads_untouched tl0 c).
Proof.
  intros Hsix. split; intros c H.
  - exact (binary_main_actuated cfg sc tl0 envs c Hsix H).
  - exact (queue_main_actuated cfg zc tl0 envs c Hsix H).
Qed.

(** After five ticks with a vehicle at R1, R1 is GREEN and the program reads
    GGrrrr in both controllers. *)
Lemma program_follows_lights_witness :
  exists cb cq,
    (6 <= length all_red_program)%nat /\
    Binary.main timing Binary.sensors all_red_program (repeat waiting_at_r1 5) = Ok cb /\
    QueueBased.main timing QueueBased.zones all_red_program (repeat waiting_at_r1 5) = Ok cq /\
    tl_center cb = list_ascii_of_string "GGrrrr" /\
    tl_center cq = list_ascii_of_string "GGrrrr" /\
    heads_follow cb /\ heads_follow cq.
Proof.
  assert (Hsix : (6 <= length all_red_program)%nat) by (vm_compute; lia).
  destruct (program_follows_lights timing Binary.sensors QueueBased.zones
              all_red_program (repeat waiting_at_r1 5) Hsix) as (Hb & Hq).
  eexists _, _.
  split; [exact Hsix|].
  split; [vm_compute; reflexivity|]. split; [vm_compute; reflexivity|].
  split; [vm_compute; reflexivity|]. split; [vm_compute; reflexivity|].
  split.
  - apply (Hb _ ltac:(vm_compute; reflexivity)).
  - apply (Hq _ ltac:(vm_compute; reflexivity)).
Defined.

(** X2 (what [set_traffic_light] writes).  A call that returns names an
    approach of the table held by the dict.  It never changes the length of
    the program string: it writes the letter into those heads of the approach
    that exist and into no other head, and it records the upper-cased letter
    as the approach's light even when the string is too short for a head.
    Every other field of the controller and every other approach is left as
    it was. *)
Theorem set_traffic_light_writes {D} (idx : Z) (state : ascii)
    (c c' : SimulationController D) :
  Arbiter.set_traffic_light idx state c = Ok c' ->
  exists data st,
    INTERSECTIONS_at idx = Ok data /\
    intersections c !! idx = Some st /\
    length (tl_center c') = length (tl_center c) /\
    (forall k : nat,
        tl_center c' !! k =
        if (existsb (Nat.eqb k) (tl_links data)
            && (k <? length (tl_center c))%nat)%bool
        then Some state else tl_center c !! k) /\
    intersections c' !! idx
    = Some (set_current_light (String (upper state) EmptyString) st) /\
    (forall i, i <> idx -> intersections c' !! i = intersections c !! i) /\
    active_idx c' = active_idx c /\ is_all_red c' = is_all_red c /\
    all_red_start c' = all_red_start c /\ cycle_count c' = cycle_count c /\
    total_waiting_time c' = total_waiting_time c /\
    vehicles_processed c' = vehicles_processed c.
Proof.
  intros H. apply set_traffic_light_effect in H as (data & st & Hd & Hst & ->).
  exists data, st. ctl_simpl.
  split; [exact Hd|]. split; [exact Hst|].
  split; [apply paint_length|]. split; [intros k; apply paint_lookup|].
  split; [apply lookup_insert_eq|].
  split; [intros i Hi; apply lookup_insert_ne; congruence|].
  repeat split.
Qed.

(** A program of one head: R1 is commanded GREEN, head 0 is written, head 1
    does not exist and the call still records the light. *)
Lemma set_traffic_light_writes_witness :
  exists c',
    Arbiter.set_traffic_light 0 "G"
      (new_controller Binary.no_detection ["r"%char]) = Ok c' /\
    length (tl_center c') = 1%nat /\
    tl_center c' !! 0%nat = Some "G"%char /\
    tl_center c' !! 1%nat = None /\
    current_light <$> intersections c' !! 0 = Some "G"%string.
Proof.
  eexists. split; [vm_compute; reflexivity|].
  match goal with
  | |- length (tl_center ?c') = _ /\ _ =>
      destruct (set_traffic_light_writes 0 "G"
                  (new_controller Binary.no_detection ["r"%char]) c'
                  ltac:(vm_compute; reflexivity))
        as (data & st & Hd & _ & Hlen & Hk & Hl & _)
  end.
  vm_compute in Hd. inversion Hd; subst data; clear Hd.
  split; [rewrite Hlen; reflexivity|].
  split; [rewrite Hk; reflexivity|].
  split; [rewrite Hk; reflexivity|].
  rewrite Hl. reflexivity.
Defined.

(** ** The metrics counters *)

Section Metrics.
Context {D : Type}.
Implicit Type c : SimulationController D.

Lemma metrics_with_inter w p idx f :
  preserved_by (metrics_are (D := D) w p) (with_inter idx f).
Proof.
  intros c c' H Hc. unfold with_inter, get_inter in H.
  destruct (intersections c !! idx); [|discriminate].
  cbn in H. inversion H; subst. exact Hc.
Qed.

Lemma metrics_set_traffic_light w p idx state :
  preserved_by (metrics_are (D := D) w p) (Arbiter.set_traffic_light idx state).
Proof.
  intros c c' H Hc.
  apply set_traffic_light_effect in H as (data & st & _ & _ & ->). exact Hc.
Qed.

Lemma metrics_control w p cfg priority_of scaling_factor step :
  preserved_by (metrics_are (D := D) w p)
    (Arbiter.control cfg priority_of scaling_factor step).
Proof.
  apply control_preserves;
    auto using metrics_with_inter, metrics_set_traffic_light.
Qed.

Lemma waiting_loop env ids : forall c c',
  for_each ids
    (fun veh_id c =>
       let? speed := vehicle_getSpeed env veh_id in
       if Qltb speed (1 # 10)
       then Ok (set_total_waiting_time (total_waiting_time c + 1) c)
       else Ok c) c = Ok c' ->
  same_but_metrics c c' /\
  vehicles_processed c' = vehicles_processed c /\
  total_waiting_time c' =
  total_waiting_time c
  + count_of (fun veh_id =>
                match vehicle_getSpeed env veh_id with
                | Ok speed => Qltb speed (1 # 10)
                | Raise _ => false
                end) ids.
Proof.
  induction ids as [|v ids IH]; intros c c' H; cbn [for_each] in H.
  - inversion H; subst. unfold count_of. cbn.
    split; [split; [reflexivity | apply same_control_refl]|].
    split; [reflexivity | lia].
  - apply rbind_ok in H as (c1 & H1 & H).
    apply rbind_ok in H1 as (speed & Hs & H1).
    destruct (IH c1 c' H) as (Hsame & Hp & Hw).
    unfold count_of in *. cbn [List.filter]. rewrite Hs.
    destruct (Qltb speed (1 # 10)); inversion H1; subst c1; clear H1; ctl_simpl.
    + split.
      { eapply same_but_metrics_trans; [|exact Hsame].
        split; [reflexivity | repeat split]. }
      split; [exact Hp|]. rewrite Hw. cbn [length]. lia.
    + split; [exact Hsame|]. split; [exact Hp | exact Hw].
Qed.

Lemma track_waiting_time_effect env c c' :
  Arbiter.track_waiting_time env c = Ok c' ->
  vehicles_processed c' = vehicles_processed c /\
  total_waiting_time c' =
  total_waiting_time c
  + (standing env "r1_in" + standing env "r2_in" + standing env "r3_in").
Proof.
  unfold Arbiter.track_waiting_time, INTERSECTIONS. cbn [for_each edge].
  intros H.
  apply rbind_ok in H as (c1 & H1 & H).
  apply rbind_ok in H as (c2 & H2 & H).
  apply rbind_ok in H as (c3 & H3 & H).
  inversion H; subst c3; clear H.
  apply rbind_ok in H1 as (ids1 & E1 & H1).
  apply rbind_ok in H2 as (ids2 & E2 & H2).
  apply rbind_ok in H3 as (ids3 & E3 & H3).
  apply waiting_loop in H1 as (_ & P1 & W1).
  apply waiting_loop in H2 as (_ & P2 & W2).
  apply waiting_loop in H3 as (_ & P3 & W3).
  unfold standing, vehicle_ids_of. rewrite E1, E2, E3. cbn [try_except].
  split; [congruence | lia].
Qed.

Lemma count_processed_effect env c c' :
  Arbiter.count_processed env c = Ok c' ->
  total_waiting_time c' = total_waiting_time c /\
  vehicles_processed c' = vehicles_processed c + arrived env.
Proof.
  unfold Arbiter.count_processed, arrived. intros H.
  apply rbind_ok in H as (ids & -> & H). cbn [try_except].
  inversion H; subst c'; clear H.
  revert c. induction ids as [|x ids IH]; intros c; cbn [List.fold_left length].
  - split; [reflexivity | cbn; lia].
  - destruct (IH (set_vehicles_processed (vehicles_processed c + 1) c)) as (Hw & Hp).
    ctl_simpl. split; [exact Hw|]. rewrite Hp. lia.
Qed.

Variable cfg : Timing.
Variable sense :
  Traci -> Z -> SimulationController D -> result (SimulationController D).
Variable priority_of : IntersectionState D -> Z -> Q.
Variable scaling_factor : Q.
Hypothesis sense_metrics :
  forall w p env step, preserved_by (metrics_are w p) (sense env step).

Lemma run_step_metrics env step c c' :
  Arbiter.run_step cfg sense priority_of scaling_factor env step c = Ok c' ->
  total_waiting_time c' =
  total_waiting_time c
  + (standing env "r1_in" + standing env "r2_in" + standing env "r3_in") /\
  vehicles_processed c' = vehicles_processed c + arrived env.
Proof.
  intros H. unfold Arbiter.run_step in H.
  apply rbind_ok in H as (c1 & H1 & H).
  apply rbind_ok in H as (c2 & H2 & H).
  apply rbind_ok in H as (c3 & H3 & H).
  destruct (sense_metrics _ _ env step c c1 H1 (conj eq_refl eq_refl)) as (W1 & P1).
  apply track_waiting_time_effect in H2 as (P2 & W2).
  apply count_processed_effect in H3 as (W3 & P3).
  destruct (metrics_control _ _ cfg priority_of scaling_factor step c3 c' H
              (conj eq_refl eq_refl)) as (W4 & P4).
  split; congruence.
Qed.

Lemma count_of_nonneg {A} (test : A -> bool) (xs : list A) : 0 <= count_of test xs.
Proof. unfold count_of. lia. Qed.

Lemma main_loop_metrics_grow envs : forall step c c',
  Arbiter.main_loop cfg sense priority_of scaling_factor envs step c = Ok c' ->
  total_waiting_time c <= total_waiting_time c' /\
  vehicles_processed c <= vehicles_processed c'.
Proof.
  induction envs as [|env envs IH]; intros step c c' H; cbn in H.
  - inversion H; subst. lia.
  - destruct (step <? 3600); [|inversion H; subst; lia].
    apply rbind_ok in H as (c1 & H1 & H).
    apply run_step_metrics in H1 as (W & P).
    apply IH in H as (W' & P').
    pose proof (count_of_nonneg
                  (fun veh_id => match vehicle_getSpeed env veh_id with
                                 | Ok speed => Qltb speed (1 # 10)
                                 | Raise _ => false
                                 end)) as Hn.
    pose proof (Hn (vehicle_ids_of env "r1_in")).
    pose proof (Hn (vehicle_ids_of env "r2_in")).
    pose proof (Hn (vehicle_ids_of env "r3_in")).
    unfold standing, arrived in *. lia.
Qed.
End Metrics.

Lemma sensing_loop_metrics {D} (measure : Approach -> D -> D) w p :
  preserved_by (metrics_are w p)
    (for_each INTERSECTIONS
       (fun '(idx, data) (c : SimulationController D) =>
          with_inter idx (fun inter => set_det (measure data (det inter)) inter) c)).
Proof.
  apply preserved_for_each. intros [idx data]. apply metrics_with_inter.
Qed.

(** X3 (metrics counters).  A tick that returns adds to [total_waiting_time]
    the number of vehicles listed on the three inbound edges whose speed
    reads below 0.1 m/s, and to [vehicles_processed] the number of vehicles
    that arrived; nothing else in the tick writes the two counters, so over a
    run they start at zero and never decrease. *)
Theorem tick_metrics (cfg : Timing) (sc : Binary.SensorConfig)
    (zc : QueueBased.ZoneConfig) (env : Traci) (step : Z) :
  (forall c c',
      Binary.run_step cfg sc env step c = Ok c' ->
      total_waiting_time c' =
      total_waiting_time c
      + (standing env "r1_in" + standing env "r2_in" + standing env "r3_in") /\
      vehicles_processed c' = vehicles_processed c + arrived env) /\
  (forall c c',
      QueueBased.run_step cfg zc env step c = Ok c' ->
      total_waiting_time c' =
      total_waiting_time c
      + (standing env "r1_in" + standing env "r2_in" + standing env "r3_in") /\
      vehicles_processed c' = vehicles_processed c + arrived env) /\
  (forall tl0 envs c,
      Binary.main cfg sc tl0 envs = Ok c ->
      0 <= total_waiting_time c /\ 0 <= vehicles_processed c) /\
  (forall tl0 envs c,
      QueueBased.main cfg zc tl0 envs = Ok c ->
      0 <= total_waiting_time c /\ 0 <= vehicles_processed c).
Proof.
  split; [|split; [|split]].
  - intros c c'.
    apply (run_step_metrics cfg (Binary.update_sensors sc) Binary.priority_of
             (75 # 10)).
    intros w p env0 step0.
    apply (sensing_loop_metrics
             (fun data d =>
                Binary.sense_approach sc
                  (Binary.candidates sc env0 (vehicle_ids_of env0 (edge data)))
                  step0 d)).
  - intros c c'.
    apply (run_step_metrics cfg (QueueBased.measure_queue_length zc)
             (QueueBased.priority_of zc) (15 # 10)).
    intros w p env0 step0.
    apply (sensing_loop_metrics
             (fun data _ =>
                QueueBased.measured
                  (QueueBased.zone_counts zc env0 (vehicle_ids_of env0 (edge data))))).
  - intros tl0 envs c H. unfold Binary.main, Binary.init in H. cbn [rbind] in H.
    apply (main_loop_metrics_grow cfg (Binary.update_sensors sc) Binary.priority_of
             (75 # 10)) in H; [exact H|].
    intros w p env0 step0.
    apply (sensing_loop_metrics
             (fun data d =>
                Binary.sense_approach sc
                  (Binary.candidates sc env0 (vehicle_ids_of env0 (edge data)))
                  step0 d)).
  - intros tl0 envs c H. unfold QueueBased.main, QueueBased.init in H.
    cbn [rbind] in H.
    apply (main_loop_metrics_grow cfg (QueueBased.measure_queue_length zc)
             (QueueBased.priority_of zc) (15 # 10)) in H; [exact H|].
    intros w p env0 step0.
    apply (sensing_loop_metrics
             (fun data _ =>
                QueueBased.measured
                  (QueueBased.zone_counts zc env0 (vehicle_ids_of env0 (edge data))))).
Qed.

(** Twenty ticks with one vehicle standing at R1: twenty waiting seconds. *)
Lemma tick_metrics_witness :
  exists cb cb',
    Binary.main timing Binary.sensors all_red_program (repeat waiting_at_r1 19) = Ok cb /\
    Binary.run_step timing Binary.sensors waiting_at_r1 19 cb = Ok cb' /\
    standing waiting_at_r1 "r1_in" = 1 /\
    total_waiting_time cb = 19 /\
    total_waiting_time cb' = 20 /\
    vehicles_processed cb' = 0.
Proof.
  destruct (tick_metrics timing Binary.sensors QueueBased.zones waiting_at_r1 19)
    as (Hb & _).
  eexists _, _.
  split; [vm_compute; reflexivity|]. split; [vm_compute; reflexivity|].
  match goal with
  | |- _ /\ total_waiting_time ?c = _ /\ total_waiting_time ?c' = _ /\ _ =>
      destruct (Hb c c' ltac:(vm_compute; reflexivity)) as (Hw & Hp)
  end.
  split; [vm_compute; reflexivity|]. split; [vm_compute; reflexivity|].
  split; [rewrite Hw; vm_compute; reflexivity|].
  rewrite Hp. vm_compute. reflexivity.
Defined.

(** ** The four outcomes of the traffic-light logic *)

Section Outcomes.
Context {D : Type}.
Variable cfg : Timing.
Variable priority_of : IntersectionState D -> Z -> Q.
Variable scaling_factor : Q.
Hypothesis priority_floor :
  forall inter step, (1 # 10 <= priority_of inter step)%Q.
Implicit Type c : SimulationController D.

Lemma advance_active_exact step c st :
  0 <= active_idx c <= 2 ->
  intersections c !! active_idx c = Some st ->
  exists c',
    Arbiter.advance_active cfg step c = Ok c' /\
    if is_green (current_light st) then
      if Qleb (planned_duration st) (inject_Z (step - state_start st)) then
        active_idx c' = active_idx c /\ is_all_red c' = is_all_red c /\
        all_red_start c' = all_red_start c /\ cycle_count c' = cycle_count c /\
        intersections c' = <[active_idx c := to_yellow step st]> (intersections c)
      else c' = c
    else if is_yellow (current_light st) then
      if Qleb (YELLOW_TIME cfg) (inject_Z (step - state_start st)) then
        active_idx c' = -1 /\ is_all_red c' = true /\
        all_red_start c' = step /\ cycle_count c' = cycle_count c + 1 /\
        intersections c' = <[active_idx c := to_red step st]> (intersections c)
      else c' = c
    else c' = c.
Proof.
  intros Ha Hst. unfold Arbiter.advance_active, get_inter, is_green, is_yellow.
  rewrite Hst. cbn [rbind].
  destruct (String.eqb (current_light st) "G") eqn:EG.
  { destruct (Qleb (planned_duration st) _) eqn:EQ; [|eauto].
    repeat run_primitive. eexists. split; [reflexivity|].
    ctl_simpl. rewrite insert_insert_eq. repeat split. }
  destruct (String.eqb (current_light st) "Y") eqn:EY; [|eauto].
  destruct (Qleb (YELLOW_TIME cfg) _) eqn:EQ; [|eauto].
  repeat run_primitive. eexists. split; [reflexivity|].
  ctl_simpl. rewrite insert_insert_eq. repeat split.
Qed.

(** On a controller that satisfies the invariant the traffic-light logic
    returns, and does one of four things: nothing (a guard is not met), a
    winner selection, the end of GREEN, or the end of YELLOW. *)
Lemma control_outcomes step c :
  arbitration_invariant cfg scaling_factor c ->
  exists c',
    Arbiter.control cfg priority_of scaling_factor step c = Ok c' /\
    ((c' = c /\
      (is_all_red c = true ->
       Qleb (ALL_RED_TIME cfg) (inject_Z (step - all_red_start c)) = false) /\
      (is_all_red c = false ->
       exists st, intersections c !! active_idx c = Some st /\
         (is_green (current_light st) = true ->
          Qleb (planned_duration st) (inject_Z (step - state_start st)) = false) /\
         (is_yellow (current_light st) = true ->
          Qleb (YELLOW_TIME cfg) (inject_Z (step - state_start st)) = false))) \/
     (is_all_red c = true /\
      Qleb (ALL_RED_TIME cfg) (inject_Z (step - all_red_start c)) = true /\
      exists w, 0 <= w <= 2 /\
        active_idx c' = w /\ is_all_red c' = false /\
        all_red_start c' = all_red_start c /\ cycle_count c' = cycle_count c /\
        forall i st, intersections c !! i = Some st ->
          intersections c' !! i
          = Some (if i =? w
                  then granted cfg priority_of scaling_factor step st
                  else denied st)) \/
     (is_all_red c = false /\
      exists st, intersections c !! active_idx c = Some st /\
        is_green (current_light st) = true /\
        Qleb (planned_duration st) (inject_Z (step - state_start st)) = true /\
        active_idx c' = active_idx c /\ is_all_red c' = false /\
        all_red_start c' = all_red_start c /\ cycle_count c' = cycle_count c /\
        forall i st0, intersections c !! i = Some st0 ->
          intersections c' !! i
          = Some (if i =? active_idx c then to_yellow step st0 else st0)) \/
     (is_all_red c = false /\
      exists st, intersections c !! active_idx c = Some st /\
        is_yellow (current_light st) = true /\
        Qleb (YELLOW_TIME cfg) (inject_Z (step - state_start st)) = true /\
        active_idx c' = -1 /\ is_all_red c' = true /\
        all_red_start c' = step /\ cycle_count c' = cycle_count c + 1 /\
        forall i st0, intersections c !! i = Some st0 ->
          intersections c' !! i
          = Some (if i =? active_idx c then to_red step st0 else st0))).
Proof.
  intros Hinv.
  pose proof Hinv as (Hk & Hgap & Hact & Hred & Hrow & Hplan).
  unfold Arbiter.control.
  destruct (is_all_red c) eqn:Egap.
  - destruct (Qleb (ALL_RED_TIME cfg) _) eqn:Eq.
    2:{ exists c. split; [reflexivity|]. left.
        split; [reflexivity|]. split; [auto | discriminate]. }
    destruct (select_winner_spec cfg priority_of scaling_factor
                priority_floor step c (invariant_well_formed _ _ c Hinv))
      as (w & top & c' & _ & Hw & Hsel & Ha' & Hg' & Hs' & Hc' & Hin & _).
    exists c'. split; [exact Hsel|]. right; left.
    split; [reflexivity|]. split; [reflexivity|].
    exists w. repeat (split; [assumption|]).
    intros i st Hi. assert (Hr : 0 <= i <= 2) by (apply Hk; eauto).
    rewrite (Hin i Hr), Hi. reflexivity.
  - assert (Hbusy : active_idx c <> -1).
    { intros E. apply Hgap in E. congruence. }
    assert (Hrange : 0 <= active_idx c <= 2) by lia.
    destruct (Z.eqb_spec (active_idx c) (-1)) as [|_]; [contradiction|].
    cbn [negb].
    destruct (proj2 (Hk _) Hrange) as [st Hst].
    destruct (advance_active_exact step c st Hrange Hst) as (c' & Hadv & Hcase).
    exists c'. split; [exact Hadv|].
    assert (Hpoint : forall f : IntersectionState D -> IntersectionState D,
              intersections c' = <[active_idx c := f st]> (intersections c) ->
              forall i st0, intersections c !! i = Some st0 ->
                intersections c' !! i
                = Some (if i =? active_idx c then f st0 else st0)).
    { intros f Hm i st0 Hi. rewrite Hm.
      destruct (Z.eqb_spec i (active_idx c)) as [-> | Hne].
      - rewrite lookup_insert_eq. congruence.
      - rewrite lookup_insert_ne by congruence. exact Hi. }
    destruct (is_green (current_light st)) eqn:EG.
    { destruct (Qleb (planned_duration st) _) eqn:EQ.
      - destruct Hcase as (A1 & A2 & A3 & A4 & A5).
        right; right; left. split; [reflexivity|]. exists st.
        repeat (split; [first [assumption | reflexivity | congruence]|]).
        now apply Hpoint.
      - subst c'. left. split; [reflexivity|]. split; [discriminate|].
        intros _. exists st. split; [exact Hst|]. split; [auto|].
        intros Hy. unfold is_green, is_yellow in *.
        apply String.eqb_eq in EG. rewrite EG in Hy. discriminate. }
    destruct (is_yellow (current_light st)) eqn:EY.
    { destruct (Qleb (YELLOW_TIME cfg) _) eqn:EQ.
      - destruct Hcase as (A1 & A2 & A3 & A4 & A5).
        right; right; right. split; [reflexivity|]. exists st.
        repeat (split; [first [assumption | reflexivity]|]).
        now apply Hpoint.
      - subst c'. left. split; [reflexivity|]. split; [discriminate|].
        intros _. exists st. split; [exact Hst|]. split; [congruence | auto]. }
    subst c'. left. split; [reflexivity|]. split; [discriminate|].
    intros _. exists st. split; [exact Hst|]. split; congruence.
Qed.
End Outcomes.

Section TickControl.
Context {D : Type}.
Variable cfg : Timing.
Variable sense :
  Traci -> Z -> SimulationController D -> result (SimulationController D).
Variable priority_of : IntersectionState D -> Z -> Q.
Variable scaling_factor : Q.
Hypothesis sense_frame :
  forall env step c c', sense env step c = Ok c' -> same_control c c'.

(** A tick is the traffic-light logic run on a controller that differs from
    the one before the tick in detection fields and metrics only. *)
Lemma run_step_control env step (c c' : SimulationController D) :
  Arbiter.run_step cfg sense priority_of scaling_factor env step c = Ok c' ->
  exists c3, same_control c c3 /\
             Arbiter.control cfg priority_of scaling_factor step c3 = Ok c'.
Proof.
  intros H. unfold Arbiter.run_step in H.
  apply rbind_ok in H as (c1 & H1 & H).
  apply rbind_ok in H as (c2 & H2 & H).
  apply rbind_ok in H as (c3 & H3 & H).
  exists c3. split; [|exact H].
  eapply same_control_trans; [exact (sense_frame _ _ _ _ H1)|].
  eapply same_control_trans;
    [exact (proj2 (track_waiting_time_frame _ _ _ H2))
    |exact (proj2 (count_processed_frame _ _ _ H3))].
Qed.
End TickControl.

(** ** Properties of the control state along a run *)

Section ControlInvariants.
Context {D : Type}.
Variable cfg : Timing.
Variable sense :
  Traci -> Z -> SimulationController D -> result (SimulationController D).
Variable priority_of : IntersectionState D -> Z -> Q.
Variable scaling_factor : Q.
Hypothesis sense_frame :
  forall env step c c', sense env step c = Ok c' -> same_control c c'.
Hypothesis priority_floor :
  forall inter step, (1 # 10 <= priority_of inter step)%Q.

Variable K : SimulationController D -> Prop.
Hypothesis K_same_control : forall c c', same_control c c' -> K c -> K c'.
Hypothesis K_control :
  forall step c c',
    arbitration_invariant cfg scaling_factor c -> K c ->
    Arbiter.control cfg priority_of scaling_factor step c = Ok c' -> K c'.

Lemma run_step_keeps env step c c' :
  arbitration_invariant cfg scaling_factor c -> K c ->
  Arbiter.run_step cfg sense priority_of scaling_factor env step c = Ok c' ->
  K c'.
Proof.
  intros Hinv Hk H.
  destruct (run_step_control cfg sense priority_of scaling_factor sense_frame
              env step c c' H) as (c3 & Hsame & Hc).
  exact (K_control step c3 c'
           (invariant_same_control cfg scaling_factor c c3 Hsame Hinv)
           (K_same_control c c3 Hsame Hk) Hc).
Qed.

Lemma main_loop_keeps envs : forall step c c',
  arbitration_invariant cfg scaling_factor c -> K c ->
  Arbiter.main_loop cfg sense priority_of scaling_factor envs step c = Ok c' ->
  K c'.
Proof.
  induction envs as [|env envs IH]; intros step c c' Hinv Hk H; cbn in H.
  - now inversion H; subst.
  - destruct (step <? 3600); [|now inversion H; subst].
    apply rbind_ok in H as (c1 & H1 & H).
    apply (IH (step + 1) c1 c'); [| |exact H].
    + now apply (run_step_spec cfg sense priority_of scaling_factor sense_frame
                   priority_floor env step c c1).
    + exact (run_step_keeps env step c c1 Hinv Hk H1).
Qed.
End ControlInvariants.

(** ** Consecutive greens *)

Section ConsecutiveGreens.
Context {D : Type}.
Implicit Type c : SimulationController D.

Lemma control_view_greens (st st' : IntersectionState D) :
  control_view st' = control_view st ->
  consecutive_greens st' = consecutive_greens st.
Proof. intros H. exact (f_equal consecutive_greens H). Qed.

Lemma greens_accounted_same_control c c' :
  same_control c c' -> greens_accounted c -> greens_accounted c'.
Proof.
  intros Hsame (Hn & Hone & Hact).
  pose proof Hsame as (Ha & _).
  split; [|split].
  - intros i st' H'.
    destruct (same_control_lookup c c' i st' Hsame H') as (st & H & Hv).
    rewrite (control_view_greens _ _ Hv). eauto.
  - intros i j si' sj' Hi Hj Hne.
    destruct (same_control_lookup c c' i si' Hsame Hi) as (si & Hi0 & Hvi).
    destruct (same_control_lookup c c' j sj' Hsame Hj) as (sj & Hj0 & Hvj).
    rewrite (control_view_greens _ _ Hvi), (control_view_greens _ _ Hvj). eauto.
  - intros st' H'. rewrite Ha in H'.
    destruct (same_control_lookup c c' _ st' Hsame H') as (st & H & Hv).
    rewrite (control_view_greens _ _ Hv). eauto.
Qed.

(** The record of an approach after the traffic-light logic, from its
    record before. *)
Lemma outcome_lookup c c' (F : Z -> IntersectionState D -> IntersectionState D) :
  (forall i, is_Some (intersections c !! i) <-> 0 <= i <= 2) ->
  (forall i, is_Some (intersections c' !! i) <-> 0 <= i <= 2) ->
  (forall i st, intersections c !! i = Some st ->
                intersections c' !! i = Some (F i st)) ->
  forall i st', intersections c' !! i = Some st' ->
    exists st, intersections c !! i = Some st /\ st' = F i st.
Proof.
  intros Hk Hk' HF i st' H'.
  assert (Hr : 0 <= i <= 2) by (apply Hk'; eauto).
  destruct (proj2 (Hk i) Hr) as [st Hst].
  exists st. split; [exact Hst|]. rewrite (HF i st Hst) in H'. congruence.
Qed.

Lemma greens_accounted_control cfg priority_of scaling_factor
    (priority_floor : forall inter step, (1 # 10 <= priority_of inter step)%Q)
    step c c' :
  arbitration_invariant cfg scaling_factor c -> greens_accounted c ->
  Arbiter.control cfg priority_of scaling_factor step c = Ok c' ->
  greens_accounted c'.
Proof.
  intros Hinv (Hn & Hone & Hact) H.
  pose proof Hinv as (Hk & _).
  destruct (control_spec cfg priority_of scaling_factor priority_floor step c Hinv)
    as (c0 & Hc0 & (Hk' & _) & _).
  assert (c0 = c') by congruence. subst c0. clear Hc0.
  destruct (control_outcomes cfg priority_of scaling_factor priority_floor step c Hinv)
    as (c'' & Hc & Hcase).
  assert (c'' = c') by congruence. subst c''.
  destruct Hcase as [(-> & _) | [Hs | [Hy | Hr]]].
  - repeat split; assumption.
  - destruct Hs as (_ & _ & w & Hw & Ha' & _ & _ & _ & HF).
    pose proof (outcome_lookup c c' _ Hk Hk' HF) as Hback.
    split; [|split].
    + intros i st' H'. destruct (Hback i st' H') as (st & Hst & ->).
      pose proof (Hn i st Hst). destruct (i =? w); cbn; lia.
    + intros i j si' sj' Hi Hj Hne.
      destruct (Hback i si' Hi) as (si & _ & ->).
      destruct (Hback j sj' Hj) as (sj & _ & ->).
      destruct (Z.eqb_spec i w); destruct (Z.eqb_spec j w); cbn; try tauto.
      congruence.
    + intros st' H'. rewrite Ha' in H'.
      destruct (Hback w st' H') as (st & Hst & ->).
      pose proof (Hn w st Hst). rewrite Z.eqb_refl. cbn. lia.
  - destruct Hy as (_ & st & Hst & _ & _ & Ha' & _ & _ & _ & HF).
    pose proof (outcome_lookup c c' _ Hk Hk' HF) as Hback.
    split; [|split].
    + intros i st' H'. destruct (Hback i st' H') as (st0 & Hst0 & ->).
      pose proof (Hn i st0 Hst0). now destruct (i =? active_idx c).
    + intros i j si' sj' Hi Hj Hne.
      destruct (Hback i si' Hi) as (si & Hi0 & ->).
      destruct (Hback j sj' Hj) as (sj & Hj0 & ->).
      pose proof (Hone i j si sj Hi0 Hj0 Hne).
      now destruct (i =? active_idx c), (j =? active_idx c).
    + intros st' H'. rewrite Ha' in H'.
      destruct (Hback _ st' H') as (st0 & Hst0 & ->).
      rewrite Z.eqb_refl. cbn. eauto.
  - destruct Hr as (_ & st & Hst & _ & _ & Ha' & _ & _ & _ & HF).
    pose proof (outcome_lookup c c' _ Hk Hk' HF) as Hback.
    split; [|split].
    + intros i st' H'. destruct (Hback i st' H') as (st0 & Hst0 & ->).
      pose proof (Hn i st0 Hst0). now destruct (i =? active_idx c).
    + intros i j si' sj' Hi Hj Hne.
      destruct (Hback i si' Hi) as (si & Hi0 & ->).
      destruct (Hback j sj' Hj) as (sj & Hj0 & ->).
      pose proof (Hone i j si sj Hi0 Hj0 Hne).
      now destruct (i =? active_idx c), (j =? active_idx c).
    + intros st' H'. rewrite Ha' in H'. exfalso.
      assert (0 <= -1 <= 2) by (apply Hk'; eauto). lia.
Qed.

Lemma greens_accounted_new_controller (d0 : D) tl0 :
  greens_accounted (new_controller d0 tl0).
Proof.
  split; [|split].
  - intros i st H. rewrite new_controller_lookup in H.
    destruct (decide (0 <= i <= 2)); inversion H; subst. cbn. lia.
  - intros i j si sj Hi _ _. rewrite new_controller_lookup in Hi.
    destruct (decide (0 <= i <= 2)); inversion Hi; subst. now left.
  - intros st H. rewrite new_controller_lookup in H. cbn in H.
    destruct (decide (0 <= -1 <= 2)); [lia | discriminate].
Qed.
End ConsecutiveGreens.

Section TickGreens.
Context {D : Type}.
Variable cfg : Timing.
Variable sense :
  Traci -> Z -> SimulationController D -> result (SimulationController D).
Variable priority_of : IntersectionState D -> Z -> Q.
Variable scaling_factor : Q.
Hypothesis sense_frame :
  forall env step c c', sense env step c = Ok c' -> same_control c c'.
Hypothesis priority_floor :
  forall inter step, (1 # 10 <= priority_of inter step)%Q.

Lemma main_loop_greens envs step (c c' : SimulationController D) :
  arbitration_invariant cfg scaling_factor c -> greens_accounted c ->
  Arbiter.main_loop cfg sense priority_of scaling_factor envs step c = Ok c' ->
  greens_accounted c'.
Proof.
  apply (main_loop_keeps cfg sense priority_of scaling_factor sense_frame
           priority_floor greens_accounted).
  - apply greens_accounted_same_control.
  - intros s c0 c1. now apply greens_accounted_control.
Qed.

(** The counts change at a winner selection only: plus one for the winner,
    zero for the others. *)
Lemma run_step_greens env step (c c' : SimulationController D) :
  arbitration_invariant cfg scaling_factor c ->
  Arbiter.run_step cfg sense priority_of scaling_factor env step c = Ok c' ->
  forall i st st',
    intersections c !! i = Some st -> intersections c' !! i = Some st' ->
    consecutive_greens st' = consecutive_greens st \/
    (is_all_red c = true /\ is_all_red c' = false /\
     ((i = active_idx c' /\ consecutive_greens st' = consecutive_greens st + 1) \/
      (i <> active_idx c' /\ consecutive_greens st' = 0))).
Proof.
  intros Hinv H i st st' Hi Hi'.
  destruct (run_step_control cfg sense priority_of scaling_factor sense_frame
              env step c c' H) as (c3 & Hsame & Hc).
  pose proof (invariant_same_control cfg scaling_factor c c3 Hsame Hinv) as Hinv3.
  pose proof Hsame as (_ & Hg3 & _).
  destruct (proj2 (proj1 Hinv3 i) (proj1 (proj1 Hinv i) (ex_intro _ st Hi)))
    as [st3 H3].
  destruct (same_control_lookup c c3 i st3 Hsame H3) as (st0 & H0 & Hv).
  assert (st0 = st) by congruence. subst st0.
  apply control_view_greens in Hv.
  destruct (control_outcomes cfg priority_of scaling_factor priority_floor step c3 Hinv3)
    as (c'' & Hc' & Hcase).
  assert (c'' = c') by congruence. subst c''.
  destruct Hcase as [(-> & _) | [Hs | [Hy | Hr]]].
  - left. congruence.
  - destruct Hs as (Hgap & _ & w & Hw & Ha' & Hg' & _ & _ & HF).
    right. rewrite <- Hg3. split; [exact Hgap|]. split; [exact Hg'|].
    rewrite (HF i st3 H3) in Hi'. inversion Hi'; subst st'. rewrite Ha'.
    destruct (Z.eqb_spec i w) as [-> | Hne]; cbn.
    + left. split; [reflexivity | lia].
    + right. split; [exact Hne | reflexivity].
  - destruct Hy as (_ & sa & _ & _ & _ & _ & _ & _ & _ & HF).
    left. rewrite (HF i st3 H3) in Hi'. inversion Hi'; subst st'.
    now destruct (i =? active_idx c3).
  - destruct Hr as (_ & sa & _ & _ & _ & _ & _ & _ & _ & HF).
    left. rewrite (HF i st3 H3) in Hi'. inversion Hi'; subst st'.
    now destruct (i =? active_idx c3).
Qed.
End TickGreens.

(** X4 (consecutive greens).  After every tick of a run of either
    controller no consecutive-green count is negative, at most one approach
    has a non-zero count, and the active approach has a count of at least
    one.  A further tick changes the counts at a winner selection only: the
    winner's count goes up by one and the two others are reset to zero. *)
Theorem consecutive_greens_accounting (cfg : Timing) (sc : Binary.SensorConfig)
    (zc : QueueBased.ZoneConfig) (tl0 : list ascii) (envs : list Traci) :
  (forall c,
      Binary.main cfg sc tl0 envs = Ok c ->
      greens_accounted c /\
      forall env step c' i st st',
        Binary.run_step cfg sc env step c = Ok c' ->
        intersections c !! i = Some st -> intersections c' !! i = Some st' ->
        consecutive_greens st' = consecutive_greens st \/
        (is_all_red c = true /\ is_all_red c' = false /\
         ((i = active_idx c' /\ consecutive_greens st' = consecutive_greens st + 1) \/
          (i <> active_idx c' /\ consecutive_greens st' = 0)))) /\
  (forall c,
      QueueBased.main cfg zc tl0 envs = Ok c ->
      greens_accounted c /\
      forall env step c' i st st',
        QueueBased.run_step cfg zc env step c = Ok c' ->
        intersections c !! i = Some st -> intersections c' !! i = Some st' ->
        consecutive_greens st' = consecutive_greens st \/
        (is_all_red c = true /\ is_all_red c' = false /\
         ((i = active_idx c' /\ consecutive_greens st' = consecutive_greens st + 1) \/
          (i <> active_idx c' /\ consecutive_greens st' = 0)))).
Proof.
  split; intros c Hrun.
  - pose proof (binary_main_invariant _ _ _ _ _ Hrun) as Hinv.
    split.
    + unfold Binary.main, Binary.init in Hrun. cbn [rbind] in Hrun.
      refine (main_loop_greens cfg (Binary.update_sensors sc) Binary.priority_of
                (75 # 10) (binary_sense_frame sc) binary_priority_floor
                envs 0 _ c (new_controller_invariant _ _ _ _)
                (greens_accounted_new_controller _ _) Hrun).
    + intros env step c' i st st' Hstep.
      exact (run_step_greens cfg (Binary.update_sensors sc) Binary.priority_of
               (75 # 10) (binary_sense_frame sc) binary_priority_floor
               env step c c' Hinv Hstep i st st').
  - pose proof (queue_main_invariant _ _ _ _ _ Hrun) as Hinv.
    split.
    + unfold QueueBased.main, QueueBased.init in Hrun. cbn [rbind] in Hrun.
      refine (main_loop_greens cfg (QueueBased.measure_queue_length zc)
                (QueueBased.priority_of zc) (15 # 10) (queue_sense_frame zc)
                (queue_priority_floor zc)
                envs 0 _ c (new_controller_invariant _ _ _ _)
                (greens_accounted_new_controller _ _) Hrun).
    + intros env step c' i st st' Hstep.
      exact (run_step_greens cfg (QueueBased.measure_queue_length zc)
               (QueueBased.priority_of zc) (15 # 10) (queue_sense_frame zc)
               (queue_priority_floor zc) env step c c' Hinv Hstep i st st').
Qed.

(** One tick into the run the controller is still in the gap; the second
    tick selects R1, whose count goes from 0 to 1. *)
Lemma consecutive_greens_accounting_witness :
  exists c c' st st',
    Binary.main timing Binary.sensors all_red_program [waiting_at_r1] = Ok c /\
    Binary.run_step timing Binary.sensors waiting_at_r1 1 c = Ok c' /\
    intersections c !! 0 = Some st /\ intersections c' !! 0 = Some st' /\
    active_idx c' = 0 /\
    consecutive_greens st = 0 /\ consecutive_greens st' = 1 /\
    greens_accounted c.
Proof.
  destruct (consecutive_greens_accounting timing Binary.sensors QueueBased.zones
              all_red_program [waiting_at_r1]) as (Hb & _).
  eexists _, _, _, _.
  split; [vm_compute; reflexivity|]. split; [vm_compute; reflexivity|].
  split; [vm_compute; reflexivity|]. split; [vm_compute; reflexivity|].
  split; [vm_compute; reflexivity|]. split; [vm_compute; reflexivity|].
  match goal with
  | |- consecutive_greens ?st' = 1 /\ greens_accounted ?c =>
      destruct (Hb c ltac:(vm_compute; reflexivity)) as (Hacc & Htick)
  end.
  split; [|exact Hacc].
  match goal with
  | |- consecutive_greens ?st' = 1 =>
      edestruct (Htick waiting_at_r1 1 _ 0 _ st'
                   ltac:(vm_compute; reflexivity) ltac:(vm_compute; reflexivity)
                   ltac:(vm_compute; reflexivity))
        as [Hsame | (_ & _ & [(_ & Hup) | (Hne & _)])]
  end.
  - vm_compute. reflexivity.
  - vm_compute. reflexivity.
  - vm_compute. reflexivity.
Defined.

(** ** The green time of the binary controller *)

Lemma binary_priority_after_win (inter : IntersectionState Binary.Detection)
    (step : Z) :
  1 <= consecutive_greens inter ->
  (Binary.priority_of inter step <= 1)%Q.
Proof.
  intros Hcg. unfold Binary.priority_of.
  apply py_max_lub; [|discriminate].
  pose proof (py_min_cap (inject_Z (step - last_green_end inter) / 120) 1) as Hw.
  assert (Hp : (1 <= inject_Z (consecutive_greens inter))%Q)
    by (rewrite (Zle_Qle 1) in Hcg; exact Hcg).
  destruct (Binary.near_sensor_occupied (det inter)),
           (Binary.far_sensor_occupied (det inter)); lra.
Qed.

Lemma binary_green_time_after_win (priority : Q) :
  (priority <= 1)%Q ->
  (Arbiter.calculate_green_time timing (75 # 10) priority <= 17.5)%Q.
Proof.
  intros Hp. unfold Arbiter.calculate_green_time.
  cbn [G_MIN G_MAX timing].
  set (g := py_min (py_max (10 + priority * (75 # 10)) 10) 40).
  assert (Hlo : (10 <= g)%Q) by (apply clamp_bounds; discriminate).
  assert (Hhi : (g <= 17.5)%Q).
  { unfold g. eapply Qle_trans; [apply py_min_left|].
    apply py_max_lub; [lra | discriminate]. }
  assert (H : 100 <= round_half_even (g * 10) <= 175).
  { apply round_half_even_bounds.
    - apply Qle_trans with (10 * 10)%Q; [discriminate | lra].
    - apply Qle_trans with (17.5 * 10)%Q; [lra | discriminate]. }
  unfold round1, Qle. cbn. lia.
Qed.

Lemma binary_cap_same_control (c c' : SimulationController Binary.Detection) :
  same_control c c' ->
  greens_accounted c /\ planned_at_most 17.5 c ->
  greens_accounted c' /\ planned_at_most 17.5 c'.
Proof.
  intros Hsame [Hg Hp]. split; [now apply (greens_accounted_same_control c)|].
  intros i st' H'.
  destruct (same_control_lookup c c' i st' Hsame H') as (st & H & Hv).
  rewrite (control_view_planned _ _ Hv). eauto.
Qed.

Lemma binary_cap_control step (c c' : SimulationController Binary.Detection) :
  arbitration_invariant timing (75 # 10) c ->
  greens_accounted c /\ planned_at_most 17.5 c ->
  Arbiter.control timing Binary.priority_of (75 # 10) step c = Ok c' ->
  greens_accounted c' /\ planned_at_most 17.5 c'.
Proof.
  intros Hinv [Hg Hp] H.
  split; [exact (greens_accounted_control timing Binary.priority_of (75 # 10)
                   binary_priority_floor step c c' Hinv Hg H)|].
  pose proof Hinv as (Hk & _).
  destruct (control_spec timing Binary.priority_of (75 # 10) binary_priority_floor
              step c Hinv) as (c0 & Hc0 & (Hk' & _) & _).
  assert (c0 = c') by congruence. subst c0. clear Hc0.
  destruct (control_outcomes timing Binary.priority_of (75 # 10)
              binary_priority_floor step c Hinv) as (c'' & Hc & Hcase).
  assert (c'' = c') by congruence. subst c''.
  destruct Hg as (Hn & _ & _).
  intros i st' H'.
  destruct Hcase as [(-> & _) | [Hs | [Hy | Hr]]].
  - eauto.
  - destruct Hs as (_ & _ & w & _ & _ & _ & _ & _ & HF).
    destruct (outcome_lookup c c' _ Hk Hk' HF i st' H') as (st & Hst & ->).
    destruct (i =? w); [|exact (Hp i st Hst)].
    unfold granted. cbn [planned_duration set_current_light set_planned_duration].
    apply binary_green_time_after_win, binary_priority_after_win.
    cbn. pose proof (Hn i st Hst). lia.
  - destruct Hy as (_ & sa & _ & _ & _ & _ & _ & _ & _ & HF).
    destruct (outcome_lookup c c' _ Hk Hk' HF i st' H') as (st & Hst & ->).
    pose proof (Hp i st Hst). now destruct (i =? active_idx c).
  - destruct Hr as (_ & sa & _ & _ & _ & _ & _ & _ & _ & HF).
    destruct (outcome_lookup c c' _ Hk Hk' HF i st' H') as (st & Hst & ->).
    pose proof (Hp i st Hst). now destruct (i =? active_idx c).
Qed.

(** X5 (green time of the binary controller).  The green time is computed
    from the winner's score after its consecutive-green count has been
    incremented, so the score used is at most 1: with the constants of the
    script no planned duration ever exceeds 17.5 s, far below [G_MAX], and a
    GREEN approach holds one of at least [G_MIN]. *)
Theorem binary_green_time_cap (sc : Binary.SensorConfig) (tl0 : list ascii)
    (envs : list Traci) (c : SimulationController Binary.Detection) :
  Binary.main timing sc tl0 envs = Ok c ->
  forall i st, intersections c !! i = Some st ->
    (planned_duration st <= 17.5)%Q /\
    (is_green (current_light st) = true -> (10 <= planned_duration st)%Q).
Proof.
  intros Hrun i st Hst.
  pose proof (binary_main_invariant _ _ _ _ _ Hrun) as Hinv.
  split.
  - unfold Binary.main, Binary.init in Hrun. cbn [rbind] in Hrun.
    refine (proj2 (main_loop_keeps timing (Binary.update_sensors sc)
                     Binary.priority_of (75 # 10) (binary_sense_frame sc)
                     binary_priority_floor
                     (fun c => greens_accounted c /\ planned_at_most 17.5 c)
                     binary_cap_same_control binary_cap_control
                     envs 0 _ c (new_controller_invariant _ _ _ _) _ Hrun) i st Hst).
    split; [apply greens_accounted_new_controller|].
    intros j sj Hj. rewrite new_controller_lookup in Hj.
    destruct (decide (0 <= j <= 2)); inversion Hj; subst. discriminate.
  - intros Hg. exact (proj1 (invariant_planned_bounds _ c Hinv i st Hst Hg)).
Qed.

(** A vehicle at R1 for 200 ticks, both sensors occupied most of the time:
    the planned duration of R1 never went above 17.5 s. *)
Lemma binary_green_time_cap_witness :
  exists c st,
    Binary.main timing Binary.sensors all_red_program (repeat waiting_at_r1 200) = Ok c /\
    intersections c !! 0 = Some st /\
    (planned_duration st <= 17.5)%Q.
Proof.
  eexists _, _.
  split; [vm_compute; reflexivity|]. split; [vm_compute; reflexivity|].
  eapply (binary_green_time_cap Binary.sensors all_red_program
            (repeat waiting_at_r1 200) _ ltac:(vm_compute; reflexivity) 0).
  vm_compute. reflexivity.
Defined.

(** ** Phase durations *)

Section PhaseDurations.
Context {D : Type}.
Variable cfg : Timing.
Variable sense :
  Traci -> Z -> SimulationController D -> result (SimulationController D).
Variable priority_of : IntersectionState D -> Z -> Q.
Variable scaling_factor : Q.
Hypothesis sense_frame :
  forall env step c c', sense env step c = Ok c' -> same_control c c'.
Hypothesis priority_floor :
  forall inter step, (1 # 10 <= priority_of inter step)%Q.
Implicit Type c : SimulationController D.

Local Abbreviation run_step :=
  (Arbiter.run_step cfg sense priority_of scaling_factor).

Lemma control_view_start (st st' : IntersectionState D) :
  control_view st' = control_view st -> state_start st' = state_start st.
Proof. intros H. exact (f_equal state_start H). Qed.

(** The controller seen by the traffic-light logic of a tick, and the
    record of the active approach in it. *)
Lemma tick_setup env step c c' :
  arbitration_invariant cfg scaling_factor c ->
  run_step env step c = Ok c' ->
  exists c3,
    arbitration_invariant cfg scaling_factor c3 /\
    is_all_red c3 = is_all_red c /\ all_red_start c3 = all_red_start c /\
    active_idx c3 = active_idx c /\ cycle_count c3 = cycle_count c /\
    (forall i st3, intersections c3 !! i = Some st3 ->
       exists st, intersections c !! i = Some st /\
                  control_view st3 = control_view st) /\
    Arbiter.control cfg priority_of scaling_factor step c3 = Ok c'.
Proof.
  intros Hinv H.
  destruct (run_step_control cfg sense priority_of scaling_factor sense_frame
              env step c c' H) as (c3 & Hsame & Hc).
  exists c3. pose proof Hsame as (A & B & C & E & _ & _).
  split; [exact (invariant_same_control cfg scaling_factor c c3 Hsame Hinv)|].
  repeat (split; [assumption|]). split; [|exact Hc].
  intros i st3 H3. exact (same_control_lookup c c3 i st3 Hsame H3).
Qed.

(** In the gap: the winner is selected on the first tick at which the gap
    has lasted [ALL_RED_TIME], and not before. *)
Lemma gap_duration env step c c' :
  arbitration_invariant cfg scaling_factor c ->
  run_step env step c = Ok c' ->
  is_all_red c = true ->
  if Qleb (ALL_RED_TIME cfg) (inject_Z (step - all_red_start c))
  then is_all_red c' = false /\ 0 <= active_idx c' <= 2 /\
       exists st', intersections c' !! active_idx c' = Some st' /\
                   current_light st' = "G"%string /\ state_start st' = step
  else is_all_red c' = true /\ active_idx c' = -1 /\
       all_red_start c' = all_red_start c.
Proof.
  intros Hinv H Hgap.
  destruct (tick_setup env step c c' Hinv H)
    as (c3 & Hinv3 & Hg3 & Hs3 & Ha3 & _ & _ & Hc).
  destruct (control_outcomes cfg priority_of scaling_factor priority_floor step c3 Hinv3)
    as (c'' & Hc' & Hcase).
  assert (c'' = c') by congruence. subst c''.
  rewrite <- Hs3. rewrite <- Hg3 in Hgap.
  destruct Hcase as [(-> & Hno & _) | [Hs | [Hy | Hr]]].
  - rewrite (Hno Hgap). split; [exact Hgap|]. split; [|reflexivity].
    now apply (proj1 (proj2 Hinv3)).
  - destruct Hs as (_ & -> & w & Hw & Ha' & Hg' & _ & _ & HF).
    split; [exact Hg'|]. rewrite Ha'. split; [exact Hw|].
    destruct (proj2 (proj1 Hinv3 w) Hw) as [st Hst].
    eexists. split; [rewrite (HF w st Hst), Z.eqb_refl; reflexivity|].
    split; reflexivity.
  - destruct Hy as (Hf & _). congruence.
  - destruct Hr as (Hf & _). congruence.
Qed.

(** GREEN ends on the first tick at which it has lasted the planned
    duration, and not before. *)
Lemma green_duration env step c c' st :
  arbitration_invariant cfg scaling_factor c ->
  run_step env step c = Ok c' ->
  intersections c !! active_idx c = Some st ->
  is_green (current_light st) = true ->
  exists st',
    intersections c' !! active_idx c = Some st' /\
    active_idx c' = active_idx c /\ cycle_count c' = cycle_count c /\
    if Qleb (planned_duration st) (inject_Z (step - state_start st))
    then current_light st' = "Y"%string /\ state_start st' = step
    else current_light st' = "G"%string /\ state_start st' = state_start st.
Proof.
  intros Hinv H Hst Hgreen.
  destruct (tick_setup env step c c' Hinv H)
    as (c3 & Hinv3 & Hg3 & Hs3 & Ha3 & Hc3 & Hview & Hc).
  assert (Hr : 0 <= active_idx c <= 2) by (apply (proj1 Hinv); eauto).
  assert (Hbusy : is_all_red c3 = false).
  { destruct (is_all_red c3) eqn:E; [|reflexivity].
    apply (proj1 (proj2 Hinv3)) in E. lia. }
  destruct (control_outcomes cfg priority_of scaling_factor priority_floor step c3 Hinv3)
    as (c'' & Hc' & Hcase).
  assert (c'' = c') by congruence. subst c''.
  assert (Hsame : forall st3, intersections c3 !! active_idx c3 = Some st3 ->
            current_light st3 = current_light st /\
            planned_duration st3 = planned_duration st /\
            state_start st3 = state_start st).
  { intros st3 H3. destruct (Hview _ st3 H3) as (st0 & H0 & Hv).
    rewrite Ha3 in H0. assert (st0 = st) by congruence. subst st0.
    split; [exact (control_view_light _ _ Hv)|].
    split; [exact (control_view_planned _ _ Hv) | exact (control_view_start _ _ Hv)]. }
  rewrite <- Ha3.
  destruct Hcase as [(-> & _ & Hno) | [Hs | [Hy | Hr']]].
  - destruct (Hno Hbusy) as (st3 & H3 & Hng & _).
    destruct (Hsame st3 H3) as (El & Ep & Es).
    exists st3. split; [exact H3|]. split; [reflexivity|]. split; [exact Hc3|].
    rewrite <- Ep, <- Es, (Hng ltac:(now rewrite El)).
    split; [|reflexivity]. rewrite El. now apply String.eqb_eq.
  - destruct Hs as (Hf & _). congruence.
  - destruct Hy as (_ & st3 & H3 & _ & Hq & Ha' & _ & _ & Hcc & HF).
    destruct (Hsame st3 H3) as (El & Ep & Es).
    eexists. split; [rewrite (HF _ st3 H3), Z.eqb_refl; reflexivity|].
    split; [exact Ha'|]. split; [congruence|].
    rewrite <- Ep, <- Es, Hq. split; reflexivity.
  - destruct Hr' as (_ & st3 & H3 & Hyel & _).
    destruct (Hsame st3 H3) as (El & _). exfalso.
    unfold is_green, is_yellow in *. rewrite El in Hyel.
    apply String.eqb_eq in Hgreen. rewrite Hgreen in Hyel. discriminate.
Qed.

(** YELLOW ends on the first tick at which it has lasted [YELLOW_TIME]: the
    approach turns RED, its green end is stamped, the cycle is counted and
    the gap starts. *)
Lemma yellow_duration env step c c' st :
  arbitration_invariant cfg scaling_factor c ->
  run_step env step c = Ok c' ->
  intersections c !! active_idx c = Some st ->
  is_yellow (current_light st) = true ->
  exists st',
    intersections c' !! active_idx c = Some st' /\
    if Qleb (YELLOW_TIME cfg) (inject_Z (step - state_start st))
    then current_light st' = "R"%string /\ last_green_end st' = step /\
         active_idx c' = -1 /\ is_all_red c' = true /\
         all_red_start c' = step /\ cycle_count c' = cycle_count c + 1
    else current_light st' = "Y"%string /\ active_idx c' = active_idx c /\
         is_all_red c' = false /\ cycle_count c' = cycle_count c.
Proof.
  intros Hinv H Hst Hyellow.
  destruct (tick_setup env step c c' Hinv H)
    as (c3 & Hinv3 & Hg3 & Hs3 & Ha3 & Hc3 & Hview & Hc).
  assert (Hr : 0 <= active_idx c <= 2) by (apply (proj1 Hinv); eauto).
  assert (Hbusy : is_all_red c3 = false).
  { destruct (is_all_red c3) eqn:E; [|reflexivity].
    apply (proj1 (proj2 Hinv3)) in E. lia. }
  destruct (control_outcomes cfg priority_of scaling_factor priority_floor step c3 Hinv3)
    as (c'' & Hc' & Hcase).
  assert (c'' = c') by congruence. subst c''.
  assert (Hsame : forall st3, intersections c3 !! active_idx c3 = Some st3 ->
            current_light st3 = current_light st /\
            state_start st3 = state_start st).
  { intros st3 H3. destruct (Hview _ st3 H3) as (st0 & H0 & Hv).
    rewrite Ha3 in H0. assert (st0 = st) by congruence. subst st0.
    split; [exact (control_view_light _ _ Hv) | exact (control_view_start _ _ Hv)]. }
  rewrite <- Ha3, <- Hc3.
  destruct Hcase as [(-> & _ & Hno) | [Hs | [Hy | Hr']]].
  - destruct (Hno Hbusy) as (st3 & H3 & _ & Hny).
    destruct (Hsame st3 H3) as (El & Es).
    exists st3. split; [exact H3|].
    rewrite <- Es, (Hny ltac:(now rewrite El)).
    split; [rewrite El; now apply String.eqb_eq|]. repeat split. exact Hbusy.
  - destruct Hs as (Hf & _). congruence.
  - destruct Hy as (_ & st3 & H3 & Hgr & _).
    destruct (Hsame st3 H3) as (El & _). exfalso.
    unfold is_green, is_yellow in *. rewrite El in Hgr.
    apply String.eqb_eq in Hyellow. rewrite Hyellow in Hgr. discriminate.
  - destruct Hr' as (_ & st3 & H3 & _ & Hq & Ha' & Hg' & Hs' & Hcc & HF).
    destruct (Hsame st3 H3) as (El & Es).
    eexists. split; [rewrite (HF _ st3 H3), Z.eqb_refl; reflexivity|].
    rewrite <- Es, Hq. repeat split; assumption.
Qed.
End PhaseDurations.

Lemma Qleb_false (a b : Q) : Qleb a b = false <-> ~ (a <= b)%Q.
Proof.
  rewrite <- Qleb_le. destruct (Qleb a b); split; congruence.
Qed.

Section PhaseDurationsTiming.
Context {D : Type}.
Variable sense :
  Traci -> Z -> SimulationController D -> result (SimulationController D).
Variable priority_of : IntersectionState D -> Z -> Q.
Variable scaling_factor : Q.
Hypothesis sense_frame :
  forall env step c c', sense env step c = Ok c' -> same_control c c'.
Hypothesis priority_floor :
  forall inter step, (1 # 10 <= priority_of inter step)%Q.
Implicit Type c : SimulationController D.

Local Abbreviation run_step :=
  (Arbiter.run_step timing sense priority_of scaling_factor).

Lemma gap_phase env step c c' :
  arbitration_invariant timing scaling_factor c ->
  run_step env step c = Ok c' ->
  is_all_red c = true ->
  (1 <= step - all_red_start c ->
   is_all_red c' = false /\ 0 <= active_idx c' <= 2 /\
   exists st', intersections c' !! active_idx c' = Some st' /\
               current_light st' = "G"%string /\ state_start st' = step) /\
  (step - all_red_start c < 1 ->
   is_all_red c' = true /\ active_idx c' = -1 /\
   all_red_start c' = all_red_start c).
Proof.
  intros Hinv H Hgap.
  pose proof (gap_duration timing sense priority_of scaling_factor sense_frame
                priority_floor env step c c' Hinv H Hgap) as Hd.
  cbn [ALL_RED_TIME timing] in Hd.
  destruct (Qleb 1 (inject_Z (step - all_red_start c))) eqn:E.
  - split; [intros _; exact Hd|]. intros Hlt. exfalso.
    apply Qleb_le in E. rewrite <- (Zle_Qle 1) in E. lia.
  - split; [|intros _; exact Hd]. intros Hle. exfalso.
    apply Qleb_false in E. apply E. rewrite <- (Zle_Qle 1). exact Hle.
Qed.

Lemma green_phase env step c c' st :
  arbitration_invariant timing scaling_factor c ->
  run_step env step c = Ok c' ->
  intersections c !! active_idx c = Some st ->
  is_green (current_light st) = true ->
  exists st',
    intersections c' !! active_idx c = Some st' /\
    active_idx c' = active_idx c /\ cycle_count c' = cycle_count c /\
    ((planned_duration st <= inject_Z (step - state_start st))%Q ->
     current_light st' = "Y"%string /\ state_start st' = step /\
     10 <= step - state_start st) /\
    (~ (planned_duration st <= inject_Z (step - state_start st))%Q ->
     current_light st' = "G"%string /\ state_start st' = state_start st /\
     planned_duration st' = planned_duration st).
Proof.
  intros Hinv H Hst Hgreen.
  destruct (green_duration timing sense priority_of scaling_factor sense_frame
              priority_floor env step c c' st Hinv H Hst Hgreen)
    as (st' & Hst' & Ha & Hc & Hd).
  exists st'. split; [exact Hst'|]. split; [exact Ha|]. split; [exact Hc|].
  destruct (Qleb (planned_duration st) (inject_Z (step - state_start st))) eqn:E.
  - split.
    + intros Hle. destruct Hd as (Hl & Hs). split; [exact Hl|]. split; [exact Hs|].
      destruct (invariant_planned_bounds _ c Hinv _ st Hst Hgreen) as (Hmin & _).
      cbn [G_MIN timing] in Hmin.
      rewrite (Zle_Qle 10). eapply Qle_trans; [exact Hmin | exact Hle].
    + intros Hn. exfalso. apply Hn. now apply Qleb_le.
  - split.
    + intros Hle. apply Qleb_false in E. contradiction.
    + intros _. destruct Hd as (Hl & Hs). split; [exact Hl|]. split; [exact Hs|].
      destruct (run_step_spec timing sense priority_of scaling_factor sense_frame
                  priority_floor env step c c' Hinv H) as (_ & Hfrozen & _).
      apply (Hfrozen _ st st' Hst Hst' Hgreen).
      unfold is_green. rewrite Hl. reflexivity.
Qed.

Lemma yellow_phase env step c c' st :
  arbitration_invariant timing scaling_factor c ->
  run_step env step c = Ok c' ->
  intersections c !! active_idx c = Some st ->
  is_yellow (current_light st) = true ->
  exists st',
    intersections c' !! active_idx c = Some st' /\
    (3 <= step - state_start st ->
     current_light st' = "R"%string /\ last_green_end st' = step /\
     active_idx c' = -1 /\ is_all_red c' = true /\
     all_red_start c' = step /\ cycle_count c' = cycle_count c + 1) /\
    (step - state_start st < 3 ->
     current_light st' = "Y"%string /\ active_idx c' = active_idx c /\
     is_all_red c' = false /\ cycle_count c' = cycle_count c).
Proof.
  intros Hinv H Hst Hyellow.
  destruct (yellow_duration timing sense priority_of scaling_factor sense_frame
              priority_floor env step c c' st Hinv H Hst Hyellow)
    as (st' & Hst' & Hd).
  exists st'. split; [exact Hst'|]. cbn [YELLOW_TIME timing] in Hd.
  destruct (Qleb 3 (inject_Z (step - state_start st))) eqn:E.
  - split; [intros _; exact Hd|]. intros Hlt. exfalso.
    apply Qleb_le in E. rewrite <- (Zle_Qle 3) in E. lia.
  - split; [|intros _; exact Hd]. intros Hle. exfalso.
    apply Qleb_false in E. apply E. rewrite <- (Zle_Qle 3). exact Hle.
Qed.
End PhaseDurationsTiming.

(** X6 (the all-red gap).  After any run of either controller, a tick that
    finds the controller in the gap selects a winner exactly when at least
    [ALL_RED_TIME] = 1 tick has passed since the gap started: the winner then
    shows GREEN with its phase start stamped at this tick; otherwise the
    controller stays in the gap with the same gap start. *)
Theorem gap_lasts_one_tick (sc : Binary.SensorConfig) (zc : QueueBased.ZoneConfig)
    (tl0 : list ascii) (envs : list Traci) (env : Traci) (step : Z) :
  (forall c c',
      Binary.main timing sc tl0 envs = Ok c ->
      Binary.run_step timing sc env step c = Ok c' ->
      is_all_red c = true ->
      (1 <= step - all_red_start c ->
       is_all_red c' = false /\ 0 <= active_idx c' <= 2 /\
       exists st', intersections c' !! active_idx c' = Some st' /\
                   current_light st' = "G"%string /\ state_start st' = step) /\
      (step - all_red_start c < 1 ->
       is_all_red c' = true /\ active_idx c' = -1 /\
       all_red_start c' = all_red_start c)) /\
  (forall c c',
      QueueBased.main timing zc tl0 envs = Ok c ->
      QueueBased.run_step timing zc env step c = Ok c' ->
      is_all_red c = true ->
      (1 <= step - all_red_start c ->
       is_all_red c' = false /\ 0 <= active_idx c' <= 2 /\
       exists st', intersections c' !! active_idx c' = Some st' /\
                   current_light st' = "G"%string /\ state_start st' = step) /\
      (step - all_red_start c < 1 ->
       is_all_red c' = true /\ active_idx c' = -1 /\
       all_red_start c' = all_red_start c)).
Proof.
  split; intros c c' Hrun Hstep Hgap.
  - exact (gap_phase (Binary.update_sensors sc) Binary.priority_of (75 # 10)
             (binary_sense_frame sc) binary_priority_floor env step c c'
             (binary_main_invariant _ _ _ _ _ Hrun) Hstep Hgap).
  - exact (gap_phase (QueueBased.measure_queue_length zc) (QueueBased.priority_of zc)
             (15 # 10) (queue_sense_frame zc) (queue_priority_floor zc)
             env step c c' (queue_main_invariant _ _ _ _ _ Hrun) Hstep Hgap).
Qed.

(** After tick 0 both controllers are in the gap that started at 0; tick 1
    selects a winner. *)
Lemma gap_lasts_one_tick_witness :
  exists cb cb' cq cq',
    Binary.main timing Binary.sensors all_red_program [waiting_at_r1] = Ok cb /\
    Binary.run_step timing Binary.sensors waiting_at_r1 1 cb = Ok cb' /\
    QueueBased.main timing QueueBased.zones all_red_program [waiting_at_r1] = Ok cq /\
    QueueBased.run_step timing QueueBased.zones waiting_at_r1 1 cq = Ok cq' /\
    is_all_red cb = true /\ is_all_red cq = true /\
    1 <= 1 - all_red_start cb /\ 1 <= 1 - all_red_start cq /\
    is_all_red cb' = false /\ is_all_red cq' = false.
Proof.
  destruct (gap_lasts_one_tick Binary.sensors QueueBased.zones all_red_program
              [waiting_at_r1] waiting_at_r1 1) as (Hb & Hq).
  eexists _, _, _, _.
  split; [vm_compute; reflexivity|]. split; [vm_compute; reflexivity|].
  split; [vm_compute; reflexivity|]. split; [vm_compute; reflexivity|].
  split; [vm_compute; reflexivity|]. split; [vm_compute; reflexivity|].
  split; [vm_compute; discriminate|]. split; [vm_compute; discriminate|].
  split.
  - eapply (fun c c' R S G L => proj1 (proj1 (Hb c c' R S G) L)).
    + vm_compute; reflexivity.
    + vm_compute; reflexivity.
    + vm_compute; reflexivity.
    + vm_compute; discriminate.
  - eapply (fun c c' R S G L => proj1 (proj1 (Hq c c' R S G) L)).
    + vm_compute; reflexivity.
    + vm_compute; reflexivity.
    + vm_compute; reflexivity.
    + vm_compute; discriminate.
Defined.

(** X7 (the length of GREEN).  After any run of either controller, a tick
    that finds the active approach GREEN turns it YELLOW exactly when the
    ticks elapsed since its phase start have reached its planned duration,
    which is never before 10 ticks; otherwise the approach stays GREEN with
    the same phase start and the same planned duration. *)
Theorem green_lasts_its_plan (sc : Binary.SensorConfig) (zc : QueueBased.ZoneConfig)
    (tl0 : list ascii) (envs : list Traci) (env : Traci) (step : Z) :
  (forall c c' st,
      Binary.main timing sc tl0 envs = Ok c ->
      Binary.run_step timing sc env step c = Ok c' ->
      intersections c !! active_idx c = Some st ->
      is_green (current_light st) = true ->
      exists st',
        intersections c' !! active_idx c = Some st' /\
        active_idx c' = active_idx c /\ cycle_count c' = cycle_count c /\
        ((planned_duration st <= inject_Z (step - state_start st))%Q ->
         current_light st' = "Y"%string /\ state_start st' = step /\
         10 <= step - state_start st) /\
        (~ (planned_duration st <= inject_Z (step - state_start st))%Q ->
         current_light st' = "G"%string /\ state_start st' = state_start st /\
         planned_duration st' = planned_duration st)) /\
  (forall c c' st,
      QueueBased.main timing zc tl0 envs = Ok c ->
      QueueBased.run_step timing zc env step c = Ok c' ->
      intersections c !! active_idx c = Some st ->
      is_green (current_light st) = true ->
      exists st',
        intersections c' !! active_idx c = Some st' /\
        active_idx c' = active_idx c /\ cycle_count c' = cycle_count c /\
        ((planned_duration st <= inject_Z (step - state_start st))%Q ->
         current_light st' = "Y"%string /\ state_start st' = step /\
         10 <= step - state_start st) /\
        (~ (planned_duration st <= inject_Z (step - state_start st))%Q ->
         current_light st' = "G"%string /\ state_start st' = state_start st /\
         planned_duration st' = planned_duration st)).
Proof.
  split; intros c c' st Hrun Hstep Hst Hgreen.
  - exact (green_phase (Binary.update_sensors sc) Binary.priority_of (75 # 10)
             (binary_sense_frame sc) binary_priority_floor env step c c' st
             (binary_main_invariant _ _ _ _ _ Hrun) Hstep Hst Hgreen).
  - exact (green_phase (QueueBased.measure_queue_length zc) (QueueBased.priority_of zc)
             (15 # 10) (queue_sense_frame zc) (queue_priority_floor zc)
             env step c c' st (queue_main_invariant _ _ _ _ _ Hrun) Hstep Hst Hgreen).
Qed.

(** R1 turned GREEN at tick 1 for 10.8 s: it is still GREEN after tick 11
    and tick 12 turns it YELLOW, 11 ticks after its start. *)
Lemma green_lasts_its_plan_witness :
  exists c c' st st',
    Binary.main timing Binary.sensors all_red_program (repeat waiting_at_r1 12) = Ok c /\
    Binary.run_step timing Binary.sensors waiting_at_r1 12 c = Ok c' /\
    intersections c !! active_idx c = Some st /\
    is_green (current_light st) = true /\
    (planned_duration st <= inject_Z (12 - state_start st))%Q /\
    intersections c' !! active_idx c = Some st' /\
    current_light st' = "Y"%string /\ 10 <= 12 - state_start st.
Proof.
  destruct (green_lasts_its_plan Binary.sensors QueueBased.zones all_red_program
              (repeat waiting_at_r1 12) waiting_at_r1 12) as (Hb & _).
  eexists _, _, _, _.
  split; [vm_compute; reflexivity|]. split; [vm_compute; reflexivity|].
  split; [vm_compute; reflexivity|]. split; [vm_compute; reflexivity|].
  split; [vm_compute; discriminate|]. split; [vm_compute; reflexivity|].
  match goal with
  | |- current_light ?s' = _ /\ 10 <= 12 - state_start ?s =>
      edestruct (Hb _ _ s ltac:(vm_compute; reflexivity)
                   ltac:(vm_compute; reflexivity) ltac:(vm_compute; reflexivity)
                   ltac:(vm_compute; reflexivity))
        as (s'' & Hs'' & _ & _ & Hturn & _)
  end.
  destruct (Hturn ltac:(vm_compute; discriminate)) as (Hl & _ & Hmin).
  split; [vm_compute; reflexivity | exact Hmin].
Defined.

(** X8 (the length of YELLOW and the cycle count).  After any run of either
    controller, a tick that finds the active approach YELLOW ends the cycle
    exactly when at least [YELLOW_TIME] = 3 ticks have passed since the phase
    start: the approach turns RED, its last green end is stamped at this
    tick, no approach is active, the gap starts at this tick and the cycle
    count goes up by one; otherwise nothing of this changes. *)
Theorem yellow_lasts_three_ticks (sc : Binary.SensorConfig)
    (zc : QueueBased.ZoneConfig) (tl0 : list ascii) (envs : list Traci)
    (env : Traci) (step : Z) :
  (forall c c' st,
      Binary.main timing sc tl0 envs = Ok c ->
      Binary.run_step timing sc env step c = Ok c' ->
      intersections c !! active_idx c = Some st ->
      is_yellow (current_light st) = true ->
      exists st',
        intersections c' !! active_idx c = Some st' /\
        (3 <= step - state_start st ->
         current_light st' = "R"%string /\ last_green_end st' = step /\
         active_idx c' = -1 /\ is_all_red c' = true /\
         all_red_start c' = step /\ cycle_count c' = cycle_count c + 1) /\
        (step - state_start st < 3 ->
         current_light st' = "Y"%string /\ active_idx c' = active_idx c /\
         is_all_red c' = false /\ cycle_count c' = cycle_count c)) /\
  (forall c c' st,
      QueueBased.main timing zc tl0 envs = Ok c ->
      QueueBased.run_step timing zc env step c = Ok c' ->
      intersections c !! active_idx c = Some st ->
      is_yellow (current_light st) = true ->
      exists st',
        intersections c' !! active_idx c = Some st' /\
        (3 <= step - state_start st ->
         current_light st' = "R"%string /\ last_green_end st' = step /\
         active_idx c' = -1 /\ is_all_red c' = true /\
         all_red_start c' = step /\ cycle_count c' = cycle_count c + 1) /\
        (step - state_start st < 3 ->
         current_light st' = "Y"%string /\ active_idx c' = active_idx c /\
         is_all_red c' = false /\ cycle_count c' = cycle_count c)).
Proof.
  split; intros c c' st Hrun Hstep Hst Hyellow.
  - exact (yellow_phase (Binary.update_sensors sc) Binary.priority_of (75 # 10)
             (binary_sense_frame sc) binary_priority_floor env step c c' st
             (binary_main_invariant _ _ _ _ _ Hrun) Hstep Hst Hyellow).
  - exact (yellow_phase (QueueBased.measure_queue_length zc)
             (QueueBased.priority_of zc) (15 # 10) (queue_sense_frame zc)
             (queue_priority_floor zc) env step c c' st
             (queue_main_invariant _ _ _ _ _ Hrun) Hstep Hst Hyellow).
Qed.

(** R1 turned YELLOW at tick 12: tick 15 ends the first cycle. *)
Lemma yellow_lasts_three_ticks_witness :
  exists c c' st,
    Binary.main timing Binary.sensors all_red_program (repeat waiting_at_r1 15) = Ok c /\
    Binary.run_step timing Binary.sensors waiting_at_r1 15 c = Ok c' /\
    intersections c !! active_idx c = Some st /\
    is_yellow (current_light st) = true /\
    3 <= 15 - state_start st /\
    cycle_count c = 0 /\ cycle_count c' = 1 /\ is_all_red c' = true.
Proof.
  destruct (yellow_lasts_three_ticks Binary.sensors QueueBased.zones all_red_program
              (repeat waiting_at_r1 15) waiting_at_r1 15) as (Hb & _).
  eexists _, _, _.
  split; [vm_compute; reflexivity|]. split; [vm_compute; reflexivity|].
  split; [vm_compute; reflexivity|]. split; [vm_compute; reflexivity|].
  split; [vm_compute; discriminate|]. split; [vm_compute; reflexivity|].
  match goal with
  | |- cycle_count ?c' = 1 /\ _ =>
      edestruct (Hb _ c' _ ltac:(vm_compute; reflexivity)
                   ltac:(vm_compute; reflexivity) ltac:(vm_compute; reflexivity)
                   ltac:(vm_compute; reflexivity))
        as (s' & _ & Hend & _)
  end.
  destruct (Hend ltac:(vm_compute; discriminate)) as (_ & _ & _ & Hgap & _ & Hcc).
  split; [rewrite Hcc; vm_compute; reflexivity | exact Hgap].
Defined.

(** ** The order of service *)

Section WinnerIsTop.
Context {D : Type}.
Variable cfg : Timing.
Variable priority_of : IntersectionState D -> Z -> Q.
Variable scaling_factor : Q.
Hypothesis priority_floor :
  forall inter step, (1 # 10 <= priority_of inter step)%Q.
Implicit Type c : SimulationController D.

(** The selection branch: the winner's score is above every other, and the
    winner is the first approach with that score. *)
Lemma selection_outcome step c c' :
  arbitration_invariant cfg scaling_factor c ->
  is_all_red c = true ->
  Qleb (ALL_RED_TIME cfg) (inject_Z (step - all_red_start c)) = true ->
  Arbiter.control cfg priority_of scaling_factor step c = Ok c' ->
  exists w sw,
    intersections c !! w = Some sw /\
    (forall j sj, intersections c !! j = Some sj ->
                  (priority_of sj step <= priority_of sw step)%Q /\
                  ((priority_of sj step == priority_of sw step)%Q -> w <= j)) /\
    active_idx c' = w /\ is_all_red c' = false /\
    forall i st, intersections c !! i = Some st ->
      intersections c' !! i
      = Some (if i =? w
              then granted cfg priority_of scaling_factor step st
              else denied st).
Proof.
  intros Hinv Hgap Hq H.
  unfold Arbiter.control in H. rewrite Hgap, Hq in H.
  pose proof (invariant_well_formed _ _ c Hinv) as Hwf.
  pose proof Hinv as (Hk & _).
  destruct (select_winner_spec cfg priority_of scaling_factor priority_floor
              step c Hwf)
    as (w & top & c1 & Hfind & Hw & Hsel & Ha & Hg & _ & _ & Hin & _).
  rewrite Hsel in H. inversion H; subst c1.
  destruct (find_winner_total priority_of priority_floor
              (set_is_all_red false c) step Hwf)
    as (w' & top' & Hfind' & _ & Hpw & Hmax).
  rewrite Hfind in Hfind'. inversion Hfind'; subst w' top'.
  rewrite get_priority_spec in Hpw. ctl_simpl.
  destruct (Hwf w Hw) as [sw Hsw]. rewrite Hsw in Hpw.
  exists w, sw. split; [exact Hsw|]. split.
  { intros j sj Hj. assert (Hr : 0 <= j <= 2) by (apply Hk; eauto).
    assert (Hp : Arbiter.get_priority priority_of (set_is_all_red false c) j step
                 = Ok (priority_of sj step)).
    { rewrite get_priority_spec. ctl_simpl. now rewrite Hj. }
    assert (Htop : priority_of sw step = top) by congruence.
    rewrite Htop. exact (Hmax j (priority_of sj step) Hr Hp). }
  split; [exact Ha|]. split; [exact Hg|].
  intros i st Hi. assert (Hr : 0 <= i <= 2) by (apply Hk; eauto).
  rewrite (Hin i Hr), Hi. reflexivity.
Qed.
End WinnerIsTop.

(** The score of an approach that was just served is at the floor, and the
    score of one that has waited 13 ticks is above it. *)
Lemma binary_priority_served (st : IntersectionState Binary.Detection) (step : Z) :
  1 <= consecutive_greens st -> step - last_green_end st <= 12 ->
  (Binary.priority_of st step == 1 # 10)%Q.
Proof.
  intros Hcg Hwait. unfold Binary.priority_of. cbv zeta.
  assert (Hw : (py_min (inject_Z (step - last_green_end st) / 120) 1 <= 1 # 10)%Q).
  { eapply Qle_trans; [apply py_min_left|].
    apply Qle_shift_div_r; [reflexivity|].
    rewrite (Zle_Qle _ 12) in Hwait. 
    eapply Qle_trans; [exact Hwait | discriminate]. }
  assert (Hp : (3 <= inject_Z (consecutive_greens st) * 3)%Q).
  { rewrite (Zle_Qle 1) in Hcg. change (inject_Z 1) with 1%Q in Hcg. lra. }
  unfold py_max.
  destruct (Qltb _ (1 # 10)) eqn:E; [reflexivity|].
  apply Qltb_ge in E. apply Qle_antisym; [|exact E]. clear E.
  destruct (Binary.near_sensor_occupied (det st)),
    (Binary.far_sensor_occupied (det st));
    lra.
Qed.

Lemma binary_priority_waiting (st : IntersectionState Binary.Detection) (step : Z) :
  consecutive_greens st = 0 -> 13 <= step - last_green_end st ->
  (1 # 10 < Binary.priority_of st step)%Q.
Proof.
  intros Hcg Hwait. unfold Binary.priority_of. cbv zeta. rewrite Hcg.
  assert (Hw : (13 # 120 <= py_min (inject_Z (step - last_green_end st) / 120) 1)%Q).
  { apply py_min_glb; [|discriminate].
    apply Qle_shift_div_l; [reflexivity|].
    rewrite (Zle_Qle 13) in Hwait.
    eapply Qle_trans; [|exact Hwait]. discriminate. }
  eapply Qlt_le_trans; [|apply py_max_left].
  destruct (Binary.near_sensor_occupied (det st)),
    (Binary.far_sensor_occupied (det st));
    change (inject_Z 0) with 0%Q; lra.
Qed.

Lemma served_in_turn_same_control step
    (c c' : SimulationController Binary.Detection) :
  same_control c c' -> served_in_turn step c -> served_in_turn step c'.
Proof.
  intros Hsame (Hcg & Hgap & Hbusy).
  pose proof Hsame as (Ha & Hg & Hs & _ & _ & _).
  assert (Hback : forall i st', intersections c' !! i = Some st' ->
            exists st, intersections c !! i = Some st /\
              consecutive_greens st' = consecutive_greens st /\
              last_green_end st' = last_green_end st /\
              state_start st' = state_start st /\
              current_light st' = current_light st).
  { intros i st' H'.
    destruct (same_control_lookup c c' i st' Hsame H') as (st & H & Hv).
    exists st. split; [exact H|].
    split; [exact (f_equal consecutive_greens Hv)|].
    split; [exact (f_equal last_green_end Hv)|].
    split; [exact (f_equal state_start Hv) | exact (f_equal current_light Hv)]. }
  split; [|split].
  - intros i st' H'. destruct (Hback i st' H') as (st & H & E & _).
    rewrite E. eauto.
  - rewrite Hg, Hs. intros G. destruct (Hgap G) as (G1 & G2 & G3).
    split; [exact G1|]. split.
    + intros i st' H'. destruct (Hback i st' H') as (st & H & _ & E & _).
      rewrite E. eauto.
    + intros i j si' sj' Hi Hj Hne.
      destruct (Hback i si' Hi) as (si & Hi0 & Ei & Li & _).
      destruct (Hback j sj' Hj) as (sj & Hj0 & Ej & Lj & _).
      rewrite Ei, Ej, Li, Lj. eauto.
  - rewrite Hg, Ha. intros G sa' Hsa'.
    destruct (Hback _ sa' Hsa') as (sa & Hsa & Ea & _ & Sa & La).
    destruct (Hbusy G sa Hsa) as (B1 & B2).
    rewrite Ea, Sa, La. split; [exact B1|].
    intros i st' H' Hne. destruct (Hback i st' H') as (st & H & E & L & _).
    rewrite E, L. eauto.
Qed.

(** The traffic-light logic of tick [step] takes the timing facts to the
    next tick. *)
Lemma served_in_turn_control step (c c' : SimulationController Binary.Detection) :
  arbitration_invariant timing (75 # 10) c ->
  served_in_turn step c ->
  Arbiter.control timing Binary.priority_of (75 # 10) step c = Ok c' ->
  served_in_turn (step + 1) c'.
Proof.
  intros Hinv (Hcg & Hgap & Hbusy) H.
  pose proof Hinv as (Hk & _).
  destruct (control_spec timing Binary.priority_of (75 # 10)
              binary_priority_floor step c Hinv) as (c0 & H0 & (Hk' & _) & _).
  assert (c0 = c') by congruence. subst c0. clear H0.
  destruct (is_all_red c) eqn:G.
  - destruct (Hgap eq_refl) as (G1 & G2 & G3).
    destruct (Qleb (ALL_RED_TIME timing) (inject_Z (step - all_red_start c)))
      eqn:E.
    + (* a winner is selected *)
      destruct (selection_outcome timing Binary.priority_of (75 # 10)
                  binary_priority_floor step c c' Hinv G E H)
        as (w & sw & Hsw & Hmax & Ha' & Hg' & Hin).
      cbn [ALL_RED_TIME timing] in E. apply Qleb_le in E.
      rewrite <- (Zle_Qle 1) in E.
      pose proof (outcome_lookup c c'
                    (fun i st => if i =? w
                                 then granted timing Binary.priority_of (75 # 10) step st
                                 else denied st) Hk Hk' Hin) as Hback.
      assert (Hfresh : consecutive_greens sw = 0).
      { destruct (Hcg w sw Hsw) as [|Hone]; [assumption|]. exfalso.
        assert (Hj : exists j sj, intersections c !! j = Some sj /\ w <> j).
        { destruct (Z.eq_dec w 0) as [-> | Hne].
          - destruct (proj2 (Hk 1) ltac:(lia)) as [sj Hj]. exists 1, sj.
            split; [exact Hj | lia].
          - destruct (proj2 (Hk 0) ltac:(lia)) as [sj Hj]. exists 0, sj.
            split; [exact Hj | exact Hne]. }
        destruct Hj as (j & sj & Hj & Hne).
        destruct (G3 w j sw sj Hsw Hj Hne Hone) as (Z0 & Lw & Lj).
        pose proof (binary_priority_served sw step ltac:(lia) ltac:(lia)) as Pw.
        pose proof (binary_priority_waiting sj step Z0 ltac:(lia)) as Pj.
        pose proof (proj1 (Hmax j sj Hj)) as Pm. rewrite Pw in Pm.
        exact (Qlt_not_le _ _ Pj Pm). }
      split; [|split].
      * intros i st' H'. destruct (Hback i st' H') as (st & Hi & ->).
        destruct (Z.eqb_spec i w) as [-> | Hne].
        -- right. assert (st = sw) by congruence. subst st.
           cbn. lia.
        -- left. reflexivity.
      * rewrite Hg'. discriminate.
      * intros _ sa' Hsa'. rewrite Ha' in Hsa' |- *.
        destruct (Hback w sa' Hsa') as (st & Hi & ->).
        rewrite Z.eqb_refl. assert (st = sw) by congruence. subst st.
        split; [cbn; lia|].
        intros i st' H' Hne. destruct (Hback i st' H') as (st & Hi' & ->).
        destruct (Z.eqb_spec i w) as [|_]; [contradiction|].
        split; [reflexivity|]. cbn.
        pose proof (G2 i st Hi'). lia.
    + (* the gap goes on *)
      unfold Arbiter.control in H. rewrite G, E in H.
      assert (c' = c) by congruence. subst c'.
      cbn [ALL_RED_TIME timing] in E. apply Qleb_false in E.
      rewrite <- (Zle_Qle 1) in E.
      split; [exact Hcg|]. split.
      * intros _. split; [lia|]. split; assumption.
      * rewrite G. discriminate.
  - destruct (control_outcomes timing Binary.priority_of (75 # 10)
                binary_priority_floor step c Hinv) as (c0 & H0 & Hcase).
    assert (c0 = c') by congruence. subst c0. clear H0.
    destruct Hcase as [(-> & _) | [(G' & _) | [Hy | Hr]]].
    + split; [exact Hcg|]. split; [rewrite G; discriminate|].
      intros _. exact (Hbusy eq_refl).
    + congruence.
    + (* GREEN ends *)
      destruct Hy as (_ & sa & Hsa & Hgreen & E & Ha' & Hg' & _ & _ & Hin).
      pose proof (outcome_lookup c c'
                    (fun i st => if i =? active_idx c
                                 then to_yellow step st else st) Hk Hk' Hin)
        as Hback.
      destruct (Hbusy eq_refl sa Hsa) as (B1 & B2). rewrite Hgreen in B2.
      assert (Hmin : 10 <= step - state_start sa).
      { apply Qleb_le in E.
        pose proof (invariant_planned_bounds (75 # 10) c Hinv _ sa Hsa Hgreen)
          as (Hlo & _).
        cbn [G_MIN timing] in Hlo. rewrite (Zle_Qle 10).
        exact (Qle_trans _ _ _ Hlo E). }
      split; [|split].
      * intros i st' H'. destruct (Hback i st' H') as (st & Hi & ->).
        destruct (i =? active_idx c); cbn; eauto.
      * rewrite Hg'. discriminate.
      * intros _ sa' Hsa'. rewrite Ha' in Hsa' |- *.
        destruct (Hback _ sa' Hsa') as (st & Hi & ->).
        rewrite Z.eqb_refl. assert (st = sa) by congruence. subst st.
        split; [exact B1|].
        intros i st' H' Hne. destruct (Hback i st' H') as (st & Hi' & ->).
        destruct (Z.eqb_spec i (active_idx c)) as [|_]; [contradiction|].
        destruct (B2 i st Hi' Hne) as (Z0 & L). split; [exact Z0|].
        cbn. lia.
    + (* YELLOW ends *)
      destruct Hr as (_ & sa & Hsa & Hyellow & E & Ha' & Hg' & Hs' & _ & Hin).
      pose proof (outcome_lookup c c'
                    (fun i st => if i =? active_idx c
                                 then to_red step st else st) Hk Hk' Hin)
        as Hback.
      destruct (Hbusy eq_refl sa Hsa) as (B1 & B2).
      assert (Hng : is_green (current_light sa) = false).
      { unfold is_yellow in Hyellow. apply String.eqb_eq in Hyellow.
        rewrite Hyellow. reflexivity. }
      rewrite Hng in B2.
      cbn [YELLOW_TIME timing] in E. apply Qleb_le in E.
      rewrite <- (Zle_Qle 3) in E.
      split; [|split].
      * intros i st' H'. destruct (Hback i st' H') as (st & Hi & ->).
        destruct (i =? active_idx c); cbn; eauto.
      * intros _. rewrite Hs'. split; [lia|]. split.
        -- intros i st' H'. destruct (Hback i st' H') as (st & Hi & ->).
           destruct (Z.eqb_spec i (active_idx c)) as [-> | Hne]; [cbn; lia|].
           destruct (B2 i st Hi Hne) as (_ & L). lia.
        -- intros i j si' sj' Hi Hj Hne Hone.
           destruct (Hback i si' Hi) as (si & Hi0 & ->).
           destruct (Hback j sj' Hj) as (sj & Hj0 & ->).
           destruct (Z.eqb_spec i (active_idx c)) as [-> | Hni].
           ++ destruct (Z.eqb_spec j (active_idx c)) as [-> | Hnj];
                [contradiction|].
              destruct (B2 j sj Hj0 Hnj) as (Z0 & L).
              split; [exact Z0|]. split; [reflexivity | lia].
           ++ destruct (B2 i si Hi0 Hni) as (Z0 & _). congruence.
      * rewrite Hg'. discriminate.
Qed.

Lemma served_in_turn_run sc envs : forall step c c',
  arbitration_invariant timing (75 # 10) c ->
  served_in_turn step c ->
  Binary.main_loop timing sc envs step c = Ok c' ->
  exists step', served_in_turn step' c'.
Proof.
  induction envs as [|env envs IH]; intros step c c' Hinv Hs H;
    unfold Binary.main_loop in H; cbn in H.
  - exists step. now inversion H; subst.
  - destruct (step <? 3600); [|exists step; now inversion H; subst].
    apply rbind_ok in H as (c1 & H1 & H).
    apply (IH (step + 1) c1 c'); [| |exact H].
    + now apply (run_step_spec timing (Binary.update_sensors sc)
                   Binary.priority_of (75 # 10) (binary_sense_frame sc)
                   binary_priority_floor env step c c1).
    + destruct (run_step_control timing (Binary.update_sensors sc)
                  Binary.priority_of (75 # 10) (binary_sense_frame sc)
                  env step c c1 H1) as (c3 & Hsame & Hc).
      exact (served_in_turn_control step c3 c1
               (invariant_same_control timing (75 # 10) c c3 Hsame Hinv)
               (served_in_turn_same_control step c c3 Hsame Hs) Hc).
Qed.

Lemma served_in_turn_initially tl0 :
  served_in_turn 0 (new_controller Binary.no_detection tl0).
Proof.
  assert (Hnew : forall i st,
            intersections (new_controller Binary.no_detection tl0) !! i = Some st ->
            consecutive_greens st = 0 /\ last_green_end st = 0).
  { intros i st H. rewrite new_controller_lookup in H.
    destruct (decide (0 <= i <= 2)); [|discriminate].
    inversion H; subst st. split; reflexivity. }
  split; [|split].
  - intros i st H. left. exact (proj1 (Hnew i st H)).
  - intros _. cbn [all_red_start new_controller]. split; [lia|]. split.
    + intros i st H. rewrite (proj2 (Hnew i st H)). lia.
    + intros i j si sj Hi _ _ Hone. rewrite (proj1 (Hnew i si Hi)) in Hone.
      discriminate.
  - cbn [is_all_red new_controller]. discriminate.
Qed.

(** X9 (service in turn).  With the script's constants the binary controller
    never serves an approach twice in a row: after any run every approach's
    count of consecutive greens is 0 or 1, whatever the sensors report.  The
    queue-length controller has no such bound: with six vehicles queued at
    R1 and the other roads empty, R1 wins two selections in a row. *)
Theorem binary_serves_in_turn (sc : Binary.SensorConfig) (tl0 : list ascii)
    (envs : list Traci) :
  (forall c, Binary.main timing sc tl0 envs = Ok c ->
     forall i st, intersections c !! i = Some st ->
       consecutive_greens st = 0 \/ consecutive_greens st = 1) /\
  (exists envs' c st,
     QueueBased.main timing QueueBased.zones all_red_program envs' = Ok c /\
     intersections c !! 0 = Some st /\ consecutive_greens st = 2).
Proof.
  split.
  - intros c Hrun. unfold Binary.main, Binary.init in Hrun. cbn [rbind] in Hrun.
    destruct (served_in_turn_run sc envs 0 _ c
                (new_controller_invariant timing (75 # 10) Binary.no_detection tl0)
                (served_in_turn_initially tl0) Hrun) as (step' & Hcg & _).
    exact Hcg.
  - exists (repeat platoon_at_r1 20). eexists _, _.
    split; [vm_compute; reflexivity|].
    split; [vm_compute; reflexivity|]. vm_compute. reflexivity.
Qed.

(** R1 alone has a standing vehicle for 60 ticks: it is served, then the
    empty roads are. *)
Lemma binary_serves_in_turn_witness :
  exists c st,
    Binary.main timing Binary.sensors all_red_program (repeat waiting_at_r1 60)
    = Ok c /\
    intersections c !! 0 = Some st /\
    (consecutive_greens st = 0 \/ consecutive_greens st = 1).
Proof.
  destruct (binary_serves_in_turn Binary.sensors all_red_program
              (repeat waiting_at_r1 60)) as (Hb & _).
  eexists _, _.
  split; [vm_compute; reflexivity|].
  split; [vm_compute; reflexivity|].
  match goal with
  | |- consecutive_greens ?s = 0 \/ _ =>
      exact (Hb _ ltac:(vm_compute; reflexivity) 0 s ltac:(vm_compute; reflexivity))
  end.
Defined.

(** ** The driver loop *)

Section DriverLoop.
Context {D : Type}.
Variable cfg : Timing.
Variable sense :
  Traci -> Z -> SimulationController D -> result (SimulationController D).
Variable priority_of : IntersectionState D -> Z -> Q.
Variable scaling_factor : Q.
Implicit Type c : SimulationController D.

Local Abbreviation main_loop :=
  (Arbiter.main_loop cfg sense priority_of scaling_factor).

Lemma main_loop_done envs step c :
  3600 <= step -> main_loop envs step c = Ok c.
Proof.
  intros Hs. destruct envs as [|env envs]; [reflexivity|]. cbn.
  destruct (Z.ltb_spec step 3600); [lia | reflexivity].
Qed.

Lemma main_loop_app envs extra : forall step c,
  main_loop (envs ++ extra) step c =
  let? c' := main_loop envs step c in
  main_loop extra (step + Z.of_nat (length envs)) c'.
Proof.
  induction envs as [|env envs IH]; intros step c.
  - cbn. now rewrite Z.add_0_r.
  - cbn [app length Arbiter.main_loop].
    destruct (Z.ltb_spec step 3600) as [Hlt | Hge].
    + destruct (Arbiter.run_step cfg sense priority_of scaling_factor env step c)
        as [c1|e]; cbn [rbind]; [|reflexivity].
      rewrite IH. now replace (step + 1 + Z.of_nat (length envs))
                        with (step + Z.of_nat (S (length envs))) by lia.
    + cbn [rbind]. symmetry. apply main_loop_done. lia.
Qed.
End DriverLoop.

(** X10 (the driver loop).  A run over [envs] followed by [extra] is the run
    over [envs] continued on [extra] from step [len(envs)]: the tick numbers
    are 0, 1, 2, ... and a raise ends the run.  From step 3600 on the loop
    does nothing, so a run ignores everything after its first 3600 ticks. *)
Theorem main_runs_ticks_in_order (cfg : Timing) (sc : Binary.SensorConfig)
    (zc : QueueBased.ZoneConfig) (tl0 : list ascii) (envs extra : list Traci) :
  Binary.main cfg sc tl0 (envs ++ extra)
  = (let? c := Binary.main cfg sc tl0 envs in
     Binary.main_loop cfg sc extra (Z.of_nat (length envs)) c) /\
  QueueBased.main cfg zc tl0 (envs ++ extra)
  = (let? c := QueueBased.main cfg zc tl0 envs in
     QueueBased.main_loop cfg zc extra (Z.of_nat (length envs)) c) /\
  (forall step cb cq, 3600 <= step ->
     Binary.main_loop cfg sc extra step cb = Ok cb /\
     QueueBased.main_loop cfg zc extra step cq = Ok cq) /\
  ((3600 <= length envs)%nat ->
   Binary.main cfg sc tl0 (envs ++ extra) = Binary.main cfg sc tl0 envs /\
   QueueBased.main cfg zc tl0 (envs ++ extra) = QueueBased.main cfg zc tl0 envs).
Proof.
  assert (Hb : Binary.main cfg sc tl0 (envs ++ extra)
               = (let? c := Binary.main cfg sc tl0 envs in
                  Binary.main_loop cfg sc extra (Z.of_nat (length envs)) c)).
  { unfold Binary.main, Binary.init, Binary.main_loop. cbn [rbind].
    now rewrite main_loop_app. }
  assert (Hq : QueueBased.main cfg zc tl0 (envs ++ extra)
               = (let? c := QueueBased.main cfg zc tl0 envs in
                  QueueBased.main_loop cfg zc extra (Z.of_nat (length envs)) c)).
  { unfold QueueBased.main, QueueBased.init, QueueBased.main_loop. cbn [rbind].
    now rewrite main_loop_app. }
  split; [exact Hb|]. split; [exact Hq|]. split.
  - intros step cb cq Hs. split; apply main_loop_done; exact Hs.
  - intros Hlen. rewrite Hb, Hq. split.
    + destruct (Binary.main cfg sc tl0 envs) as [c|e]; cbn [rbind]; [|reflexivity].
      apply main_loop_done. lia.
    + destruct (QueueBased.main cfg zc tl0 envs) as [c|e]; cbn [rbind];
        [|reflexivity].
      apply main_loop_done. lia.
Qed.

(** A run of 3600 ticks ignores a 3601st. *)
Lemma main_runs_ticks_in_order_witness :
  (3600 <= length (repeat empty_roads 3600))%nat /\
  Binary.main timing Binary.sensors all_red_program
    (repeat empty_roads 3600 ++ [waiting_at_r1])
  = Binary.main timing Binary.sensors all_red_program (repeat empty_roads 3600).
Proof.
  assert (Hlen : (3600 <= length (repeat empty_roads 3600))%nat)
    by (rewrite repeat_length; lia).
  split; [exact Hlen|].
  exact (proj1 (proj2 (proj2 (proj2
           (main_runs_ticks_in_order timing Binary.sensors QueueBased.zones
              all_red_program (repeat empty_roads 3600) [waiting_at_r1])))
           Hlen)).
Defined.

(** ** When a tick aborts *)

Lemma waiting_loop_queries {D} env ids : forall c c' : SimulationController D,
  for_each ids
    (fun veh_id c =>
       let? speed := vehicle_getSpeed env veh_id in
       if Qltb speed (1 # 10)
       then Ok (set_total_waiting_time (total_waiting_time c + 1) c)
       else Ok c) c = Ok c' ->
  forall v, In v ids -> is_ok (vehicle_getSpeed env v) = true.
Proof.
  induction ids as [|x ids IH]; intros c c' H v Hin; cbn [for_each] in H.
  - destruct Hin.
  - apply rbind_ok in H as (c1 & H1 & H). destruct Hin as [-> | Hin].
    + destruct (vehicle_getSpeed env v); [reflexivity | discriminate].
    + exact (IH c1 c' H v Hin).
Qed.

Lemma track_waiting_time_queries {D} env (c c' : SimulationController D) :
  Arbiter.track_waiting_time env c = Ok c' ->
  forall idx data, In (idx, data) INTERSECTIONS ->
    exists ids, edge_getLastStepVehicleIDs env (edge data) = Ok ids /\
                forall v, In v ids -> is_ok (vehicle_getSpeed env v) = true.
Proof.
  unfold Arbiter.track_waiting_time. generalize INTERSECTIONS. intros xs.
  revert c. induction xs as [|[i d] xs IH]; intros c H idx data Hin;
    cbn [for_each] in H.
  - destruct Hin.
  - apply rbind_ok in H as (c1 & H1 & H). destruct Hin as [E | Hin].
    + inversion E; subst i d.
      apply rbind_ok in H1 as (ids & Hids & H1).
      exists ids. split; [exact Hids|].
      exact (waiting_loop_queries env ids c c1 H1).
    + exact (IH c1 H idx data Hin).
Qed.

Section TickAborts.
Context {D : Type}.
Variable cfg : Timing.
Variable sense :
  Traci -> Z -> SimulationController D -> result (SimulationController D).
Variable priority_of : IntersectionState D -> Z -> Q.
Variable scaling_factor : Q.
Implicit Type c : SimulationController D.

Lemma run_step_queries env step c c' :
  Arbiter.run_step cfg sense priority_of scaling_factor env step c = Ok c' ->
  metrics_available env.
Proof.
  intros H. unfold Arbiter.run_step in H.
  apply rbind_ok in H as (c1 & _ & H).
  apply rbind_ok in H as (c2 & H2 & H).
  apply rbind_ok in H as (c3 & H3 & _).
  split.
  - unfold Arbiter.count_processed in H3.
    destruct (simulation_getArrivedIDList env); [reflexivity | discriminate].
  - exact (track_waiting_time_queries env c1 c2 H2).
Qed.

Lemma main_loop_aborts before env after : forall step c,
  ~ metrics_available env ->
  step + Z.of_nat (length before) < 3600 ->
  exists e,
    Arbiter.main_loop cfg sense priority_of scaling_factor
      (before ++ env :: after) step c = Raise e.
Proof.
  intros step c Hbad Hlen. rewrite main_loop_app.
  destruct (Arbiter.main_loop cfg sense priority_of scaling_factor before step c)
    as [c1|e]; cbn [rbind]; [|eauto].
  cbn [Arbiter.main_loop].
  destruct (Z.ltb_spec (step + Z.of_nat (length before)) 3600); [|lia].
  destruct (Arbiter.run_step cfg sense priority_of scaling_factor env
              (step + Z.of_nat (length before)) c1) as [c2|e] eqn:E;
    cbn [rbind]; [|eauto].
  destruct (Hbad (run_step_queries _ _ _ _ E)).
Qed.
End TickAborts.

(** X11 (a failed metrics query).  A tick returns only if the arrived list,
    the vehicle list of every approach and the speed of every listed vehicle
    were all readable: the waiting-time and throughput loops have no
    [try].  So one such failure during the first 3600 ticks makes the whole
    run raise, although sensing itself tolerates it. *)
Theorem failed_metrics_query_aborts (cfg : Timing) (sc : Binary.SensorConfig)
    (zc : QueueBased.ZoneConfig) (tl0 : list ascii) (env : Traci) :
  (forall step c c',
      Binary.run_step cfg sc env step c = Ok c' -> metrics_available env) /\
  (forall step c c',
      QueueBased.run_step cfg zc env step c = Ok c' -> metrics_available env) /\
  (~ metrics_available env ->
   forall before after, (length before < 3600)%nat ->
     (exists e, Binary.main cfg sc tl0 (before ++ env :: after) = Raise e) /\
     (exists e, QueueBased.main cfg zc tl0 (before ++ env :: after) = Raise e)).
Proof.
  split; [|split].
  - intros step c c'. apply run_step_queries.
  - intros step c c'. apply run_step_queries.
  - intros Hbad before after Hlen. split.
    + unfold Binary.main, Binary.init, Binary.main_loop. cbn [rbind].
      apply main_loop_aborts; [exact Hbad | lia].
    + unfold QueueBased.main, QueueBased.init, QueueBased.main_loop.
      cbn [rbind]. apply main_loop_aborts; [exact Hbad | lia].
Qed.

(** The vehicle list of R2 cannot be read at tick 2: sensing treats the road
    as empty, the waiting-time loop raises and the run ends. *)
Lemma failed_metrics_query_aborts_witness :
  ~ metrics_available (with_edge_down "r2_in" empty_roads) /\
  (length [empty_roads; empty_roads] < 3600)%nat /\
  exists e,
    Binary.main timing Binary.sensors all_red_program
      ([empty_roads; empty_roads]
       ++ with_edge_down "r2_in" empty_roads :: [empty_roads])
    = Raise e.
Proof.
  assert (Hbad : ~ metrics_available (with_edge_down "r2_in" empty_roads)).
  { intros [_ H].
    destruct (H 1 _ ltac:(right; left; reflexivity)) as (ids & Hids & _).
    vm_compute in Hids. discriminate. }
  assert (Hlen : (length [empty_roads; empty_roads] < 3600)%nat)
    by (cbn [length]; lia).
  split; [exact Hbad|]. split; [exact Hlen|].
  exact (proj1 (proj2 (proj2
           (failed_metrics_query_aborts timing Binary.sensors QueueBased.zones
              all_red_program (with_edge_down "r2_in" empty_roads)))
           Hbad [empty_roads; empty_roads] [empty_roads] Hlen)).
Defined.

(** ** The first green of the binary controller *)

(** A tick of the binary controller, in two parts: the approaches after
    sensing, then the traffic-light logic. *)
Lemma binary_tick_view sc env step (c c' : SimulationController Binary.Detection) :
  arbitration_invariant timing (75 # 10) c ->
  Binary.run_step timing sc env step c = Ok c' ->
  exists c3,
    arbitration_invariant timing (75 # 10) c3 /\
    same_control c c3 /\
    (forall i st3, intersections c3 !! i = Some st3 ->
       exists st data,
         INTERSECTIONS_at i = Ok data /\
         intersections c !! i = Some st /\
         st3 = set_det (Binary.sense_approach sc
                          (Binary.candidates sc env (vehicle_ids_of env (edge data)))
                          step (det st)) st) /\
    Arbiter.control timing Binary.priority_of (75 # 10) step c3 = Ok c'.
Proof.
  intros Hinv H. unfold Binary.run_step, Arbiter.run_step in H.
  apply rbind_ok in H as (c1 & H1 & H).
  apply rbind_ok in H as (c2 & H2 & H).
  apply rbind_ok in H as (c3 & H3 & H).
  destruct (track_waiting_time_frame _ _ _ H2) as [I2 S2].
  destruct (count_processed_frame _ _ _ H3) as [I3 S3].
  pose proof (binary_sense_frame sc env step c c1 H1) as S1.
  assert (Hsame : same_control c c3).
  { eapply same_control_trans; [exact S1|].
    eapply same_control_trans; eassumption. }
  pose proof (invariant_same_control timing (75 # 10) c c3 Hsame Hinv) as Hinv3.
  exists c3. split; [exact Hinv3|]. split; [exact Hsame|]. split; [|exact H].
  intros i st3 Hi. pose proof Hinv3 as (Hk3 & _).
  assert (Hr : 0 <= i <= 2) by (apply Hk3; eauto).
  destruct (INTERSECTIONS_at_range i Hr) as [data Hdata].
  destruct (sensing_loop_spec
              (fun data d =>
                 Binary.sense_approach sc
                   (Binary.candidates sc env (vehicle_ids_of env (edge data)))
                   step d)
              c (invariant_well_formed timing (75 # 10) c Hinv))
    as (c1' & Hs & _ & Hin & _).
  assert (c1' = c1).
  { unfold Binary.update_sensors in H1. congruence. }
  subst c1'.
  rewrite I3, I2, (Hin i data Hdata) in Hi.
  destruct (intersections c !! i) as [st|] eqn:E; [|discriminate].
  exists st, data. split; [exact Hdata|]. split; [reflexivity|].
  cbn in Hi. congruence.
Qed.

(** During ticks 0 and 1 a timer that is not running cannot complete. *)
Lemma persistence_cold sc detected_now step :
  1 <= Binary.SENSOR_DELAY sc -> 0 <= step <= 1 ->
  snd (Binary.persistence sc detected_now step 0) = false /\
  (step = 0 -> fst (Binary.persistence sc detected_now step 0) = 0).
Proof.
  intros Hd Hs. unfold Binary.persistence. destruct detected_now.
  - cbn [Z.eqb]. destruct (Z.leb_spec (Binary.SENSOR_DELAY sc) (step - step)).
    + lia.
    + split; [reflexivity | intros ->; reflexivity].
  - split; reflexivity.
Qed.

Lemma binary_priority_value (st : IntersectionState Binary.Detection) (step : Z)
    near far lge cg :
  Binary.near_sensor_occupied (det st) = near ->
  Binary.far_sensor_occupied (det st) = far ->
  last_green_end st = lge -> consecutive_greens st = cg ->
  Binary.priority_of st step
  = Binary.priority_of
      (mkInter 0 {| Binary.near_sensor_occupied := near;
                    Binary.far_sensor_occupied := far;
                    Binary.near_detect_time := 0;
                    Binary.far_detect_time := 0 |}
               "R" lge 0 0 cg) step.
Proof. unfold Binary.priority_of. cbn. now intros -> -> -> ->. Qed.

(** X12 (the first green).  With a persistence delay of at least one tick,
    the binary controller always gives its first green to R1, at tick 1 and
    for 10.8 s, whatever the traffic: no flag can be set by then, so the
    three scores are at the floor and the scan keeps the first approach. *)
Theorem binary_first_green_is_R1 (sc : Binary.SensorConfig) (tl0 : list ascii)
    (env0 env1 : Traci) (c : SimulationController Binary.Detection) :
  1 <= Binary.SENSOR_DELAY sc ->
  Binary.main timing sc tl0 [env0; env1] = Ok c ->
  active_idx c = 0 /\ is_all_red c = false /\
  exists st,
    intersections c !! 0 = Some st /\
    current_light st = "G"%string /\ state_start st = 1 /\
    consecutive_greens st = 1 /\
    (planned_duration st == 108 # 10)%Q /\
    Binary.near_sensor_occupied (det st) = false /\
    Binary.far_sensor_occupied (det st) = false.
Proof.
  intros Hd Hrun.
  unfold Binary.main, Binary.init, Binary.main_loop in Hrun.
  cbn [rbind Arbiter.main_loop] in Hrun.
  change (0 <? 3600) with true in Hrun.
  change (0 + 1 <? 3600) with true in Hrun.
  cbv iota in Hrun.
  apply rbind_ok in Hrun as (c1 & H1 & Hrun).
  apply rbind_ok in Hrun as (c2 & H2 & Hrun).
  assert (c2 = c) by congruence. subst c2. clear Hrun.
  set (c0 := new_controller Binary.no_detection tl0) in *.
  pose proof (new_controller_invariant timing (75 # 10) Binary.no_detection tl0)
    as Hinv0. fold c0 in Hinv0.
  (* tick 0: sensing, then the gap goes on *)
  destruct (binary_tick_view sc env0 0 c0 c1 Hinv0 H1)
    as (c3 & Hinv3 & Hsame3 & Hview3 & Hc3).
  pose proof Hsame3 as (_ & Hg3 & Hs3 & _).
  unfold Arbiter.control in Hc3. rewrite Hg3, Hs3 in Hc3.
  change (is_all_red c0) with true in Hc3.
  change (Qleb (ALL_RED_TIME timing) (inject_Z (0 - all_red_start c0)))
    with false in Hc3.
  cbv iota in Hc3. assert (c3 = c1) by congruence. subst c3. clear Hc3.
  assert (Hcold : forall i st1, intersections c1 !! i = Some st1 ->
            Binary.near_detect_time (det st1) = 0 /\
            Binary.far_detect_time (det st1) = 0 /\
            last_green_end st1 = 0 /\ consecutive_greens st1 = 0).
  { intros i st1 Hi.
    destruct (Hview3 i st1 Hi) as (st0 & data & _ & Hi0 & ->).
    unfold c0 in Hi0. rewrite new_controller_lookup in Hi0.
    destruct (decide (0 <= i <= 2)); [|discriminate].
    inversion Hi0; subst st0.
    cbn [det set_det Binary.sense_approach Binary.near_detect_time
         Binary.far_detect_time last_green_end consecutive_greens
         new_intersection Binary.no_detection].
    split; [apply persistence_cold; [exact Hd | lia | reflexivity]|].
    split; [apply persistence_cold; [exact Hd | lia | reflexivity]|].
    split; reflexivity. }
  (* tick 1: sensing, then the selection *)
  destruct (binary_tick_view sc env1 (0 + 1) c1 c Hinv3 H2)
    as (c4 & Hinv4 & Hsame4 & Hview4 & Hc4).
  change (0 + 1) with 1 in *.
  pose proof Hsame4 as (_ & Hg4 & Hs4 & _).
  assert (Hgap : is_all_red c4 = true) by (rewrite Hg4, Hg3; reflexivity).
  assert (Hdue : Qleb (ALL_RED_TIME timing) (inject_Z (1 - all_red_start c4))
                 = true) by (rewrite Hs4, Hs3; reflexivity).
  assert (Hfloor : forall i st4, intersections c4 !! i = Some st4 ->
            Binary.near_sensor_occupied (det st4) = false /\
            Binary.far_sensor_occupied (det st4) = false /\
            last_green_end st4 = 0 /\ consecutive_greens st4 = 0).
  { intros i st4 Hi.
    destruct (Hview4 i st4 Hi) as (st1 & data & _ & Hi1 & ->).
    destruct (Hcold i st1 Hi1) as (N & F & L & G).
    cbn [det set_det Binary.sense_approach Binary.near_sensor_occupied
         Binary.far_sensor_occupied last_green_end consecutive_greens].
    rewrite N, F.
    split; [apply persistence_cold; [exact Hd | lia]|].
    split; [apply persistence_cold; [exact Hd | lia]|].
    split; assumption. }
  assert (Hscore : forall i st4, intersections c4 !! i = Some st4 ->
            Binary.priority_of st4 1 = 1 # 10).
  { intros i st4 Hi. destruct (Hfloor i st4 Hi) as (N & F & L & G).
    rewrite (binary_priority_value st4 1 false false 0 0 N F L G).
    vm_compute. reflexivity. }
  destruct (selection_outcome timing Binary.priority_of (75 # 10)
              binary_priority_floor 1 c4 c Hinv4 Hgap Hdue Hc4)
    as (w & sw & Hsw & Hmax & Ha & Hg & Hin).
  pose proof Hinv4 as (Hk4 & _).
  destruct (proj2 (Hk4 0) ltac:(lia)) as [s0 H0].
  assert (Hw : w = 0).
  { assert (0 <= w <= 2) by (apply Hk4; eauto).
    pose proof (proj2 (Hmax 0 s0 H0)) as Htie.
    rewrite (Hscore 0 s0 H0), (Hscore w sw Hsw) in Htie.
    specialize (Htie ltac:(reflexivity)). lia. }
  rewrite Hw in Ha, Hsw, Hin. assert (sw = s0) by congruence. subst sw.
  destruct (Hfloor 0 s0 H0) as (N & F & L & G).
  split; [exact Ha|]. split; [exact Hg|].
  exists (granted timing Binary.priority_of (75 # 10) 1 s0).
  split; [rewrite (Hin 0 s0 H0); reflexivity|].
  split; [reflexivity|]. split; [reflexivity|].
  split; [cbn; lia|]. split; [|split; assumption].
  unfold granted.
  cbn [planned_duration set_planned_duration set_current_light].
  rewrite (binary_priority_value _ 1 false false 0 1); try assumption.
  - vm_compute. reflexivity.
  - cbn. lia.
Qed.

(** Traffic waits at R1 only, or nowhere: R1 is GREEN after tick 1. *)
Lemma binary_first_green_is_R1_witness :
  exists c,
    1 <= Binary.SENSOR_DELAY Binary.sensors /\
    Binary.main timing Binary.sensors all_red_program [empty_roads; waiting_at_r1]
    = Ok c /\
    active_idx c = 0.
Proof.
  eexists. split; [vm_compute; discriminate|].
  split; [vm_compute; reflexivity|].
  match goal with
  | |- active_idx ?c = 0 =>
      exact (proj1 (binary_first_green_is_R1 Binary.sensors all_red_program
                      empty_roads waiting_at_r1 c
                      ltac:(vm_compute; discriminate)
                      ltac:(vm_compute; reflexivity)))
  end.
Defined.

(** ** Queue counts *)

(** A vehicle adds at most one to the three counts together, and never
    lowers one. *)
Lemma count_vehicle_once zc env (counts : Z * Z * Z) veh_id :
  let '(n, m, f) := counts in
  let '(n', m', f') := QueueBased.count_vehicle zc env counts veh_id in
  n <= n' /\ m <= m' /\ f <= f' /\ n' + m' + f' <= n + m + f + 1.
Proof.
  destruct counts as [[n m] f]. unfold QueueBased.count_vehicle.
  destruct (read_vehicle env veh_id) as [[dist speed]|e];
    cbn [rbind try_except]; [|lia].
  destruct (Qltb speed 2); [|cbn [try_except]; lia].
  destruct (Qleb dist (QueueBased.ZONE_NEAR zc)); [cbn [try_except]; lia|].
  destruct (Qleb dist (QueueBased.ZONE_MEDIUM zc)); [cbn [try_except]; lia|].
  destruct (Qleb dist (QueueBased.ZONE_FAR zc)); cbn [try_except]; lia.
Qed.

Lemma zone_counts_once zc env vehicle_ids :
  let '(n, m, f) := QueueBased.zone_counts zc env vehicle_ids in
  0 <= n /\ 0 <= m /\ 0 <= f /\ n + m + f <= Z.of_nat (length vehicle_ids).
Proof.
  unfold QueueBased.zone_counts.
  assert (H : forall ids n m f,
            let '(n', m', f') :=
              List.fold_left (QueueBased.count_vehicle zc env) ids (n, m, f) in
            n <= n' /\ m <= m' /\ f <= f' /\
            n' + m' + f' <= n + m + f + Z.of_nat (length ids)).
  { induction ids as [|x ids IH]; intros n m f; cbn [List.fold_left length].
    - lia.
    - pose proof (count_vehicle_once zc env (n, m, f) x) as H1.
      destruct (QueueBased.count_vehicle zc env (n, m, f) x) as [[n1 m1] f1].
      specialize (IH n1 m1 f1).
      destruct (List.fold_left (QueueBased.count_vehicle zc env) ids (n1, m1, f1))
        as [[n2 m2] f2].
      lia. }
  specialize (H vehicle_ids 0 0 0).
  destruct (List.fold_left (QueueBased.count_vehicle zc env) vehicle_ids (0, 0, 0))
    as [[n m] f].
  lia.
Qed.

(** X13 (queue counts).  After a tick of the queue-length controller, for any
    zone thresholds, the three zone counts of an approach are not negative,
    the total queue length is their sum, and the total never exceeds the
    number of vehicles listed on the approach's edge at that tick: the
    [if]/[elif] chain counts a vehicle at most once. *)
Theorem queue_counts_each_vehicle_once (cfg : Timing) (zc : QueueBased.ZoneConfig)
    (tl0 : list ascii) (envs : list Traci) (env : Traci) (step : Z)
    (c c' : SimulationController QueueBased.Detection) :
  QueueBased.main cfg zc tl0 envs = Ok c ->
  QueueBased.run_step cfg zc env step c = Ok c' ->
  forall i data st,
    INTERSECTIONS_at i = Ok data ->
    intersections c' !! i = Some st ->
    0 <= QueueBased.vehicles_near (det st) /\
    0 <= QueueBased.vehicles_medium (det st) /\
    0 <= QueueBased.vehicles_far (det st) /\
    QueueBased.total_queue_length (det st)
    = QueueBased.vehicles_near (det st) + QueueBased.vehicles_medium (det st)
      + QueueBased.vehicles_far (det st) /\
    QueueBased.total_queue_length (det st)
    <= Z.of_nat (length (vehicle_ids_of env (edge data))).
Proof.
  intros Hrun Hstep i data st Hdata Hst.
  pose proof (queue_run_step_detection cfg zc env step c c'
                (queue_main_invariant _ _ _ _ _ Hrun) Hstep i data Hdata) as Hdet.
  rewrite Hst in Hdet. cbn [fmap option_fmap option_map] in Hdet.
  destruct (intersections c !! i) as [st0|]; [|discriminate].
  cbn in Hdet. assert (Hd : det st
    = QueueBased.measured
        (QueueBased.zone_counts zc env (vehicle_ids_of env (edge data))))
    by congruence.
  rewrite Hd.
  pose proof (zone_counts_once zc env (vehicle_ids_of env (edge data))) as Hc.
  destruct (QueueBased.zone_counts zc env (vehicle_ids_of env (edge data)))
    as [[n m] f].
  cbn [QueueBased.measured QueueBased.vehicles_near QueueBased.vehicles_medium
       QueueBased.vehicles_far QueueBased.total_queue_length].
  lia.
Qed.

(** Six vehicles stand at R1: six are counted, all in the near zone. *)
Lemma queue_counts_each_vehicle_once_witness :
  exists c c' data st,
    QueueBased.main timing QueueBased.zones all_red_program [empty_roads] = Ok c /\
    QueueBased.run_step timing QueueBased.zones platoon_at_r1 1 c = Ok c' /\
    INTERSECTIONS_at 0 = Ok data /\
    intersections c' !! 0 = Some st /\
    QueueBased.total_queue_length (det st)
    <= Z.of_nat (length (vehicle_ids_of platoon_at_r1 (edge data))).
Proof.
  eexists _, _, _, _.
  split; [vm_compute; reflexivity|]. split; [vm_compute; reflexivity|].
  split; [vm_compute; reflexivity|]. split; [vm_compute; reflexivity|].
  match goal with
  | |- QueueBased.total_queue_length (det ?s) <= Z.of_nat (length (vehicle_ids_of _ (edge ?d))) =>
      exact (proj2 (proj2 (proj2 (proj2
               (queue_counts_each_vehicle_once timing QueueBased.zones
                  all_red_program [empty_roads] platoon_at_r1 1 _ _
                  ltac:(vm_compute; reflexivity) ltac:(vm_compute; reflexivity)
                  0 d s ltac:(vm_compute; reflexivity)
                  ltac:(vm_compute; reflexivity))))))
  end.
Defined.

(** ** The persistence timers along a run *)

Lemma persistence_sound sc (cand : Traci -> bool) envs env detect_time occupied :
  1 <= Binary.SENSOR_DELAY sc ->
  timer_sound (Binary.SENSOR_DELAY sc) cand envs detect_time occupied ->
  timer_sound (Binary.SENSOR_DELAY sc) cand (envs ++ [env])
    (fst (Binary.persistence sc (cand env) (Z.of_nat (length envs)) detect_time))
    (snd (Binary.persistence sc (cand env) (Z.of_nat (length envs)) detect_time)).
Proof.
  intros Hd (Hrun & Hflag). unfold timer_sound.
  rewrite length_app. cbn [length].
  replace (Z.of_nat (length envs + 1) - 1) with (Z.of_nat (length envs)) by lia.
  set (s := Z.of_nat (length envs)) in *.
  assert (Hlast : (envs ++ [env]) !! Z.to_nat s = Some env).
  { apply list_lookup_middle. unfold s. lia. }
  unfold Binary.persistence.
  destruct (cand env) eqn:Ecand.
  2:{ cbn [fst snd]. split; [now left | discriminate]. }
  destruct (Z.eqb_spec detect_time 0) as [-> | Hne].
  - (* the timer starts at this tick *)
    destruct (Z.leb_spec (Binary.SENSOR_DELAY sc) (s - s)); [lia|].
    cbn [fst snd]. split; [|discriminate].
    destruct (Z.eq_dec s 0) as [-> | Hs]; [now left|]. right.
    split; [unfold s in *; lia|].
    intros t e Ht He. assert (t = s) by lia. subst t. congruence.
  - (* the timer was running *)
    destruct Hrun as [|(Hr & Hheld)]; [contradiction|].
    assert (Hnew : 1 <= detect_time <= s /\
              forall t e, detect_time <= t <= s ->
                (envs ++ [env]) !! Z.to_nat t = Some e -> cand e = true).
    { split; [lia|]. intros t e Ht He.
      destruct (Z.eq_dec t s) as [-> | Hts]; [congruence|].
      rewrite lookup_app_l in He by (unfold s in *; lia).
      apply (Hheld t e); [lia | exact He]. }
    destruct (Z.leb_spec (Binary.SENSOR_DELAY sc) (s - detect_time));
      cbn [fst snd]; (split; [right; exact Hnew|]).
    + intros _. split; [exact Hne | lia].
    + discriminate.
Qed.

Lemma binary_timers_sound sc tl0 :
  1 <= Binary.SENSOR_DELAY sc ->
  forall envs c, (length envs <= 3600)%nat ->
    Binary.main timing sc tl0 envs = Ok c ->
    forall i data st,
      INTERSECTIONS_at i = Ok data ->
      intersections c !! i = Some st ->
      timer_sound (Binary.SENSOR_DELAY sc)
        (fun env => fst (Binary.candidates sc env (vehicle_ids_of env (edge data))))
        envs (Binary.near_detect_time (det st))
        (Binary.near_sensor_occupied (det st)) /\
      timer_sound (Binary.SENSOR_DELAY sc)
        (fun env => snd (Binary.candidates sc env (vehicle_ids_of env (edge data))))
        envs (Binary.far_detect_time (det st))
        (Binary.far_sensor_occupied (det st)).
Proof.
  intros Hd envs. induction envs as [|env envs IH] using rev_ind;
    intros c Hlen Hrun i data st Hdata Hst.
  - unfold Binary.main, Binary.init in Hrun. cbn in Hrun.
    inversion Hrun; subst c. rewrite new_controller_lookup in Hst.
    destruct (decide (0 <= i <= 2)); [|discriminate].
    inversion Hst; subst st.
    split; (split; [now left | discriminate]).
  - rewrite length_app in Hlen. cbn [length] in Hlen.
    assert (Hcomp : Binary.main timing sc tl0 (envs ++ [env])
                    = let? c0 := Binary.main timing sc tl0 envs in
                      Binary.main_loop timing sc [env] (Z.of_nat (length envs)) c0).
    { unfold Binary.main, Binary.init, Binary.main_loop. cbn [rbind].
      rewrite main_loop_app. reflexivity. }
    rewrite Hcomp in Hrun. clear Hcomp.
    destruct (Binary.main timing sc tl0 envs) as [c0|e] eqn:Hmain;
      cbn [rbind] in Hrun; [|discriminate].
    unfold Binary.main_loop in Hrun. cbn [Arbiter.main_loop] in Hrun.
    destruct (Z.ltb_spec (Z.of_nat (length envs)) 3600); [|lia].
    apply rbind_ok in Hrun as (c1 & Hstep & Hrun).
    assert (c1 = c) by congruence. subst c1. clear Hrun.
    pose proof (binary_run_step_detection timing sc env (Z.of_nat (length envs))
                  c0 c (binary_main_invariant _ _ _ _ _ Hmain) Hstep i data Hdata)
      as Hdet.
    rewrite Hst in Hdet.
    destruct (intersections c0 !! i) as [st0|] eqn:Hst0; [|discriminate].
    cbn in Hdet.
    assert (Hd' : det st
      = Binary.sense_approach sc
          (Binary.candidates sc env (vehicle_ids_of env (edge data)))
          (Z.of_nat (length envs)) (det st0)) by congruence.
    destruct (IH c0 ltac:(lia) eq_refl i data st0 Hdata Hst0) as (Hn & Hf).
    rewrite Hd'. unfold Binary.sense_approach.
    cbn [Binary.near_detect_time Binary.near_sensor_occupied
         Binary.far_detect_time Binary.far_sensor_occupied].
    split.
    + exact (persistence_sound sc
               (fun env => fst (Binary.candidates sc env
                                  (vehicle_ids_of env (edge data))))
               envs env _ _ Hd Hn).
    + exact (persistence_sound sc
               (fun env => snd (Binary.candidates sc env
                                  (vehicle_ids_of env (edge data))))
               envs env _ _ Hd Hf).
Qed.

(** X14 (no early flag).  With a persistence delay of at least one tick,
    whenever a sensor flag of the binary controller is set after a run, its
    timer started at a tick from 1 on, at least [SENSOR_DELAY] ticks before
    the last one, and the sensor's candidate has been true at every tick
    from the timer's start to the last tick: a flag is never set early. *)
Theorem binary_flag_never_early (sc : Binary.SensorConfig) (tl0 : list ascii)
    (envs : list Traci) (c : SimulationController Binary.Detection)
    (i : Z) (data : Approach) (st : IntersectionState Binary.Detection) :
  1 <= Binary.SENSOR_DELAY sc ->
  (length envs <= 3600)%nat ->
  Binary.main timing sc tl0 envs = Ok c ->
  INTERSECTIONS_at i = Ok data ->
  intersections c !! i = Some st ->
  (Binary.near_sensor_occupied (det st) = true ->
   1 <= Binary.near_detect_time (det st) /\
   Binary.near_detect_time (det st) + Binary.SENSOR_DELAY sc
   <= Z.of_nat (length envs) - 1 /\
   forall t env,
     Binary.near_detect_time (det st) <= t <= Z.of_nat (length envs) - 1 ->
     envs !! Z.to_nat t = Some env ->
     fst (Binary.candidates sc env (vehicle_ids_of env (edge data))) = true) /\
  (Binary.far_sensor_occupied (det st) = true ->
   1 <= Binary.far_detect_time (det st) /\
   Binary.far_detect_time (det st) + Binary.SENSOR_DELAY sc
   <= Z.of_nat (length envs) - 1 /\
   forall t env,
     Binary.far_detect_time (det st) <= t <= Z.of_nat (length envs) - 1 ->
     envs !! Z.to_nat t = Some env ->
     snd (Binary.candidates sc env (vehicle_ids_of env (edge data))) = true).
Proof.
  intros Hd Hlen Hrun Hdata Hst.
  destruct (binary_timers_sound sc tl0 Hd envs c Hlen Hrun i data st Hdata Hst)
    as ((Hn & Hnf) & (Hf & Hff)).
  split; intros Hflag.
  - destruct (Hnf Hflag) as (Hne & Hlate).
    destruct Hn as [|(Hr & Hheld)]; [contradiction|].
    split; [lia|]. split; [exact Hlate | exact Hheld].
  - destruct (Hff Hflag) as (Hne & Hlate).
    destruct Hf as [|(Hr & Hheld)]; [contradiction|].
    split; [lia|]. split; [exact Hlate | exact Hheld].
Qed.

(** A vehicle stands at R1 from tick 0: after tick 11 the near flag is set,
    its timer started at tick 1. *)
Lemma binary_flag_never_early_witness :
  exists c data st,
    1 <= Binary.SENSOR_DELAY Binary.sensors /\
    (length (repeat waiting_at_r1 12) <= 3600)%nat /\
    Binary.main timing Binary.sensors all_red_program (repeat waiting_at_r1 12)
    = Ok c /\
    INTERSECTIONS_at 0 = Ok data /\
    intersections c !! 0 = Some st /\
    Binary.near_sensor_occupied (det st) = true /\
    1 <= Binary.near_detect_time (det st).
Proof.
  eexists _, _, _.
  split; [vm_compute; discriminate|].
  split; [cbn [repeat length]; lia|].
  split; [vm_compute; reflexivity|]. split; [vm_compute; reflexivity|].
  split; [vm_compute; reflexivity|]. split; [vm_compute; reflexivity|].
  match goal with
  | |- 1 <= Binary.near_detect_time (det ?s) =>
      exact (proj1 (proj1 (binary_flag_never_early Binary.sensors all_red_program
                             (repeat waiting_at_r1 12) _ 0 _ s
                             ltac:(vm_compute; discriminate)
                             ltac:(cbn [repeat length]; lia)
                             ltac:(vm_compute; reflexivity)
                             ltac:(vm_compute; reflexivity)
                             ltac:(vm_compute; reflexivity))
                      ltac:(vm_compute; reflexivity)))
  end.
Defined.

(** ** Scores and demand *)

(** X15 (scores follow demand).  At a given tick and for the same end of the
    last green, an approach's score never goes down when its detection grows
    (a sensor flag more in binary mode; more vehicles in a zone in
    queue-length mode, for weights that are not negative) and never goes up
    when its count of consecutive greens grows. *)
Theorem score_follows_demand (zc : QueueBased.ZoneConfig) (step : Z) :
  (forall st st' : IntersectionState Binary.Detection,
      last_green_end st = last_green_end st' ->
      consecutive_greens st' <= consecutive_greens st ->
      (Binary.near_sensor_occupied (det st) = true ->
       Binary.near_sensor_occupied (det st') = true) ->
      (Binary.far_sensor_occupied (det st) = true ->
       Binary.far_sensor_occupied (det st') = true) ->
      (Binary.priority_of st step <= Binary.priority_of st' step)%Q) /\
  ((0 <= QueueBased.WEIGHT_NEAR zc)%Q ->
   (0 <= QueueBased.WEIGHT_MEDIUM zc)%Q ->
   (0 <= QueueBased.WEIGHT_FAR zc)%Q ->
   forall st st' : IntersectionState QueueBased.Detection,
     last_green_end st = last_green_end st' ->
     consecutive_greens st' <= consecutive_greens st ->
     QueueBased.vehicles_near (det st) <= QueueBased.vehicles_near (det st') ->
     QueueBased.vehicles_medium (det st) <= QueueBased.vehicles_medium (det st') ->
     QueueBased.vehicles_far (det st) <= QueueBased.vehicles_far (det st') ->
     (QueueBased.priority_of zc st step <= QueueBased.priority_of zc st' step)%Q).
Proof.
  split.
  - intros st st' Hl Hcg Hn Hf. unfold Binary.priority_of. cbv zeta.
    apply py_max_mono. rewrite Hl.
    rewrite Zle_Qle in Hcg.
    set (w := py_min (inject_Z (step - last_green_end st') / 120) 1).
    destruct (Binary.near_sensor_occupied (det st));
      [rewrite (Hn eq_refl) | destruct (Binary.near_sensor_occupied (det st'))];
      (destruct (Binary.far_sensor_occupied (det st));
       [rewrite (Hf eq_refl) | destruct (Binary.far_sensor_occupied (det st'))]);
      lra.
  - intros Wn Wm Wf st st' Hl Hcg Hn Hm Hf.
    unfold QueueBased.priority_of. cbv zeta.
    apply py_max_mono. rewrite Hl.
    rewrite Zle_Qle in Hcg, Hn, Hm, Hf.
    pose proof (Qmult_le_compat_r _ _ _ Hn Wn).
    pose proof (Qmult_le_compat_r _ _ _ Hm Wm).
    pose proof (Qmult_le_compat_r _ _ _ Hf Wf).
    set (w := py_min (inject_Z (step - last_green_end st') / 60) 2).
    lra.
Qed.

(** The script's weights 3, 2 and 1 are not negative: a seventh vehicle in
    the near zone does not lower the score. *)
Lemma score_follows_demand_witness :
  (0 <= QueueBased.WEIGHT_NEAR QueueBased.zones)%Q /\
  (0 <= QueueBased.WEIGHT_MEDIUM QueueBased.zones)%Q /\
  (0 <= QueueBased.WEIGHT_FAR QueueBased.zones)%Q /\
  Qle (QueueBased.priority_of QueueBased.zones
         (mkInter 0 (QueueBased.measured (6, 0, 0)) "R" 0 0 0%Q 1) 40)
      (QueueBased.priority_of QueueBased.zones
         (mkInter 0 (QueueBased.measured (7, 0, 0)) "R" 0 0 0%Q 1) 40).
Proof.
  split; [discriminate|]. split; [discriminate|]. split; [discriminate|].
  apply (proj2 (score_follows_demand QueueBased.zones 40));
    first [discriminate | reflexivity | cbn; lia].
Defined.

(** ** Approaches that do not exist *)


Section UnknownApproach.
Context {D : Type}.
Variable cfg : Timing.
Variable priority_of : IntersectionState D -> Z -> Q.
Variable scaling_factor : Q.
Implicit Type c : SimulationController D.

End UnknownApproach.



(** ** The length of a cycle *)

Section CycleLength.
Context {D : Type}.
Variable sense :
  Traci -> Z -> SimulationController D -> result (SimulationController D).
Variable priority_of : IntersectionState D -> Z -> Q.
Variable scaling_factor : Q.
Hypothesis sense_frame :
  forall env step c c', sense env step c = Ok c' -> same_control c c'.
Hypothesis priority_floor :
  forall inter step, (1 # 10 <= priority_of inter step)%Q.
Implicit Type c : SimulationController D.

Lemma on_schedule_same_control step c c' :
  same_control c c' -> on_schedule step c -> on_schedule step c'.
Proof.
  intros Hsame (Hgap & Hbusy).
  pose proof Hsame as (Ha & Hg & Hs & Hc & _ & _).
  split.
  - rewrite Hg, Hs, Hc. exact Hgap.
  - rewrite Hg, Ha, Hc. intros G sa' Hsa'.
    destruct (same_control_lookup c c' _ sa' Hsame Hsa') as (sa & Hsa & Hv).
    assert (E1 : current_light sa' = current_light sa)
      by exact (f_equal current_light Hv).
    assert (E2 : state_start sa' = state_start sa)
      by exact (f_equal state_start Hv).
    assert (E3 : planned_duration sa' = planned_duration sa)
      by exact (f_equal planned_duration Hv).
    rewrite E1, E2, E3. exact (Hbusy G sa Hsa).
Qed.

Lemma on_schedule_control step c c' :
  arbitration_invariant timing scaling_factor c ->
  on_schedule step c ->
  Arbiter.control timing priority_of scaling_factor step c = Ok c' ->
  on_schedule (step + 1) c'.
Proof.
  intros Hinv (Hgap & Hbusy) H.
  pose proof Hinv as (Hk & _).
  destruct (control_spec timing priority_of scaling_factor priority_floor
              step c Hinv) as (c0 & H0 & Hinv' & _).
  assert (c0 = c') by congruence. subst c0. clear H0.
  destruct (control_outcomes timing priority_of scaling_factor priority_floor
              step c Hinv) as (c0 & H0 & Hcase).
  assert (c0 = c') by congruence. subst c0. clear H0.
  destruct Hcase as [(-> & Hn1 & Hn2) | [Hsel | [Hy | Hr]]].
  - (* no guard is met *)
    split.
    + intros G. destruct (Hgap G) as (B & S). split; [exact B|].
      pose proof (Hn1 G) as E. cbn [ALL_RED_TIME timing] in E.
      apply Qleb_false in E. rewrite <- (Zle_Qle 1) in E. lia.
    + intros G sa Hsa. destruct (Hn2 G) as (st & Hst & Hgn & Hyn).
      assert (st = sa) by congruence. subst st.
      destruct (Hbusy G sa Hsa) as (Bg & By). split.
      * intros Hgreen. destruct (Bg Hgreen) as (B1 & B2 & B3).
        split; [exact B1|]. split; [lia|].
        pose proof (Hgn Hgreen) as E. apply Qleb_false in E.
        apply Qnot_le_lt in E.
        now replace (step + 1 - 1 - state_start sa) with (step - state_start sa)
          by lia.
      * intros Hyellow. destruct (By Hyellow) as (B1 & B2).
        split; [exact B1|].
        pose proof (Hyn Hyellow) as E. cbn [YELLOW_TIME timing] in E.
        apply Qleb_false in E. rewrite <- (Zle_Qle 3) in E. lia.
  - (* a winner is selected *)
    destruct Hsel as (G & E & w & Hw & Ha' & Hg' & Hs' & Hc' & Hin).
    destruct (Hgap G) as (B & S).
    cbn [ALL_RED_TIME timing] in E. apply Qleb_le in E.
    rewrite <- (Zle_Qle 1) in E.
    split; [intros G'; congruence|].
    intros _ sa' Hsa'. rewrite Ha' in Hsa'.
    destruct (proj2 (Hk w) Hw) as [st Hst].
    rewrite (Hin w st Hst), Z.eqb_refl in Hsa'.
    assert (Hplan : (10 <= planned_duration sa')%Q).
    { refine (proj1 (invariant_planned_bounds scaling_factor c' Hinv' w sa' _ _)).
      - rewrite (Hin w st Hst), Z.eqb_refl. exact Hsa'.
      - inversion Hsa'. reflexivity. }
    assert (Hstart : state_start sa' = step) by (inversion Hsa'; reflexivity).
    assert (Hlight : current_light sa' = "G"%string)
      by (inversion Hsa'; reflexivity).
    rewrite Hlight, Hstart, Hc'. split.
    + intros _. split; [lia|]. split; [lia|].
      replace (step + 1 - 1 - step) with 0 by lia.
      eapply Qlt_le_trans; [|exact Hplan]. reflexivity.
    + discriminate.
  - (* GREEN ends *)
    destruct Hy as (G & sa & Hsa & Hgreen & E & Ha' & Hg' & _ & Hc' & Hin).
    destruct (Hbusy G sa Hsa) as (Bg & _).
    destruct (Bg Hgreen) as (B1 & B2 & B3).
    apply Qleb_le in E.
    pose proof (invariant_planned_bounds scaling_factor c Hinv _ sa Hsa Hgreen)
      as (Hlo & Hhi).
    cbn [G_MIN G_MAX timing] in Hlo, Hhi.
    assert (Hmin : 10 <= step - state_start sa).
    { rewrite (Zle_Qle 10). exact (Qle_trans _ _ _ Hlo E). }
    assert (Hmax : step - 1 - state_start sa < 40).
    { rewrite (Zlt_Qlt _ 40). exact (Qlt_le_trans _ _ _ B3 Hhi). }
    split; [intros G'; congruence|].
    intros _ sa' Hsa'. rewrite Ha', (Hin _ sa Hsa), Z.eqb_refl in Hsa'.
    inversion Hsa'; subst sa'. rewrite Hc'.
    cbn [to_yellow current_light state_start set_state_start set_current_light].
    split; [discriminate|]. intros _. lia.
  - (* YELLOW ends *)
    destruct Hr as (G & sa & Hsa & Hyellow & E & Ha' & Hg' & Hs' & Hc' & Hin).
    destruct (Hbusy G sa Hsa) as (_ & By).
    destruct (By Hyellow) as (B1 & B2).
    cbn [YELLOW_TIME timing] in E. apply Qleb_le in E.
    rewrite <- (Zle_Qle 3) in E.
    split; [|intros G'; congruence].
    intros _. rewrite Hs', Hc'. lia.
Qed.

Lemma on_schedule_run envs : forall step c c',
  arbitration_invariant timing scaling_factor c ->
  on_schedule step c ->
  step + Z.of_nat (length envs) <= 3600 ->
  Arbiter.main_loop timing sense priority_of scaling_factor envs step c = Ok c' ->
  on_schedule (step + Z.of_nat (length envs)) c' /\
  arbitration_invariant timing scaling_factor c'.
Proof.
  induction envs as [|env envs IH]; intros step c c' Hinv Hs Hlen H;
    cbn [Arbiter.main_loop length] in *.
  - inversion H; subst c'. now rewrite Z.add_0_r.
  - destruct (Z.ltb_spec step 3600); [|lia].
    apply rbind_ok in H as (c1 & H1 & H).
    replace (step + Z.of_nat (S (length envs)))
      with (step + 1 + Z.of_nat (length envs)) by lia.
    apply (IH (step + 1) c1 c'); [| |lia|exact H].
    + now apply (run_step_spec timing sense priority_of scaling_factor
                   sense_frame priority_floor env step c c1).
    + destruct (run_step_control timing sense priority_of scaling_factor
                  sense_frame env step c c1 H1) as (c3 & Hsame & Hc).
      exact (on_schedule_control step c3 c1
               (invariant_same_control timing scaling_factor c c3 Hsame Hinv)
               (on_schedule_same_control step c c3 Hsame Hs) Hc).
Qed.

Lemma on_schedule_cycles step c :
  arbitration_invariant timing scaling_factor c ->
  on_schedule step c ->
  14 * cycle_count c <= step <= 44 * (cycle_count c + 1).
Proof.
  intros Hinv (Hgap & Hbusy).
  pose proof Hinv as (Hk & Hgi & Hact & _ & Hrow & _).
  destruct (is_all_red c) eqn:G.
  - destruct (Hgap eq_refl) as (B & S). lia.
  - assert (Hne : active_idx c <> -1).
    { intros E. apply Hgi in E. congruence. }
    destruct (proj2 (Hk (active_idx c)) ltac:(lia)) as [sa Hsa].
    destruct (Hbusy eq_refl sa Hsa) as (Bg & By).
    pose proof (Hrow sa Hsa) as Hlight. unfold has_right_of_way in Hlight.
    destruct (is_green (current_light sa)) eqn:Eg.
    + destruct (Bg eq_refl) as (B1 & B2 & B3).
      pose proof (invariant_planned_bounds scaling_factor c Hinv _ sa Hsa Eg)
        as (_ & Hhi).
      cbn [G_MAX timing] in Hhi.
      assert (step - 1 - state_start sa < 40).
      { rewrite (Zlt_Qlt _ 40). exact (Qlt_le_trans _ _ _ B3 Hhi). }
      lia.
    + cbn [orb] in Hlight. destruct (By Hlight) as (B1 & B2). lia.
Qed.
End CycleLength.

Lemma on_schedule_initially {D} (d0 : D) (tl0 : list ascii) :
  on_schedule 0 (new_controller d0 tl0).
Proof.
  split.
  - intros _. cbn [new_controller all_red_start cycle_count]. lia.
  - cbn [new_controller is_all_red]. discriminate.
Qed.

(** X17 (cycles per run).  With the script's constants a cycle (gap, green,
    yellow) takes between 14 and 44 ticks, so after a run of [n] ticks of
    either controller the cycle count [k] satisfies
    [14 * k <= n <= 44 * (k + 1)]: the junction can neither stall nor spin. *)
Theorem cycle_count_bounds (sc : Binary.SensorConfig) (zc : QueueBased.ZoneConfig)
    (tl0 : list ascii) (envs : list Traci) :
  (length envs <= 3600)%nat ->
  (forall c, Binary.main timing sc tl0 envs = Ok c ->
     14 * cycle_count c <= Z.of_nat (length envs) <= 44 * (cycle_count c + 1)) /\
  (forall c, QueueBased.main timing zc tl0 envs = Ok c ->
     14 * cycle_count c <= Z.of_nat (length envs) <= 44 * (cycle_count c + 1)).
Proof.
  intros Hlen. split; intros c Hrun.
  - unfold Binary.main, Binary.init, Binary.main_loop in Hrun.
    cbn [rbind] in Hrun.
    destruct (on_schedule_run (Binary.update_sensors sc) Binary.priority_of
                (75 # 10) (binary_sense_frame sc) binary_priority_floor
                envs 0 _ c
                (new_controller_invariant timing (75 # 10) Binary.no_detection tl0)
                (on_schedule_initially Binary.no_detection tl0)
                ltac:(lia) Hrun) as (Hs & Hinv).
    exact (on_schedule_cycles (75 # 10) _ c Hinv Hs).
  - unfold QueueBased.main, QueueBased.init, QueueBased.main_loop in Hrun.
    cbn [rbind] in Hrun.
    destruct (on_schedule_run (QueueBased.measure_queue_length zc)
                (QueueBased.priority_of zc) (15 # 10) (queue_sense_frame zc)
                (queue_priority_floor zc) envs 0 _ c
                (new_controller_invariant timing (15 # 10)
                   QueueBased.no_detection tl0)
                (on_schedule_initially QueueBased.no_detection tl0)
                ltac:(lia) Hrun) as (Hs & Hinv).
    exact (on_schedule_cycles (15 # 10) _ c Hinv Hs).
Qed.

(** 100 ticks with a vehicle standing at R1: between 2 and 7 cycles. *)
Lemma cycle_count_bounds_witness :
  exists c,
    (length (repeat waiting_at_r1 100) <= 3600)%nat /\
    Binary.main timing Binary.sensors all_red_program (repeat waiting_at_r1 100)
    = Ok c /\
    14 * cycle_count c <= 100 <= 44 * (cycle_count c + 1).
Proof.
  eexists. split; [rewrite repeat_length; lia|].
  split; [vm_compute; reflexivity|].
  refine (proj1 (cycle_count_bounds Binary.sensors QueueBased.zones
                   all_red_program (repeat waiting_at_r1 100) _) _ _).
  - rewrite repeat_length. lia.
  - vm_compute. reflexivity.
Defined.

(** ** The order of the lights *)

Section LightOrder.
Context {D : Type}.
Variable cfg : Timing.
Variable sense :
  Traci -> Z -> SimulationController D -> result (SimulationController D).
Variable priority_of : IntersectionState D -> Z -> Q.
Variable scaling_factor : Q.
Hypothesis sense_frame :
  forall env step c c', sense env step c = Ok c' -> same_control c c'.
Hypothesis priority_floor :
  forall inter step, (1 # 10 <= priority_of inter step)%Q.
Implicit Type c : SimulationController D.

Lemma is_red_cases (l : string) :
  is_red l = true -> l = "RED"%string \/ l = "R"%string.
Proof.
  unfold is_red. intros H. apply orb_true_iff in H as [H | H];
    apply String.eqb_eq in H; auto.
Qed.

Lemma control_next_light step c c' i st st' :
  arbitration_invariant cfg scaling_factor c ->
  Arbiter.control cfg priority_of scaling_factor step c = Ok c' ->
  intersections c !! i = Some st ->
  intersections c' !! i = Some st' ->
  next_light (current_light st) (current_light st').
Proof.
  intros Hinv H Hst Hst'.
  pose proof Hinv as (Hk & Hgi & _ & Hred & _ & _).
  destruct (control_outcomes cfg priority_of scaling_factor priority_floor
              step c Hinv) as (c0 & H0 & Hcase).
  assert (c0 = c') by congruence. subst c0. clear H0.
  destruct Hcase as [(-> & _) | [Hsel | [Hy | Hr]]].
  - left. congruence.
  - destruct Hsel as (G & _ & w & _ & _ & _ & _ & _ & Hin).
    rewrite (Hin i st Hst) in Hst'.
    assert (Hwas : is_red (current_light st) = true).
    { apply (Hred i st Hst). apply Hgi in G. rewrite G.
      intros ->. destruct (proj1 (Hk (-1))); [eauto | lia]. }
    destruct (i =? w); inversion Hst'; subst st'; cbn.
    + right; left. split; [exact Hwas | reflexivity].
    + destruct (is_red_cases _ Hwas) as [E | E]; rewrite E; [|now left].
      right; right; right; right. split; reflexivity.
  - destruct Hy as (_ & sa & Hsa & Hgreen & _ & _ & _ & _ & _ & Hin).
    rewrite (Hin i st Hst) in Hst'.
    destruct (Z.eqb_spec i (active_idx c)) as [-> | _];
      inversion Hst'; subst st'; [|now left].
    assert (st = sa) by congruence. subst st.
    right; right; left. split; [|reflexivity].
    now apply String.eqb_eq.
  - destruct Hr as (_ & sa & Hsa & Hyellow & _ & _ & _ & _ & _ & Hin).
    rewrite (Hin i st Hst) in Hst'.
    destruct (Z.eqb_spec i (active_idx c)) as [-> | _];
      inversion Hst'; subst st'; [|now left].
    assert (st = sa) by congruence. subst st.
    right; right; right; left. split; [|reflexivity].
    now apply String.eqb_eq.
Qed.

Lemma run_step_next_light env step c c' i st st' :
  arbitration_invariant cfg scaling_factor c ->
  Arbiter.run_step cfg sense priority_of scaling_factor env step c = Ok c' ->
  intersections c !! i = Some st ->
  intersections c' !! i = Some st' ->
  next_light (current_light st) (current_light st').
Proof.
  intros Hinv H Hst Hst'.
  destruct (run_step_control cfg sense priority_of scaling_factor sense_frame
              env step c c' H) as (c3 & Hsame & Hc).
  pose proof (invariant_same_control cfg scaling_factor c c3 Hsame Hinv) as Hinv3.
  pose proof Hinv3 as (Hk3 & _). pose proof Hinv as (Hk & _).
  assert (Hr : 0 <= i <= 2) by (apply Hk; eauto).
  destruct (proj2 (Hk3 i) Hr) as [st3 Hst3].
  destruct (same_control_lookup c c3 i st3 Hsame Hst3) as (st0 & Hst0 & Hv).
  assert (st0 = st) by congruence. subst st0.
  assert (E : current_light st3 = current_light st)
    by exact (f_equal current_light Hv).
  rewrite <- E.
  exact (control_next_light step c3 c' i st3 st' Hinv3 Hc Hst3 Hst').
Qed.
End LightOrder.

(** X18 (the order of the lights).  After any run of either controller, one
    more tick changes an approach's recorded light, if at all, from RED to
    GREEN, from GREEN to YELLOW or from YELLOW to RED (and from the
    constructor's 'RED' to 'R' when the approach loses the first
    selection): a GREEN is never cut to RED without its YELLOW, and no
    approach turns YELLOW from RED. *)
Theorem lights_follow_the_cycle (cfg : Timing) (sc : Binary.SensorConfig)
    (zc : QueueBased.ZoneConfig) (tl0 : list ascii) (envs : list Traci)
    (env : Traci) (step : Z) :
  (forall c c' i st st',
      Binary.main cfg sc tl0 envs = Ok c ->
      Binary.run_step cfg sc env step c = Ok c' ->
      intersections c !! i = Some st ->
      intersections c' !! i = Some st' ->
      next_light (current_light st) (current_light st')) /\
  (forall c c' i st st',
      QueueBased.main cfg zc tl0 envs = Ok c ->
      QueueBased.run_step cfg zc env step c = Ok c' ->
      intersections c !! i = Some st ->
      intersections c' !! i = Some st' ->
      next_light (current_light st) (current_light st')).
Proof.
  split; intros c c' i st st' Hrun Hstep.
  - exact (run_step_next_light cfg (Binary.update_sensors sc) Binary.priority_of
             (75 # 10) (binary_sense_frame sc) binary_priority_floor
             env step c c' i st st' (binary_main_invariant _ _ _ _ _ Hrun) Hstep).
  - exact (run_step_next_light cfg (QueueBased.measure_queue_length zc)
             (QueueBased.priority_of zc) (15 # 10) (queue_sense_frame zc)
             (queue_priority_floor zc) env step c c' i st st'
             (queue_main_invariant _ _ _ _ _ Hrun) Hstep).
Qed.

(** R1 is GREEN after tick 11 and YELLOW after tick 12. *)
Lemma lights_follow_the_cycle_witness :
  exists c c' st st',
    Binary.main timing Binary.sensors all_red_program (repeat waiting_at_r1 12)
    = Ok c /\
    Binary.run_step timing Binary.sensors waiting_at_r1 12 c = Ok c' /\
    intersections c !! 0 = Some st /\
    intersections c' !! 0 = Some st' /\
    current_light st = "G"%string /\ current_light st' = "Y"%string /\
    next_light (current_light st) (current_light st').
Proof.
  eexists _, _, _, _.
  split; [vm_compute; reflexivity|]. split; [vm_compute; reflexivity|].
  split; [vm_compute; reflexivity|]. split; [vm_compute; reflexivity|].
  split; [vm_compute; reflexivity|]. split; [vm_compute; reflexivity|].
  match goal with
  | |- next_light (current_light ?s) (current_light ?s') =>
      exact (proj1 (lights_follow_the_cycle timing Binary.sensors QueueBased.zones
                      all_red_program (repeat waiting_at_r1 12) waiting_at_r1 12)
               _ _ 0 s s'
               ltac:(vm_compute; reflexivity) ltac:(vm_compute; reflexivity)
               ltac:(vm_compute; reflexivity) ltac:(vm_compute; reflexivity))
  end.
Defined.

(** ** The signal heads from the second tick on *)

Section FirstCommands.
Context {D : Type}.
Variable sense :
  Traci -> Z -> SimulationController D -> result (SimulationController D).
Variable priority_of : IntersectionState D -> Z -> Q.
Variable scaling_factor : Q.
Hypothesis sense_frame :
  forall env step c c', sense env step c = Ok c' -> same_control c c'.
Hypothesis priority_floor :
  forall inter step, (1 # 10 <= priority_of inter step)%Q.
Implicit Type c : SimulationController D.

Local Abbreviation run_step :=
  (Arbiter.run_step timing sense priority_of scaling_factor).
Local Abbreviation main_loop :=
  (Arbiter.main_loop timing sense priority_of scaling_factor).

Lemma next_light_commanded (l l' : string) :
  next_light l l' -> l <> "RED"%string -> l' <> "RED"%string.
Proof.
  intros [-> | [(_ & ->) | [(_ & ->) | [(_ & ->) | (-> & _)]]]] H;
    first [exact H | discriminate | now destruct H].
Qed.

Lemma commanded_same_control c c' :
  same_control c c' -> commanded c -> commanded c'.
Proof.
  intros Hsame Hc i st' H'.
  destruct (same_control_lookup c c' i st' Hsame H') as (st & H & Hv).
  assert (E : current_light st' = current_light st)
    by exact (f_equal current_light Hv).
  rewrite E. exact (Hc i st H).
Qed.

Lemma commanded_control step c c' :
  arbitration_invariant timing scaling_factor c -> commanded c ->
  Arbiter.control timing priority_of scaling_factor step c = Ok c' ->
  commanded c'.
Proof.
  intros Hinv Hc H i st' H'.
  pose proof Hinv as (Hk & _).
  destruct (control_spec timing priority_of scaling_factor priority_floor
              step c Hinv) as (c0 & H0 & (Hk' & _) & _).
  assert (c0 = c') by congruence. subst c0.
  assert (Hr : 0 <= i <= 2) by (apply Hk'; eauto).
  destruct (proj2 (Hk i) Hr) as [st Hst].
  exact (next_light_commanded _ _
           (control_next_light timing priority_of scaling_factor priority_floor
              step c c' i st st' Hinv H Hst H')
           (Hc i st Hst)).
Qed.

(** Tick 0 leaves the traffic-light state as constructed. *)
Lemma first_tick_waits env c c' :
  arbitration_invariant timing scaling_factor c ->
  is_all_red c = true -> all_red_start c = 0 ->
  run_step env 0 c = Ok c' ->
  arbitration_invariant timing scaling_factor c' /\
  same_control c c'.
Proof.
  intros Hinv G S H.
  destruct (run_step_control timing sense priority_of scaling_factor sense_frame
              env 0 c c' H) as (c3 & Hsame & Hc).
  pose proof Hsame as (_ & G3 & S3 & _).
  unfold Arbiter.control in Hc. rewrite G3, G, S3, S in Hc.
  change (Qleb (ALL_RED_TIME timing) (inject_Z (0 - 0))) with false in Hc.
  cbv iota in Hc. assert (c3 = c') by congruence. subst c3.
  split; [|exact Hsame].
  exact (invariant_same_control timing scaling_factor c c' Hsame Hinv).
Qed.

(** Tick 1 commands every approach. *)
Lemma second_tick_commands env c c' :
  arbitration_invariant timing scaling_factor c ->
  is_all_red c = true -> all_red_start c = 0 ->
  run_step env 1 c = Ok c' ->
  commanded c'.
Proof.
  intros Hinv G S H.
  destruct (run_step_control timing sense priority_of scaling_factor sense_frame
              env 1 c c' H) as (c3 & Hsame & Hc).
  pose proof Hsame as (_ & G3 & S3 & _).
  pose proof (invariant_same_control timing scaling_factor c c3 Hsame Hinv)
    as Hinv3.
  pose proof Hinv3 as (Hk3 & _).
  destruct (control_spec timing priority_of scaling_factor priority_floor
              1 c3 Hinv3) as (c0 & H0 & (Hk' & _) & _).
  assert (c0 = c') by congruence. subst c0. clear H0.
  destruct (control_outcomes timing priority_of scaling_factor priority_floor
              1 c3 Hinv3) as (c0 & H0 & Hcase).
  assert (c0 = c') by congruence. subst c0. clear H0.
  rewrite <- G3 in G. rewrite <- S3 in S.
  destruct Hcase as [(_ & Hn & _) | [Hsel | [(G' & _) | (G' & _)]]];
    [| |congruence|congruence].
  - specialize (Hn G). rewrite S in Hn. discriminate.
  - destruct Hsel as (_ & _ & w & _ & _ & _ & _ & _ & Hin).
    intros i st' H'.
    assert (Hr : 0 <= i <= 2) by (apply Hk'; eauto).
    destruct (proj2 (Hk3 i) Hr) as [st Hst].
    rewrite (Hin i st Hst) in H'.
    destruct (i =? w); inversion H'; subst st'; discriminate.
Qed.

Lemma main_loop_commanded env0 env1 rest c c' :
  arbitration_invariant timing scaling_factor c ->
  is_all_red c = true -> all_red_start c = 0 ->
  main_loop (env0 :: env1 :: rest) 0 c = Ok c' ->
  commanded c'.
Proof.
  intros Hinv G S H. cbn [Arbiter.main_loop] in H.
  change (0 <? 3600) with true in H. change (0 + 1 <? 3600) with true in H.
  cbv iota in H.
  apply rbind_ok in H as (c1 & H1 & H).
  apply rbind_ok in H as (c2 & H2 & H).
  destruct (first_tick_waits env0 c c1 Hinv G S H1)
    as (Hinv1 & (_ & G1 & S1 & _)).
  rewrite G in G1. rewrite S in S1.
  pose proof (second_tick_commands env1 c1 c2 Hinv1 G1 S1 H2) as Hc2.
  refine (main_loop_keeps timing sense priority_of scaling_factor sense_frame
            priority_floor commanded commanded_same_control _
            rest (0 + 1 + 1) c2 c' _ Hc2 H).
  - intros step s s' Hs Hk. now apply commanded_control.
  - exact (proj1 (run_step_spec timing sense priority_of scaling_factor
                    sense_frame priority_floor env1 (0 + 1) c1 c2 Hinv1 H2)).
Qed.

Lemma main_loop_first_tick env0 c c' :
  arbitration_invariant timing scaling_factor c ->
  is_all_red c = true -> all_red_start c = 0 ->
  main_loop [env0] 0 c = Ok c' ->
  tl_center c' = tl_center c.
Proof.
  intros Hinv G S H. cbn [Arbiter.main_loop] in H.
  change (0 <? 3600) with true in H. cbv iota in H.
  apply rbind_ok in H as (c1 & H1 & H).
  assert (c1 = c') by congruence. subst c1.
  destruct (first_tick_waits env0 c c' Hinv G S H1)
    as (_ & (_ & _ & _ & _ & T & _)).
  exact T.
Qed.

Lemma exclusive_heads c :
  arbitration_invariant timing scaling_factor c ->
  heads_follow c -> commanded c ->
  forall i data st link,
    INTERSECTIONS_at i = Ok data ->
    intersections c !! i = Some st ->
    In link (tl_links data) ->
    tl_center c !! link
    = Some (if i =? active_idx c
            then if is_green (current_light st) then "G"%char else "y"%char
            else "r"%char).
Proof.
  intros (_ & _ & _ & Hred & Hrow & _) Hheads Hcmd i data st link Hdata Hst Hlink.
  apply (Hheads i data st link _ Hdata Hst Hlink).
  destruct (Z.eqb_spec i (active_idx c)) as [-> | Hne].
  - pose proof (Hrow st Hst) as Hl. unfold has_right_of_way in Hl.
    destruct (is_green (current_light st)) eqn:Eg.
    + apply String.eqb_eq in Eg. rewrite Eg. reflexivity.
    + cbn [orb] in Hl. apply String.eqb_eq in Hl. rewrite Hl. reflexivity.
  - destruct (is_red_cases _ (Hred i st Hst Hne)) as [E | E].
    + destruct (Hcmd i st Hst E).
    + rewrite E. reflexivity.
Qed.
End FirstCommands.

(** X19 (the signal heads).  With the script's constants and a traffic light
    of at least six heads, tick 0 of either controller writes nothing to the
    program string, which is still the initial one after it; after any run
    of at least two ticks the heads of the active approach show 'G' or 'y'
    (as its light is GREEN or YELLOW) and the heads of every other approach
    show 'r': the three approaches' heads are mutually exclusive. *)
Theorem heads_are_exclusive (sc : Binary.SensorConfig) (zc : QueueBased.ZoneConfig)
    (tl0 : list ascii) (env0 env1 : Traci) (rest : list Traci) :
  (6 <= length tl0)%nat ->
  (forall c, Binary.main timing sc tl0 [env0] = Ok c -> tl_center c = tl0) /\
  (forall c, QueueBased.main timing zc tl0 [env0] = Ok c -> tl_center c = tl0) /\
  (forall c, Binary.main timing sc tl0 (env0 :: env1 :: rest) = Ok c ->
     forall i data st link,
       INTERSECTIONS_at i = Ok data ->
       intersections c !! i = Some st ->
       In link (tl_links data) ->
       tl_center c !! link
       = Some (if i =? active_idx c
               then if is_green (current_light st) then "G"%char else "y"%char
               else "r"%char)) /\
  (forall c, QueueBased.main timing zc tl0 (env0 :: env1 :: rest) = Ok c ->
     forall i data st link,
       INTERSECTIONS_at i = Ok data ->
       intersections c !! i = Some st ->
       In link (tl_links data) ->
       tl_center c !! link
       = Some (if i =? active_idx c
               then if is_green (current_light st) then "G"%char else "y"%char
               else "r"%char)).
Proof.
  intros Hsix.
  pose proof (new_controller_invariant timing (75 # 10) Binary.no_detection tl0)
    as Hb0.
  pose proof (new_controller_invariant timing (15 # 10) QueueBased.no_detection tl0)
    as Hq0.
  split; [|split; [|split]].
  - intros c Hrun. unfold Binary.main, Binary.init, Binary.main_loop in Hrun.
    cbn [rbind] in Hrun.
    exact (main_loop_first_tick (Binary.update_sensors sc) Binary.priority_of
             (75 # 10) (binary_sense_frame sc) env0 _ c Hb0 eq_refl eq_refl Hrun).
  - intros c Hrun.
    unfold QueueBased.main, QueueBased.init, QueueBased.main_loop in Hrun.
    cbn [rbind] in Hrun.
    exact (main_loop_first_tick (QueueBased.measure_queue_length zc)
             (QueueBased.priority_of zc) (15 # 10) (queue_sense_frame zc)
             env0 _ c Hq0 eq_refl eq_refl Hrun).
  - intros c Hrun.
    apply (exclusive_heads (75 # 10) c).
    + exact (binary_main_invariant _ _ _ _ _ Hrun).
    + exact (proj1 (proj2 (binary_main_actuated _ _ _ _ _ Hsix Hrun))).
    + unfold Binary.main, Binary.init, Binary.main_loop in Hrun.
      cbn [rbind] in Hrun.
      exact (main_loop_commanded (Binary.update_sensors sc) Binary.priority_of
               (75 # 10) (binary_sense_frame sc) binary_priority_floor
               env0 env1 rest _ c Hb0 eq_refl eq_refl Hrun).
  - intros c Hrun.
    apply (exclusive_heads (15 # 10) c).
    + exact (queue_main_invariant _ _ _ _ _ Hrun).
    + exact (proj1 (proj2 (queue_main_actuated _ _ _ _ _ Hsix Hrun))).
    + unfold QueueBased.main, QueueBased.init, QueueBased.main_loop in Hrun.
      cbn [rbind] in Hrun.
      exact (main_loop_commanded (QueueBased.measure_queue_length zc)
               (QueueBased.priority_of zc) (15 # 10) (queue_sense_frame zc)
               (queue_priority_floor zc)
               env0 env1 rest _ c Hq0 eq_refl eq_refl Hrun).
Qed.

(** The network's initial program gives R1 and R2 green: it is still there
    after tick 0, and after tick 1 only R1's heads are green. *)
Lemma heads_are_exclusive_witness :
  exists c1 c2,
    (6 <= length (list_ascii_of_string "GGGGrr"))%nat /\
    Binary.main timing Binary.sensors (list_ascii_of_string "GGGGrr")
      [waiting_at_r1] = Ok c1 /\
    tl_center c1 = list_ascii_of_string "GGGGrr" /\
    Binary.main timing Binary.sensors (list_ascii_of_string "GGGGrr")
      [waiting_at_r1; waiting_at_r1] = Ok c2 /\
    tl_center c2 !! 2%nat = Some "r"%char.
Proof.
  destruct (heads_are_exclusive Binary.sensors QueueBased.zones
              (list_ascii_of_string "GGGGrr") waiting_at_r1 waiting_at_r1 []
              ltac:(cbn; lia)) as (H1 & _ & H2 & _).
  eexists _, _.
  split; [cbn; lia|].
  split; [vm_compute; reflexivity|].
  split; [apply H1; vm_compute; reflexivity|].
  split; [vm_compute; reflexivity|].
  refine (H2 _ _ 1 _ _ 2%nat _ _ _).
  - vm_compute. reflexivity.
  - vm_compute. reflexivity.
  - vm_compute. reflexivity.
  - cbn. left. reflexivity.
Defined.
